(** * bandabi: routing and timeline engine, embedded from the Python sources

    Conventions of the embedding.
    - A Python [float] is an exact rational [Q]; the functions of [math] and
      [numpy] that leave the rationals (square root, sine, cosine, arc sine,
      the log-normal sampler) are Section variables. Doubles round where
      rationals do not: an equality between two computed numbers is stated
      as a property of the code only where the code gets both by the same
      operations in the same order; the ones that hold up to rounding are
      said to be about exact arithmetic.
    - A raised exception is the [Raise] case of [result].
    - A [while] loop without a syntactic bound takes a [fuel] argument and
      answers [None] when the fuel runs out.
    - Indexing ([points[i]], [dist_mat[a, b]]) is total: the callers only index
      with values drawn from [range(n)]. *)

From Stdlib Require Import QArith Qround Lia Lqa ZArith Ascii.
From stdpp Require Import base list strings pretty gmap sorting.

Set Default Proof Using "Type".

(** ** Python values shared by the modules *)

Inductive exn : Type :=
  | ValueError (msg : string)
  | ConfigError (msg : string)
  | RuntimeError (msg : string)
  | TypeError (msg : string)
  | AttributeError (msg : string).

Inductive result (A : Type) : Type :=
  | Ok (a : A)
  | Raise (e : exn).
Arguments Ok {A} a.
Arguments Raise {A} e.

(** Sequencing of calls that may raise: the first exception ends the run. *)
#[global] Instance result_bind : MBind result := λ A B f r,
  match r with
  | Ok a => f a
  | Raise e => Raise e
  end.

Definition point : Type := (Q * Q)%type.

(** A two-dimensional [numpy] array: its shape and its cells. *)
Record matrix : Type := Matrix {
  nrows : nat;
  ncols : nat;
  cell : nat → nat → Q
}.

Definition of_rows (rows : list (list Q)) : matrix :=
  Matrix (length rows) (length (hd [] rows))
         (λ a b, nth b (nth a rows []) 0%Q).

#[global] Instance Qlt_decision (x y : Q) : Decision (x < y)%Q.
Proof.
  destruct (Qlt_le_dec x y) as [H | H].
  - left. exact H.
  - right. apply Qle_not_lt, H.
Defined.

#[global] Instance Qle_decision (x y : Q) : Decision (x <= y)%Q.
Proof.
  destruct (Qlt_le_dec y x) as [H | H].
  - right. apply Qlt_not_le, H.
  - left. exact H.
Defined.

(** The improvement threshold [1e-9] of both 2-opt procedures. *)
Definition eps : Q := (1 # 1000000000)%Q.

(** [min(items, key=key)] on a non-empty iterable [x :: xs]: the first item
    whose key no later item undercuts. The set [set(range(1, n))] is kept as
    the increasing list of its elements, the order in which CPython iterates
    a set of small integers; ties thus go to the lowest index. *)
Definition py_min (key : nat → Q) (x : nat) (xs : list nat) : nat :=
  foldl (λ best y, if Qlt_le_dec (key y) (key best) then y else best) x xs.

(** [s.remove(x)] on a set kept as a duplicate-free list. *)
Definition set_remove (x : nat) (s : list nat) : list nat :=
  filter (λ y, y ≠ x) s.

(** [best[:i] + best[i:j][::-1] + best[j:]] *)
Definition reverse_segment (best : list nat) (i j : nat) : list nat :=
  take i best ++ reverse (take (j - i) (drop i best)) ++ drop j best.

(** State of one 2-opt pass: [best], [best_cost], [improved]. *)
Definition pass_state : Type := (list nat * Q * bool)%type.

(** ** routing/tsp.py *)
Module Tsp.
Section Tsp.

(** [np.sqrt] *)
Variable fsqrt : Q → Q.

Definition _euclid (p1 p2 : point) : Q :=
  fsqrt ((p1.1 - p2.1) ^ 2 + (p1.2 - p2.2) ^ 2)%Q.

Definition edge (dist_mat : option matrix) (points : list point) (a b : nat) : Q :=
  match dist_mat with
  | Some m => cell m a b
  | None => _euclid (nth a points (0, 0)%Q) (nth b points (0, 0)%Q)
  end.

Definition _route_cost (route : list nat) (dist_mat : option matrix)
    (points : list point) : Q :=
  foldl (λ cost ab, (cost + edge dist_mat points ab.1 ab.2)%Q) 0%Q
        (zip (removelast route) (tail route)).

Section TwoOpt.
Variable dist_mat : option matrix.
Variable points : list point.

(** Body of [for j in range(i + 1, len(best) - 1)]. *)
Definition inner_step (i : nat) (st : pass_state) (j : nat) : pass_state :=
  let '(best, best_cost, improved) := st in
  if j - i =? 1 then st
  else
    let cand := reverse_segment best i j in
    let c := _route_cost cand dist_mat points in
    if Qlt_le_dec (c + eps) best_cost then (cand, c, true) else st.

(** Body of [for i in range(1, len(best) - 2)]. *)
Definition outer_step (st : pass_state) (i : nat) : pass_state :=
  foldl (inner_step i) st (seq (i + 1) (length st.1.1 - 1 - (i + 1))).

(** One turn of [while improved]. *)
Definition pass (best : list nat) (best_cost : Q) : pass_state :=
  foldl outer_step (best, best_cost, false) (seq 1 (length best - 2 - 1)).

(** [while improved: ...]; the second component records [best_cost]
    after each pass (ghost, for counting passes). *)
Fixpoint two_opt_loop (fuel : nat) (best : list nat) (best_cost : Q)
    : option (list nat * list Q) :=
  match fuel with
  | O => None
  | S fuel' =>
      let '(best', cost', improved) := pass best best_cost in
      if improved
      then '(r, costs) ← two_opt_loop fuel' best' cost'; Some (r, cost' :: costs)
      else Some (best', [cost'])
  end.

Definition _two_opt_trace (fuel : nat) (route : list nat)
    : option (list nat * list Q) :=
  two_opt_loop fuel route (_route_cost route dist_mat points).

Definition _two_opt (fuel : nat) (route : list nat) : option (list nat) :=
  fst <$> _two_opt_trace fuel route.
End TwoOpt.

(** [while unvisited: ...] of [solve_tsp]; [key cur i] is the distance the
    method selects. The set shrinks by one element per turn, so the loop
    is run on [length unvisited] units of fuel. *)
Fixpoint nn_loop (key : nat → nat → Q) (fuel : nat) (unvisited : list nat)
    (cur : nat) (route : list nat) : list nat :=
  match fuel, unvisited with
  | S fuel', x :: xs =>
      let nxt := py_min (key cur) x xs in
      nn_loop key fuel' (set_remove nxt unvisited) nxt (route ++ [nxt])
  | _, _ => route
  end.

Definition shape_msg (n : nat) (m : matrix) : string :=
  "dist_mat shape must be (" +:+ pretty n +:+ "," +:+ pretty n +:+ "), got ("
    +:+ pretty (nrows m) +:+ ", " +:+ pretty (ncols m) +:+ ")".

Definition solve_tsp (fuel : nat) (points : list point)
    (dist_mat : option matrix) (method : string) (improve_2opt : bool)
    : option (result (list nat)) :=
  let n := length points in
  if n =? 0 then Some (Ok [])
  else if n =? 1 then Some (Ok [0; 0])
  else if negb (String.eqb method "euclid_nn" || String.eqb method "time_nn")
  then Some (Raise (ValueError ("Unknown routing method: " +:+ method)))
  else
    let checked : result unit :=
      if String.eqb method "time_nn" then
        match dist_mat with
        | None => Raise (ValueError "dist_mat is required for method='time_nn'")
        | Some m =>
            if (nrows m =? n) && (ncols m =? n) then Ok ()
            else Raise (ValueError (shape_msg n m))
        end
      else Ok () in
    match checked with
    | Raise e => Some (Raise e)
    | Ok _ =>
        let key cur i :=
          if String.eqb method "euclid_nn"
          then _euclid (nth cur points (0, 0)%Q) (nth i points (0, 0)%Q)
          else match dist_mat with Some m => cell m cur i | None => 0%Q end in
        let unvisited := seq 1 (n - 1) in
        let route := nn_loop key (length unvisited) unvisited 0 [0] ++ [0] in
        if improve_2opt && (4 <? length route)
        then Ok <$> _two_opt (if String.eqb method "time_nn" then dist_mat else None)
                             points fuel route
        else Some (Ok route)
    end.

End Tsp.
End Tsp.

(** ** routing/route_solver.py *)
Module RouteSolver.
Section RouteSolver.

(** [random.Random(seed)] and its [randrange(a, b)]. *)
Context {rng : Type}.
Variable Random : Z → rng.
Variable randrange : rng → nat → nat → nat * rng.

(** [while unvisited: ...] of [_nearest_neighbor], on [length unvisited]
    units of fuel. *)
Fixpoint nn_loop (dist_mat : matrix) (fuel : nat) (unvisited : list nat)
    (cur : nat) (path : list nat) : list nat :=
  match fuel, unvisited with
  | S fuel', x :: xs =>
      let nxt := py_min (cell dist_mat cur) x xs in
      nn_loop dist_mat fuel' (set_remove nxt unvisited) nxt (path ++ [nxt])
  | _, _ => path
  end.

Definition _nearest_neighbor (dist_mat : matrix) : list nat :=
  let n := nrows dist_mat in
  let unvisited := seq 1 (n - 1) in
  nn_loop dist_mat (length unvisited) unvisited 0 [0] ++ [0].

Definition _route_cost (route : list nat) (dist_mat : matrix) : Q :=
  foldl (λ c i, (c + cell dist_mat (nth i route O) (nth (i + 1)%nat route O))%Q) 0%Q
        (seq 0 (length route - 1)).

Section TwoOpt.
Variable dist_mat : matrix.

(** Body of [for k in range(i + 1, n - 2)]. *)
Definition inner_step (i : nat) (st : pass_state) (k : nat) : pass_state :=
  let '(best, best_cost, improved) := st in
  let new := reverse_segment best i (k + 1) in
  let c := _route_cost new dist_mat in
  if Qlt_le_dec (c + eps) best_cost then (new, c, true) else st.

(** Body of [for i in range(1, n - 3)]. *)
Definition outer_step (n : nat) (st : pass_state) (i : nat) : pass_state :=
  foldl (inner_step i) st (seq (i + 1) (n - 2 - (i + 1))).

Definition pass (n : nat) (best : list nat) (best_cost : Q) : pass_state :=
  foldl (outer_step n) (best, best_cost, false) (seq 1 (n - 3 - 1)).

(** [while improved and passes < max_passes]; [budget] is
    [max_passes - passes]. The second component records [best_cost]
    after each pass (ghost, for counting passes). *)
Fixpoint two_opt_loop (n : nat) (budget : nat) (best : list nat) (best_cost : Q)
    : list nat * list Q :=
  match budget with
  | O => (best, [])
  | S budget' =>
      let '(best', cost', improved) := pass n best best_cost in
      if improved
      then let '(r, costs) := two_opt_loop n budget' best' cost' in (r, cost' :: costs)
      else (best', [cost'])
  end.

Definition _two_opt_trace (route : list nat) (max_passes : nat)
    : list nat * list Q :=
  two_opt_loop (length route) max_passes route (_route_cost route dist_mat).

Definition _two_opt (route : list nat) (max_passes : nat) : list nat :=
  (_two_opt_trace route max_passes).1.

(** The closure [neighbors(r)] of [_tabu_search]. *)
Definition neighbors (n : nat) (g : rng) (r : list nat)
    : option (list nat * (nat * nat)) * rng :=
  let '(i, g1) := randrange g 1 (n - 2) in
  let '(k, g2) := randrange g1 1 (n - 2) in
  if i =? k then (None, g2)
  else
    let '(i, k) := if k <? i then (k, i) else (i, k) in
    let rr := <[k := nth i r 0]> (<[i := nth k r 0]> r) in
    (Some (rr, (nth i r 0, nth k r 0)), g2).

(** State of [for t in range(iters)]:
    [rng], [best], [best_cost], [cur], [cur_cost], [tabu]. *)
Record tabu_state : Type := TabuState {
  ts_rng : rng;
  ts_best : list nat;
  ts_best_cost : Q;
  ts_cur : list nat;
  ts_cur_cost : Q;
  ts_tabu : gmap (nat * nat) nat
}.

Definition tabu_step (n tabu_tenure : nat) (s : tabu_state) (t : nat) : tabu_state :=
  match neighbors n (ts_rng s) (ts_cur s) with
  | (None, g) =>
      TabuState g (ts_best s) (ts_best_cost s) (ts_cur s) (ts_cur_cost s) (ts_tabu s)
  | (Some (cand, move), g) =>
      let c := _route_cost cand dist_mat in
      let is_tabu :=
        match ts_tabu s !! move with
        | Some expiry => t <? expiry
        | None => false
        end in
      if negb is_tabu || (if Qlt_le_dec c (ts_best_cost s) then true else false)
      then
        let tabu' := <[move := t + tabu_tenure]> (ts_tabu s) in
        if Qlt_le_dec c (ts_best_cost s)
        then TabuState g cand c cand c tabu'
        else TabuState g (ts_best s) (ts_best_cost s) cand c tabu'
      else
        TabuState g (ts_best s) (ts_best_cost s) (ts_cur s) (ts_cur_cost s) (ts_tabu s)
  end.

Definition _tabu_search (route : list nat) (seed : Z) (iters tabu_tenure : nat)
    : list nat :=
  let n := length route in
  if n <? 6 then _two_opt route 10
  else
    let c0 := _route_cost route dist_mat in
    ts_best (foldl (tabu_step n tabu_tenure)
                   (TabuState (Random seed) route c0 route c0 ∅)
                   (seq 0 iters)).
End TwoOpt.

(** [improve_method] is [None] or a string. *)
Definition solve_tsp (points : list point) (dist_mat : matrix)
    (improve_method : option string) (seed : Z) (tabu_iters : nat) : list nat :=
  let n := length points in
  if n <=? 1 then [0; 0]
  else
    let route := _nearest_neighbor dist_mat in
    match improve_method with
    | None => route
    | Some m =>
        if String.eqb m "none" then route
        else if String.eqb m "two_opt" then _two_opt dist_mat route 30
        else if String.eqb m "tabu" then _tabu_search dist_mat route seed tabu_iters 20
        else route
    end.

End RouteSolver.
End RouteSolver.

(** ** pipeline.py *)
Module Pipeline.

(** [range(0, stop, step)] for a positive [step]; the element count is
    CPython's [(stop - start + step - 1) // step]. *)
Definition range_up (stop step : nat) : list nat :=
  (λ k, k * step) <$> seq 0 ((stop + step - 1) / step).

Section Split.
(** A row of the requests frame. *)
Context {A : Type}.

(** [for i in range(0, len(g), cap)] with its [break]. *)
Fixpoint chunk_loop (g : list A) (cap : nat) (max_veh : Z) (idx : list nat)
    (vehicles : list (list A)) : list (list A) :=
  match idx with
  | [] => vehicles
  | i :: idx' =>
      if (max_veh <=? Z.of_nat (length vehicles))%Z then vehicles
      else chunk_loop g cap max_veh idx' (vehicles ++ [take cap (drop i g)])
  end.

Definition _split_vehicles_df (g : list A) (cap max_veh : Z)
    : result (list (list A)) :=
  if (cap <=? 0)%Z
  then Raise (ConfigError ("capacity must be > 0 (got " +:+ pretty cap +:+ ")"))
  else if (max_veh <=? 0)%Z
  then Raise (ConfigError
         ("max_vehicles_per_center_slot must be > 0 (got " +:+ pretty max_veh +:+ ")"))
  else
    Ok (chunk_loop g (Z.to_nat cap) max_veh
          (range_up (length g) (Z.to_nat cap)) []).
End Split.

(** [seg] of [_simulate_timeline]: the durations of the consecutive legs. *)
Definition segments (route_points : list nat) (dist_mat : matrix) : list Q :=
  (λ ab, cell dist_mat ab.1 ab.2) <$> zip (removelast route_points) (tail route_points).

(** [float(sum(seg))] *)
Definition total_duration (route_points : list nat) (dist_mat : matrix) : Q :=
  foldl Qplus 0%Q (segments route_points dist_mat).

(** Body of [for s in seg] on the pair [t], [times]. *)
Definition timeline_step (st : Q * list Q) (s : Q) : Q * list Q :=
  let t := (st.1 + s)%Q in (t, st.2 ++ [t]).

Definition _simulate_timeline (route_points : list nat) (dist_mat : matrix)
    (start_min end_at : option Q) : list Q :=
  let seg := segments route_points dist_mat in
  let total := foldl Qplus 0%Q seg in
  let start_min :=
    match start_min, end_at with
    | None, Some e => Some (e - total)%Q
    | _, _ => start_min
    end in
  let start_min := match start_min with None => 0%Q | Some s => s end in
  (foldl timeline_step (start_min, [start_min]) seg).2.

End Pipeline.

(** ** clustering.py *)
Module Clustering.
Section Clustering.

(** [np.radians], [np.sin], [np.cos], [np.arcsin], [np.sqrt] *)
Variables radians sin cos arcsin sqrt : Q → Q.

(** A row of the requests frame and [r[col]]. *)
Context {A : Type}.
Variable get : A → string → Q.

Definition _haversine_km (lat1 lon1 lat2 lon2 : Q) : Q :=
  let R := 6371%Q in
  let lat1 := radians lat1 in
  let lon1 := radians lon1 in
  let lat2 := radians lat2 in
  let lon2 := radians lon2 in
  let dlat := (lat2 - lat1)%Q in
  let dlon := (lon2 - lon1)%Q in
  let a := (sin (dlat / 2) ^ 2 + cos lat1 * cos lat2 * sin (dlon / 2) ^ 2)%Q in
  (2 * R * arcsin (sqrt a))%Q.

(** The sort behind [df.sort_values("center_dist")], [numpy]'s [argsort] of
    the default kind: the positions of the keys in an order that sorts them.
    Which of two equal keys comes first is not fixed by [pandas]; it depends
    on the sort the platform runs. *)
Variable argsort : list Q → list nat.

(** [df.sort_values("center_dist")] on the rows with their distance. *)
Definition sort_values (keyed : list (Q * A)) : list A :=
  omap (λ i, snd <$> keyed !! i) (argsort (fst <$> keyed)).

(** [range(0, stop, step)] for any integer [step]. *)
Definition py_range0 (stop : nat) (step : Z) : result (list nat) :=
  if (step =? 0)%Z then Raise (ValueError "range() arg 3 must not be zero")
  else if (step <? 0)%Z then Ok []
  else Ok (Pipeline.range_up stop (Z.to_nat step)).

(** [for i in range(0, len(df), cap)] with its [break]. *)
Fixpoint bus_loop (df : list A) (cap : nat) (max_bus : Z) (idx : list nat)
    (buses : list (list A)) : list (list A) :=
  match idx with
  | [] => buses
  | i :: idx' =>
      if (max_bus <=? Z.of_nat (length buses))%Z then buses
      else bus_loop df cap max_bus idx' (buses ++ [take cap (drop i df)])
  end.

Definition split_requests_into_buses (g : list A) (center_lat center_lon : Q)
    (cap max_bus : Z) (lat_col lon_col : string) (strategy : string) (seed : Z)
    : result (list (list A)) :=
  if length g =? 0 then Ok []
  else
    let df :=
      if String.eqb strategy "center_dist"
      then sort_values
             ((λ r, (_haversine_km center_lat center_lon (get r lat_col) (get r lon_col), r))
                <$> g)
      else g in
    match py_range0 (length df) cap with
    | Raise e => Raise e
    | Ok idx => Ok (bus_loop df (Z.to_nat cap) max_bus idx [])
    end.

End Clustering.
End Clustering.

(** ** config as the modules read it

    A configuration mapping is a record of optional entries; [None] is an
    absent key. The code reads a numeric entry through [float(...)] or
    [int(...)] only, so the entry is kept as what the conversion makes of it:
    the number, or the exception it raises ([TypeError] on [None] or a list,
    [ValueError] on text that is no number). A text entry is kept as what
    [str(...)] makes of it. *)
Record TimeModelCfg : Type := {
  tm_kind : option string;
  tm_graphml_path : option string;
  tm_speed_multiplier : option (result Q);
  tm_default_speed_kmh : option (result Q)
}.

Record SimCfg : Type := {
  sim_detour_factor : option (result Q);
  sim_travel_time_noise_sigma : option (result Q);
  sim_seed : option (result Z)
}.

Record KpiCfg : Type := {
  kpi_on_time_threshold_min : option (result Q)
}.

(** The [sim] entry: absent, a mapping, or a value of another type, of
    which the code looks at the truth value and the type name. *)
Inductive sim_entry : Type :=
  | SimAbsent
  | SimMapping (sim : SimCfg)
  | SimOther (truthy : bool) (type_name : string).

(** [time_model] and [kpi] are read behind an [isinstance(..., dict)] test:
    [None] is an absent key or a value that is no mapping. *)
Record Cfg : Type := {
  cfg_time_model : option TimeModelCfg;
  cfg_sim : sim_entry;
  cfg_kpi : option KpiCfg
}.

Definition empty_tm : TimeModelCfg := Build_TimeModelCfg None None None None.
Definition empty_sim : SimCfg := Build_SimCfg None None None.

(** [d.get(key, default)] *)
Definition get_or {A : Type} (entry : option A) (default : A) : A :=
  match entry with Some v => v | None => default end.

(** [float(d.get(key, default))] and [int(d.get(key, default))] *)
Definition conv_or {A : Type} (entry : option (result A)) (default : A) : result A :=
  match entry with Some r => r | None => Ok default end.

(** [cfg.get("sim", {}) if isinstance(cfg.get("sim", {}), dict) else {}] *)
Definition sim_mapping (cfg : Cfg) : SimCfg :=
  match cfg_sim cfg with SimMapping sim => sim | _ => empty_sim end.

(** ** metrics.py *)
Module Metrics.

(** A [pandas] frame of numeric columns: its row count and its columns in
    order. *)
Record DataFrame : Type := {
  df_len : nat;
  df_columns : list (string * list Q)
}.

Definition column (df : DataFrame) (name : string) : option (list Q) :=
  (λ ic, ic.2.2) <$> list_find (λ c, c.1 = name) (df_columns df).

Record Summary : Type := { s_mean : Q; s_p95 : Q; s_max : Q }.

Record Kpis : Type := {
  pickup_late_mean : Q;
  pickup_late_p95 : Q;
  pickup_late_max : Q;
  center_late_mean : Q;
  center_late_p95 : Q;
  center_late_max : Q;
  pickup_on_time_rate : Q;
  center_on_time_rate : Q;
  ride_time_mean : Q;
  ride_time_p95 : Q;
  ride_time_max : Q
}.

Definition np_sum (x : list Q) : Q := foldl Qplus 0%Q x.

Definition np_mean (x : list Q) : Q := (np_sum x / inject_Z (Z.of_nat (length x)))%Q.

Definition np_max (x : list Q) : Q :=
  foldl (λ m y, if Qlt_le_dec m y then y else m) (hd 0%Q x) (tail x).

(** [np.percentile(x, q)] with the default linear interpolation. *)
Definition np_percentile (x : list Q) (q : Q) : Q :=
  let sorted := merge_sort Qle x in
  let rank := (q / 100 * inject_Z (Z.of_nat (length x - 1)))%Q in
  let lo := Z.to_nat (Qfloor rank) in
  let hi := Nat.min (lo + 1) (length x - 1) in
  let frac := (rank - inject_Z (Z.of_nat lo))%Q in
  let a := nth lo sorted 0%Q in
  let b := nth hi sorted 0%Q in
  (a + (b - a) * frac)%Q.

Definition _summ (x : list Q) : Summary :=
  if length x =? 0 then Build_Summary 0 0 0
  else Build_Summary (np_mean x) (np_percentile x 95) (np_max x).

(** [np.mean(late <= thr)] *)
Definition on_time_rate (late : list Q) (thr : Q) : Q :=
  np_mean ((λ v, if Qlt_le_dec thr v then 0%Q else 1%Q) <$> late).

Definition required : list string :=
  ["pickup_promise_min"; "pickup_actual_min"; "center_promise_min";
   "center_actual_min"; "ride_time_min"].

(** [repr] of a list of strings, as the f-string prints it. *)
Definition repr_list (l : list string) : string :=
  "[" +:+ String.concat ", " ((λ s, "'" +:+ s +:+ "'") <$> l) +:+ "]".

Definition col (df : DataFrame) (name : string) : list Q :=
  get_or (column df name) [].

(** [events_df] is [None] or a frame. *)
Definition compute_kpis (events_df : option DataFrame) (cfg : Cfg) : result Kpis :=
  match events_df with
  | None => Ok (Build_Kpis 0 0 0 0 0 0 1 1 0 0 0)
  | Some df =>
      if df_len df =? 0 then Ok (Build_Kpis 0 0 0 0 0 0 1 1 0 0 0)
      else
        match cfg_kpi cfg ≫= kpi_on_time_threshold_min with
        | None => Raise (ConfigError "Missing kpi.on_time_threshold_min in config")
        | Some (Raise e) => Raise e
        | Some (Ok thr) =>
            let missing := filter (λ c, column df c = None) required in
            match missing with
            | _ :: _ =>
                Raise (ConfigError
                  ("events_df missing columns: " +:+ repr_list missing +:+
                   ". Available: " +:+ repr_list (fst <$> df_columns df)))
            | [] =>
                let pickup_late :=
                  zip_with Qminus (col df "pickup_actual_min") (col df "pickup_promise_min") in
                let center_late :=
                  zip_with Qminus (col df "center_actual_min") (col df "center_promise_min") in
                let ride_time := col df "ride_time_min" in
                let p := _summ pickup_late in
                let c := _summ center_late in
                let r := _summ ride_time in
                Ok (Build_Kpis (s_mean p) (s_p95 p) (s_max p)
                               (s_mean c) (s_p95 c) (s_max c)
                               (on_time_rate pickup_late thr)
                               (on_time_rate center_late thr)
                               (s_mean r) (s_p95 r) (s_max r))
            end
        end
  end.

End Metrics.

(** ** time_model.py *)
Module TimeModel.

(** A float that may be [nan]. *)
Inductive pyfloat : Type :=
  | Finite (q : Q)
  | NaN.

(** [np.isfinite] *)
Definition isfinite (t : pyfloat) : bool :=
  match t with Finite _ => true | NaN => false end.

(** [max(a, b)]: [b] only when it is strictly larger. *)
Definition py_max (a b : Q) : Q := if Qlt_le_dec a b then b else a.

(** [round(x)]: to the nearest integer, ties to the even one. *)
Definition py_round (x : Q) : Z :=
  let f := Qfloor x in
  let d := (x - inject_Z f)%Q in
  match (d ?= 1 # 2)%Q with
  | Lt => f
  | Gt => (f + 1)%Z
  | Eq => if Z.even f then f else (f + 1)%Z
  end.

Definition lower_ascii (c : ascii) : ascii :=
  let n := nat_of_ascii c in
  if (65 <=? n) && (n <=? 90) then ascii_of_nat (n + 32) else c.

(** [s.lower()] on ASCII text. *)
Fixpoint lower (s : string) : string :=
  match s with
  | EmptyString => EmptyString
  | String c s' => String (lower_ascii c) (lower s')
  end.

Section TimeModel.

(** [math.radians], [math.sin], [math.cos], [math.asin], [math.sqrt] *)
Variables radians sin cos asin sqrt : Q → Q.

(** [numpy]'s generator: [np.random.default_rng(seed)], which raises on a
    seed it does not accept (a negative one), and
    [rng.lognormal(mean, sigma)]. *)
Context {Generator : Type}.
Variable default_rng : Z → result Generator.
Variable lognormal : Generator → Q → Q → Q * Generator.

(** The road graph: [networkx]'s [shortest_path_length(G, u, v, weight)],
    [None] when it raises (no path, unknown node), and [osmnx]'s
    [nearest_nodes(G, X, Y)]. *)
Context {Graph : Type}.
Variable shortest_path_length : Graph → nat → nat → option Q.
Variable nearest_nodes : Graph → Q → Q → nat.

Definition haversine_km (lat1 lon1 lat2 lon2 : Q) : Q :=
  let R := 6371%Q in
  let p1 := radians lat1 in
  let p2 := radians lat2 in
  let dphi := radians (lat2 - lat1) in
  let dl := radians (lon2 - lon1) in
  let a := (sin (dphi / 2) ^ 2 + cos p1 * cos p2 * sin (dl / 2) ^ 2)%Q in
  (2 * R * asin (sqrt a))%Q.

Record EuclidTimeModel : Type := {
  default_speed_kmh : Q;
  speed_multiplier : Q;
  detour_factor : Q;
  noise_sigma : Q;
  seed : Z;
  rng : Generator
}.

(** The dataclass constructor followed by [__post_init__]. *)
Definition EuclidTimeModel_new (default_speed_kmh speed_multiplier detour_factor
    noise_sigma : Q) (seed : Z) : result EuclidTimeModel :=
  rng ← default_rng seed;
  Ok (Build_EuclidTimeModel default_speed_kmh speed_multiplier detour_factor
        noise_sigma seed rng).

Definition euclid_mean_travel_min (self : EuclidTimeModel) (a_lat a_lon b_lat b_lon : Q)
    : Q :=
  let dist_km := (haversine_km a_lat a_lon b_lat b_lon * detour_factor self)%Q in
  let speed := py_max (1 # 1000000) (default_speed_kmh self * speed_multiplier self) in
  (dist_km / speed * 60)%Q.

(** Returns the sample and the model with its generator advanced. *)
Definition euclid_sample_travel_min (self : EuclidTimeModel) (a_lat a_lon b_lat b_lon : Q)
    : Q * EuclidTimeModel :=
  let mu := euclid_mean_travel_min self a_lat a_lon b_lat b_lon in
  if Qlt_le_dec 0 (noise_sigma self)
  then
    let '(noise, g) :=
      lognormal (rng self) (- (1 # 2) * noise_sigma self ^ 2)%Q (noise_sigma self) in
    ((mu * noise)%Q,
     Build_EuclidTimeModel (default_speed_kmh self) (speed_multiplier self)
       (detour_factor self) (noise_sigma self) (seed self) g)
  else (mu, self).

(** The fields of [RoadTimeModel] that a query reads, and its two
    [lru_cache]s. Eviction at [maxsize] only forgets entries. *)
Record RoadTimeModel : Type := {
  G : Graph;
  G_u : Graph;
  road_speed_multiplier : Q;
  road_detour_factor : Q;
  fallback_speed_kph : Q;
  nearest_cache : gmap (Z * Z) nat;
  od_cache : gmap (nat * nat) pyfloat
}.

Definition with_nearest (self : RoadTimeModel) (c : gmap (Z * Z) nat) : RoadTimeModel :=
  Build_RoadTimeModel (G self) (G_u self) (road_speed_multiplier self)
    (road_detour_factor self) (fallback_speed_kph self) c (od_cache self).

Definition with_od (self : RoadTimeModel) (c : gmap (nat * nat) pyfloat) : RoadTimeModel :=
  Build_RoadTimeModel (G self) (G_u self) (road_speed_multiplier self)
    (road_detour_factor self) (fallback_speed_kph self) (nearest_cache self) c.

(** Body of [_nearest_node], below its cache. *)
Definition nearest_node_body (self : RoadTimeModel) (lat_r lon_r : Z) : nat :=
  let lat := (inject_Z lat_r / 100000)%Q in
  let lon := (inject_Z lon_r / 100000)%Q in
  nearest_nodes (G self) lon lat.

Definition _nearest_node (self : RoadTimeModel) (lat_r lon_r : Z) : nat * RoadTimeModel :=
  match nearest_cache self !! (lat_r, lon_r) with
  | Some n => (n, self)
  | None =>
      let n := nearest_node_body self lat_r lon_r in
      (n, with_nearest self (<[(lat_r, lon_r) := n]> (nearest_cache self)))
  end.

Definition _node (self : RoadTimeModel) (lat lon : Q) : nat * RoadTimeModel :=
  _nearest_node self (py_round (lat * 100000)) (py_round (lon * 100000)).

(** Body of [_od_time_min], below its cache. *)
Definition od_time_body (self : RoadTimeModel) (u v : nat) : pyfloat :=
  match shortest_path_length (G self) u v with
  | Some sec => Finite (sec / 60)
  | None =>
      match shortest_path_length (G_u self) u v with
      | Some sec => Finite (sec / 60)
      | None => NaN
      end
  end.

Definition _od_time_min (self : RoadTimeModel) (u v : nat) : pyfloat * RoadTimeModel :=
  match od_cache self !! (u, v) with
  | Some t => (t, self)
  | None =>
      let t := od_time_body self u v in
      (t, with_od self (<[(u, v) := t]> (od_cache self)))
  end.

Definition road_mean_travel_min (self : RoadTimeModel) (a_lat a_lon b_lat b_lon : Q)
    : Q * RoadTimeModel :=
  let '(u, self) := _node self a_lat a_lon in
  let '(v, self) := _node self b_lat b_lon in
  if u =? v then (1 # 10, self)%Q
  else
    let '(t, self) := _od_time_min self u v in
    match t with
    | Finite q => (q, self)
    | NaN =>
        let km := (haversine_km a_lat a_lon b_lat b_lon * road_detour_factor self)%Q in
        let speed_kph := py_max 1 (fallback_speed_kph self * road_speed_multiplier self) in
        ((km / speed_kph * 60)%Q, self)
    end.

Definition road_sample_travel_min (self : RoadTimeModel) (a_lat a_lon b_lat b_lon : Q)
    : Q * RoadTimeModel :=
  road_mean_travel_min self a_lat a_lon b_lat b_lon.

(** [RoadTimeModel(graphml_path, speed_multiplier, cfg, seed)]: loads and
    repairs the graph, or raises. *)
Variable RoadTimeModel_init : string → Q → Cfg → Z → result RoadTimeModel.

Inductive time_model : Type :=
  | Road (m : RoadTimeModel)
  | Euclid (m : EuclidTimeModel).

(** [str(tm.get("kind", "euclid")).lower()] *)
Definition time_model_kind (cfg : Cfg) : string :=
  lower (get_or (tm_kind (get_or (cfg_time_model cfg) empty_tm)) "euclid").

Definition build_time_model (cfg : Cfg) : result time_model :=
  let tm := get_or (cfg_time_model cfg) empty_tm in
  let kind := time_model_kind cfg in
  if String.eqb kind "road" then
    let graph_path := get_or (tm_graphml_path tm) "data/cache/osmnx/seoul_drive.graphml" in
    speed_mult ← conv_or (tm_speed_multiplier tm) 1%Q;
    seed ←
      match cfg_sim cfg with
      | SimMapping sim => conv_or (sim_seed sim) 123%Z
      | SimOther true type_name =>
          Raise (AttributeError ("'" +:+ type_name +:+ "' object has no attribute 'get'"))
      | _ => Ok 123%Z
      end;
    m ← RoadTimeModel_init graph_path speed_mult cfg seed;
    Ok (Road m)
  else
    let base := tm in
    let sim := sim_mapping cfg in
    default_speed_kmh ← conv_or (tm_default_speed_kmh base) 18%Q;
    speed_multiplier ← conv_or (tm_speed_multiplier base) 1%Q;
    detour_factor ← conv_or (sim_detour_factor sim) (5 # 4)%Q;
    noise_sigma ← conv_or (sim_travel_time_noise_sigma sim) (1 # 4)%Q;
    seed ← conv_or (sim_seed sim) 123%Z;
    m ← EuclidTimeModel_new default_speed_kmh speed_multiplier detour_factor
          noise_sigma seed;
    Ok (Euclid m).

(** The node a coordinate resolves to. *)
Definition node_of (self : RoadTimeModel) (lat lon : Q) : nat :=
  nearest_node_body self (py_round (lat * 100000)) (py_round (lon * 100000)).

(** The haversine estimate at the fallback speed. *)
Definition geometric_fallback (self : RoadTimeModel) (a_lat a_lon b_lat b_lon : Q) : Q :=
  (haversine_km a_lat a_lon b_lat b_lon * road_detour_factor self
     / py_max 1 (fallback_speed_kph self * road_speed_multiplier self) * 60)%Q.

(** Every cached entry is what the cached function computes on the graphs
    of [self]. *)
Definition caches_ok (self : RoadTimeModel) : Prop :=
  (∀ lat_r lon_r n, nearest_cache self !! (lat_r, lon_r) = Some n →
     n = nearest_node_body self lat_r lon_r) ∧
  (∀ u v t, od_cache self !! (u, v) = Some t → t = od_time_body self u v).

(** [self'] is [self] up to the content of the caches. *)
Definition same_model (self self' : RoadTimeModel) : Prop :=
  G self' = G self ∧ G_u self' = G_u self ∧
  road_speed_multiplier self' = road_speed_multiplier self ∧
  road_detour_factor self' = road_detour_factor self ∧
  fallback_speed_kph self' = fallback_speed_kph self.

End TimeModel.
End TimeModel.

(** ** Notions the properties are stated with *)

(** The invariants of a tour over [n] points: it starts and ends at the
    depot, has [n + 1] stops, holds the depot at those two ends only and
    every pickup index exactly once. *)
Definition tour_ok (n : nat) (tour : list nat) : Prop :=
  head tour = Some 0 ∧ last tour = Some 0 ∧ length tour = n + 1 ∧
  count_occ Nat.eq_dec tour 0 = 2 ∧
  ∀ i, 1 ≤ i < n → count_occ Nat.eq_dec tour i = 1.

(** The frame handed to the KPI aggregator holds no event. *)
Definition no_events (events_df : option Metrics.DataFrame) : Prop :=
  match events_df with
  | None => True
  | Some df => Metrics.df_len df = 0
  end.

(** The [q]-th consecutive block of [cap] rows of [g]. *)
Definition block {A : Type} (g : list A) (cap q : nat) : list A :=
  take cap (drop (q * cap) g).

(** [ceil(k / c)] on naturals. *)
Definition ceil_div (k c : nat) : nat := (k + c - 1) / c.

(** [b'] is a rearrangement of [b] with the same first and last stop. *)
Definition keeps (b b' : list nat) : Prop :=
  b' ≡ₚ b ∧ head b' = head b ∧ last b' = last b.

(** Along the costs recorded after the passes, starting from [c0], every
    pass except the last lowers the cost by more than [eps]. *)
Fixpoint descending (c0 : Q) (costs : list Q) : Prop :=
  match costs with
  | [] => True
  | c :: rest =>
      match rest with
      | [] => True
      | _ :: _ => (c + eps < c0)%Q ∧ descending c rest
      end
  end.

(** No reversal that [Tsp._two_opt] tries lowers the cost of [route] by more
    than [eps]. *)
Definition tsp_locally_optimal (fsqrt : Q → Q) (dist_mat : option matrix)
    (points : list point) (route : list nat) : Prop :=
  ∀ i j, 1 ≤ i → i + 2 ≤ j → j + 2 ≤ length route →
    ¬ (Tsp._route_cost fsqrt (reverse_segment route i j) dist_mat points + eps
       < Tsp._route_cost fsqrt route dist_mat points)%Q.

(** No reversal that [RouteSolver._two_opt] tries lowers the cost of [route]
    by more than [eps]. *)
Definition solver_locally_optimal (dist_mat : matrix) (route : list nat) : Prop :=
  ∀ i k, 1 ≤ i → i < k → k + 3 ≤ length route →
    ¬ (RouteSolver._route_cost (reverse_segment route i (k + 1)) dist_mat + eps
       < RouteSolver._route_cost route dist_mat)%Q.

(** What a pass started on [best0] maintains, for a cost function [cost]:
    the state holds a rearrangement of [best0] with the same ends and its
    cost, and the flag tells whether the cost went down by more than
    [eps]. *)
Definition pass_inv (cost : list nat → Q) (best0 : list nat) (st : pass_state) : Prop :=
  keeps best0 st.1.1 ∧ st.1.2 = cost st.1.1 ∧
  if st.2 then (st.1.2 + eps < cost best0)%Q else st.1.1 = best0.

(** The rearrangements of [root] that cost less than [c]. *)
Definition cheaper (cost : list nat → Q) (root : list nat) (c : Q) : list (list nat) :=
  filter (λ p, (cost p < c)%Q) (permutations root).

(** A matrix of durations over a depot and eleven pickups (asymmetric, as
    road durations are) on which [tsp.py]'s 2-opt, started on the
    nearest-neighbour route, needs 33 passes. *)
Definition long_run_matrix : matrix :=
  of_rows
    [[0; 493; 232; 112; 812; 474; 936; 274; 215; 137; 118; 683];
     [773; 0; 43; 393; 292; 9; 690; 820; 786; 974; 27; 545];
     [976; 321; 0; 880; 549; 752; 330; 723; 483; 474; 960; 483];
     [399; 679; 600; 0; 111; 615; 989; 748; 260; 150; 278; 459];
     [964; 297; 700; 40; 0; 789; 175; 400; 750; 569; 205; 419];
     [234; 771; 704; 232; 765; 0; 188; 11; 692; 804; 451; 756];
     [848; 340; 737; 810; 199; 153; 0; 134; 498; 978; 148; 402];
     [206; 41; 868; 229; 217; 298; 159; 0; 899; 233; 245; 327];
     [34; 437; 814; 523; 404; 229; 202; 220; 0; 736; 47; 463];
     [358; 519; 876; 976; 409; 385; 380; 581; 973; 0; 879; 209];
     [924; 726; 373; 84; 288; 716; 190; 766; 568; 269; 0; 687];
     [770; 616; 995; 605; 532; 70; 182; 25; 778; 157; 361; 0]]%Q.

(** Its nearest-neighbour route. *)
Definition long_run_route : list nat := [0; 3; 4; 6; 7; 1; 5; 10; 9; 11; 8; 2; 0].

(** Twelve points for it; the method [time_nn] reads the matrix only. *)
Definition long_run_points : list point := replicate 12 (0, 0)%Q.

(** The total duration of a tour: the sum of the matrix entries of its
    consecutive legs. *)
Fixpoint tour_duration (dist_mat : matrix) (tour : list nat) : Q :=
  match tour with
  | [] => 0%Q
  | a :: rest =>
      match rest with
      | [] => 0%Q
      | b :: _ => (cell dist_mat a b + tour_duration dist_mat rest)%Q
      end
  end.

(** What [argsort] is documented to answer: a rearrangement of the positions
    of the keys along which the keys do not decrease. *)
Definition argsort_ok (argsort : list Q → list nat) : Prop :=
  ∀ keys, argsort keys ≡ₚ seq 0 (length keys) ∧
    StronglySorted (λ i j, nth i keys 0 <= nth j keys 0)%Q (argsort keys).

(** One such sort, which keeps equal keys in their order. *)
Definition pos_le (x y : Q * nat) : Prop := (x.1 <= y.1)%Q.

#[global] Instance pos_le_dec (x y : Q * nat) : Decision (pos_le x y).
Proof. unfold pos_le. apply _. Defined.

Definition stable_argsort (keys : list Q) : list nat :=
  snd <$> merge_sort pos_le (zip keys (seq 0 (length keys))).

(** ** Notions of the further properties *)

(** Along [p], started from [cur], every stop is a nearest one among the
    stops still to come, the lowest index among equally near ones. *)
Fixpoint greedy (key : nat → nat → Q) (cur : nat) (p : list nat) : Prop :=
  match p with
  | [] => True
  | x :: rest =>
      Forall (λ y, (key cur x < key cur y)%Q ∨ ((key cur x <= key cur y)%Q ∧ x < y)) rest ∧
      greedy key x rest
  end.

(** [s.split(sep)] for a one-character separator. *)
Fixpoint str_split (sep : ascii) (s : string) : list string :=
  match s with
  | EmptyString => [EmptyString]
  | String c s' =>
      if Ascii.eqb c sep then EmptyString :: str_split sep s'
      else
        match str_split sep s' with
        | [] => [String c EmptyString]
        | p :: ps => String c p :: ps
        end
  end.

(** ** pipeline.py: slot times, time matrices and the events of a vehicle *)
Module PipelineRun.

Section HhmmToMin.
(** [int(s)] on a string, [None] when it raises. *)
Variable py_int : string → option Z.

(** The double nearest to an integer that is not one itself. *)
Variable nearest_double : Z → Q.

(** [float(z)] on an integer: [z] itself up to [2^53] in magnitude, where
    every integer is a double; the nearest double beyond; and [None], for
    [OverflowError], from [2^1024 - 2^970] on, where the nearest double
    would be infinite. *)
Definition float_of_int (z : Z) : option Q :=
  if (Z.abs z <=? 2 ^ 53)%Z then Some (inject_Z z)
  else if (Z.abs z <? 2 ^ 1024 - 2 ^ 970)%Z then Some (nearest_double z)
  else None.

Definition _hhmm_to_min (hhmm : string) : result Q :=
  let invalid := Raise (ConfigError ("Invalid HH:MM format: " +:+ hhmm)) in
  match str_split ":" hhmm with
  | [h; m] =>
      match py_int h with
      | Some h =>
          match py_int m with
          | Some m =>
              match float_of_int (h * 60 + m) with
              | Some minutes => Ok minutes
              | None => invalid
              end
          | None => invalid
          end
      | None => invalid
      end
  | _ => invalid
  end.
End HhmmToMin.

Section BuildTimeMat.
(** The object passed as [time_model]: its state and its two queries, each
    of which answers a duration and leaves the object in a new state. *)
Context {M : Type}.
Variables sample_travel_min mean_travel_min : M → Q → Q → Q → Q → Q * M.

(** [mat[i, j] = t] on the rows of the array. *)
Definition set_cell (mat : list (list Q)) (i j : nat) (t : Q) : list (list Q) :=
  alter (λ row, <[j := t]> row) i mat.

(** Body of [for j in range(n)] on the pair [mat], [time_model]. *)
Definition cell_step (points : list point) (sample : bool) (i : nat)
    (st : list (list Q) * M) (j : nat) : list (list Q) * M :=
  if decide (i = j) then st
  else
    let '(a_lat, a_lon) := nth i points (0, 0)%Q in
    let '(b_lat, b_lon) := nth j points (0, 0)%Q in
    let '(t, time_model) :=
      (if sample then sample_travel_min else mean_travel_min)
        st.2 a_lat a_lon b_lat b_lon in
    (set_cell st.1 i j t, time_model).

(** Returns the rows of the array and the model after the queries. *)
Definition _build_time_mat (points : list point) (time_model : M) (sample : bool)
    : list (list Q) * M :=
  let n := length points in
  let mat := replicate n (replicate n 0%Q) in
  foldl (λ st i, foldl (cell_step points sample i) st (seq 0 n))
        (mat, time_model) (seq 0 n).
End BuildTimeMat.

(** The fields of an event of [run] that are computed from the route; the
    fields copied from the group of requests are left out. *)
Record Event : Type := {
  node_idx : nat;
  stop_seq : nat;
  pickup_lat : Q;
  pickup_lon : Q;
  pickup_promise_min : Q;
  pickup_actual_min : Q;
  center_promise_min : Q;
  center_actual_min : Q;
  ride_time_min : Q
}.

(** [{int(node): float(times[i]) for i, node in enumerate(route_points)}]:
    a later stop at the same node replaces the earlier entry. *)
Definition times_at (route_points : list nat) (times : list Q) : gmap nat Q :=
  foldl (λ d ix, <[ix.2 := nth ix.1 times 0%Q]> d) ∅
        (imap (λ i node, (i, node)) route_points).

(** The timelines and the events of one vehicle in [run], from
    [promise_times = ...] to the end of the loop over the stops. Every node
    of the route is a key of [promise_at] and [actual_at], and indexes a
    point and, when it is not the depot, a request of the vehicle. *)
Definition vehicle_events (points : list point) (route_points : list nat)
    (dist_mean dist_act : matrix) (center_promise_min : Q) : list Event :=
  let promise_times :=
    Pipeline._simulate_timeline route_points dist_mean None (Some center_promise_min) in
  let actual_times :=
    Pipeline._simulate_timeline route_points dist_act (Some (nth 0 promise_times 0%Q)) None in
  let promise_at := times_at route_points promise_times in
  let actual_at := times_at route_points actual_times in
  omap (λ sn : nat * nat,
          let '(stop_seq, node) := sn in
          if decide (node = 0) then None
          else
            let '(pickup_lat, pickup_lon) := nth node points (0, 0)%Q in
            Some {|
              node_idx := node;
              stop_seq := stop_seq;
              pickup_lat := pickup_lat;
              pickup_lon := pickup_lon;
              pickup_promise_min := default 0%Q (promise_at !! node);
              pickup_actual_min := default 0%Q (actual_at !! node);
              center_promise_min := List.last promise_times 0%Q;
              center_actual_min := List.last actual_times 0%Q;
              ride_time_min :=
                (List.last actual_times 0 - default 0 (actual_at !! node))%Q
            |})
       (imap (λ i node, (i, node)) route_points).

(** The [stop_type] that [run] gives the stop [i] of the route, at [node]. *)
Definition stop_type (route_points : list nat) (i node : nat) : string :=
  let is_first := bool_decide (i = 0) in
  let is_last := bool_decide (i = length route_points - 1) in
  if decide (node = 0)
  then (if is_first then "depot" else if is_last then "center" else "depot")
  else "pickup".

(** The [stop_type] column of the stops of one vehicle, in route order. *)
Definition stop_types (route_points : list nat) : list string :=
  imap (stop_type route_points) route_points.

End PipelineRun.

(** ** config.py *)
Module Config.

(** A value of a loaded configuration. A [dict] keeps its items in insertion
    order, each key once. A configuration is taken to be a tree: no [dict]
    object is reachable along two paths, so that a write through one path is
    not seen through another. *)
#[local] Unset Elimination Schemes.
Inductive value : Type :=
  | VNone
  | VBool (b : bool)
  | VInt (z : Z)
  | VFloat (q : Q)
  | VStr (s : string)
  | VList (l : list value)
  | VDict (items : list (string * value)).
#[local] Set Elimination Schemes.

Definition dict : Type := list (string * value).

(** [d.get(k)] *)
Fixpoint dict_get (k : string) (d : dict) : option value :=
  match d with
  | [] => None
  | (k', v) :: d' => if String.eqb k' k then Some v else dict_get k d'
  end.

(** [d[k] = v]: an existing key keeps its place, a new one goes last. *)
Fixpoint dict_set (k : string) (v : value) (d : dict) : dict :=
  match d with
  | [] => [(k, v)]
  | (k', v') :: d' =>
      if String.eqb k' k then (k, v) :: d' else (k', v') :: dict_set k v d'
  end.

(** [type(v).__name__] *)
Definition type_name (v : value) : string :=
  match v with
  | VNone => "NoneType"
  | VBool _ => "bool"
  | VInt _ => "int"
  | VFloat _ => "float"
  | VStr _ => "str"
  | VList _ => "list"
  | VDict _ => "dict"
  end.

(** The inner [rec(a, b)] of [merge_dicts], for [b] the items of the
    dictionary [vb]; it answers the content of [a] after the call. *)
Fixpoint rec (a : dict) (vb : value) {struct vb} : dict :=
  match vb with
  | VDict b =>
      (fix items (b : dict) (a : dict) {struct b} : dict :=
         match b with
         | [] => a
         | (k, v) :: b' =>
             items b'
               match v, dict_get k a with
               | VDict _, Some (VDict ak) => dict_set k (VDict (rec ak v)) a
               | _, _ => dict_set k v a
               end
         end) b a
  | _ => a
  end.

(** The body of the loop of [rec] on the item [kv] of [b]. *)
Definition rec_item (a : dict) (kv : string * value) : dict :=
  match kv.2, dict_get kv.1 a with
  | VDict _, Some (VDict ak) => dict_set kv.1 (VDict (rec ak kv.2)) a
  | _, _ => dict_set kv.1 kv.2 a
  end.

Definition merge_dicts (base override : dict) : dict :=
  let out := base in
  rec out (VDict override).

(** [for k in keys[:-1]: ...] followed by [cur[keys[-1]] = value], on the
    dictionary [cur]; it answers the content of [cur] after the call. *)
Fixpoint deep_set_loop (dotted_path : string) (cur : dict) (keys : list string)
    (last_key : string) (value : value) : result dict :=
  match keys with
  | [] => Ok (dict_set last_key value cur)
  | k :: keys' =>
      let descend (nxt : dict) :=
        match deep_set_loop dotted_path nxt keys' last_key value with
        | Ok nxt' => Ok (dict_set k (VDict nxt') cur)
        | Raise e => Raise e
        end in
      match dict_get k cur with
      | None | Some VNone => descend []
      | Some (VDict nxt) => descend nxt
      | Some nxt =>
          Raise (ConfigError
            ("Cannot deep-set '" +:+ dotted_path +:+ "': '" +:+ k
             +:+ "' is not a dict (got " +:+ type_name nxt +:+ ")"))
      end
  end.

Definition deep_set (cfg : dict) (dotted_path : string) (value : value) : result dict :=
  let keys := str_split "." dotted_path in
  deep_set_loop dotted_path cfg (removelast keys) (List.last keys "") value.

(** The value found by following [keys] through nested dictionaries. *)
Fixpoint deep_get (d : dict) (keys : list string) : option value :=
  match keys with
  | [] => None
  | k :: keys' =>
      match keys' with
      | [] => dict_get k d
      | _ :: _ =>
          match dict_get k d with
          | Some (VDict d') => deep_get d' keys'
          | _ => None
          end
      end
  end.

End Config.

(** A [for] loop whose body may raise: the first exception ends it. *)
Fixpoint for_each {S A : Type} (body : S → A → result S) (st : S) (l : list A)
    : result S :=
  match l with
  | [] => Ok st
  | x :: l' =>
      match body st x with
      | Ok st' => for_each body st' l'
      | Raise e => Raise e
      end
  end.

(** ** demand.py *)
Module Demand.

(** The entries of the [demand] section that the code reads; an absent key
    is [None], and a present one is what [int(...)] or [float(...)] makes of
    its value: the number, or the exception the conversion raises. *)
Record DemandSection : Type := {
  d_n_requests_per_timeslot : option (result Z);
  d_wheel_ratio : option (result Q);
  d_seed : option (result Z);
  d_radius_min_km : option (result Q);
  d_radius_max_km : option (result Q)
}.

Record DemandConfig : Type := {
  n_requests_per_timeslot : Z;
  wheel_ratio : Q;
  seed : Z;
  radius_min_km : Q;
  radius_max_km : Q
}.

(** A row of the centers frame and a generated request. *)
Record Center : Type := {
  SIGNGU_NM : string;
  FCLTY_NM : string;
  FCLTY_CRDNT_LA : Q;
  FCLTY_CRDNT_LO : Q
}.

Record Request : Type := {
  req_id : string;
  timeslot : string;
  gu : string;
  center_id : Z;
  center_name : string;
  center_lat : Q;
  center_lon : Q;
  pickup_lat : Q;
  pickup_lon : Q;
  drop_lat : Q;
  drop_lon : Q;
  bus_type : string
}.

Section Demand.

(** [numpy]'s generator: [np.random.default_rng(seed)], which raises on a
    seed it does not accept (a negative one), [rng.integers(low, high)],
    [rng.uniform(low, high)] and [rng.random()]. *)
Context {Generator : Type}.
Variable default_rng : Z → result Generator.
Variable integers : Generator → Z → Z → Z * Generator.
Variable uniform : Generator → Q → Q → Q * Generator.
Variable random : Generator → Q * Generator.

(** [np.cos], [np.sin], [np.deg2rad], [np.pi] and the text of a float in an
    f-string. *)
Variables cos sin deg2rad : Q → Q.
Variable pi : Q.
Variable repr_float : Q → string.

Definition _sample_point_near (lat lon rmin_km rmax_km : Q) (rng : Generator)
    : result (point * Generator) :=
  if decide ((rmin_km < 0)%Q ∨ (rmax_km <= 0)%Q ∨ (rmax_km < rmin_km)%Q)
  then Raise (ConfigError ("Invalid radius range: rmin_km=" +:+ repr_float rmin_km
                           +:+ ", rmax_km=" +:+ repr_float rmax_km))
  else
    let '(u, rng) := uniform rng rmin_km rmax_km in
    let r := (u / 111)%Q in
    let '(theta, rng) := uniform rng 0%Q (2 * pi)%Q in
    let dlat := (r * cos theta)%Q in
    let dlon := (r * sin theta / TimeModel.py_max (1 # 100000000) (cos (deg2rad lat)))%Q in
    Ok ((lat + dlat, lon + dlon)%Q, rng).

(** [DemandConfig.from_cfg], on [dcfg = cfg.get("demand")]; [None] stands
    for a value that is no dictionary. Only the [KeyError] of an absent key
    is turned into a configuration error; what a conversion raises goes
    through. *)
Definition from_cfg (dcfg : option DemandSection) (mode : string) : result DemandConfig :=
  match dcfg with
  | None => Raise (ConfigError "Missing 'demand' section in config")
  | Some dcfg =>
      let missing (key : string) : result DemandConfig :=
        Raise (ConfigError ("Missing demand config key: '" +:+ key +:+ "'")) in
      match d_n_requests_per_timeslot dcfg with
      | None => missing "n_requests_per_timeslot"
      | Some n_entry =>
      n ← n_entry;
      match d_wheel_ratio dcfg with
      | None => missing "wheel_ratio"
      | Some wheel_entry =>
      wheel_ratio ← wheel_entry;
      seed ← conv_or (d_seed dcfg) 42%Z;
      match d_radius_min_km dcfg with
      | None => missing "radius_min_km"
      | Some rmin_entry =>
      rmin ← rmin_entry;
      match d_radius_max_km dcfg with
      | None => missing "radius_max_km"
      | Some rmax_entry =>
      rmax ← rmax_entry;
          if (n <=? 0)%Z
          then Raise (ConfigError
                 ("n_requests_per_timeslot must be > 0 (got " +:+ pretty n +:+ ")"))
          else if decide ((0 <= wheel_ratio)%Q ∧ (wheel_ratio <= 1)%Q)
          then
            let mode_offset := if String.eqb mode "to_center" then 0%Z else 777%Z in
            Ok {| n_requests_per_timeslot := n;
                  wheel_ratio := wheel_ratio;
                  seed := (seed + mode_offset)%Z;
                  radius_min_km := rmin;
                  radius_max_km := rmax |}
          else Raise (ConfigError
                 ("wheel_ratio must be in [0,1] (got " +:+ repr_float wheel_ratio +:+ ")"))
      end end end end
  end.

(** Body of [for i in range(...)] of [build_requests] on the pair [reqs],
    [rng]; [c0] is the first row of the non-empty centers frame. *)
Definition request_step (centers_df : list Center) (c0 : Center) (dcfg : DemandConfig)
    (mode ts : string) (st : list Request * Generator) (i : nat)
    : result (list Request * Generator) :=
  let '(reqs, rng) := st in
  let '(cidx, rng) := integers rng 0%Z (Z.of_nat (length centers_df)) in
  let c := nth (Z.to_nat cidx) centers_df c0 in
  let center_lat := FCLTY_CRDNT_LA c in
  let center_lon := FCLTY_CRDNT_LO c in
  match _sample_point_near center_lat center_lon
          (radius_min_km dcfg) (radius_max_km dcfg) rng with
  | Raise e => Raise e
  | Ok ((home_lat, home_lon), rng) =>
      let '(x, rng) := random rng in
      let is_wc := bool_decide (x < wheel_ratio dcfg)%Q in
      let '(pickup, drop) :=
        if String.eqb mode "to_center"
        then ((home_lat, home_lon), (center_lat, center_lon))
        else ((center_lat, center_lon), (home_lat, home_lon)) in
      Ok (reqs ++ [{|
            req_id := mode +:+ "_" +:+ ts +:+ "_" +:+ pretty i;
            timeslot := ts;
            gu := SIGNGU_NM c;
            center_id := cidx;
            center_name := FCLTY_NM c;
            center_lat := center_lat;
            center_lon := center_lon;
            pickup_lat := pickup.1;
            pickup_lon := pickup.2;
            drop_lat := drop.1;
            drop_lon := drop.2;
            bus_type := if is_wc then "WC" else "GEN"
          |}], rng)
  end.

(** The frame is the list of its rows; [dcfg] is [cfg.get("demand")]. *)
Definition build_requests (centers_df : list Center) (timeslots : list string)
    (dcfg : option DemandSection) (mode : string) : result (list Request) :=
  if negb (String.eqb mode "to_center" || String.eqb mode "from_center")
  then Raise (ConfigError ("Invalid mode: " +:+ mode))
  else
    match centers_df with
    | [] => Ok []
    | c0 :: _ =>
        dcfg ← from_cfg dcfg mode;
        rng ← default_rng (seed dcfg);
        st ← for_each
               (λ st ts,
                  for_each (request_step centers_df c0 dcfg mode ts) st
                           (seq 0 (Z.to_nat (n_requests_per_timeslot dcfg))))
               ([], rng) timeslots;
        Ok st.1
    end.

End Demand.
End Demand.

(** * Properties *)

(** ** The scenarios of the specification, run on the embedding *)

(** Depot and three pickups, nearest neighbour by point distance (the
    squared distance orders the candidates as the distance does). *)
Example scenario_nearest_neighbour :
  Tsp.solve_tsp (λ x, x) 0
    [(75 # 2, 127); (3751 # 100, 127); (3749 # 100, 127); (75 # 2, 12701 # 100)]%Q
    None "euclid_nn" false
  = Some (Ok [0; 1; 3; 2; 0]).
Proof. vm_compute. reflexivity. Qed.

(** A lateness of exactly the threshold counts as on time. *)
Example scenario_threshold_inclusive :
  let events := Metrics.Build_DataFrame 1
    [("pickup_promise_min", [500]); ("pickup_actual_min", [510]);
     ("center_promise_min", [540]); ("center_actual_min", [551]);
     ("ride_time_min", [41])]%Q in
  let cfg := Build_Cfg None SimAbsent (Some (Build_KpiCfg (Some (Ok 10%Q)))) in
  ∃ k, Metrics.compute_kpis (Some events) cfg = Ok k ∧
       Metrics.pickup_on_time_rate k = 1%Q ∧ Metrics.center_on_time_rate k = 0%Q ∧
       (Metrics.pickup_late_p95 k == 10)%Q.
Proof. eexists. split; [vm_compute; reflexivity |]. by split_and!. Qed.

(** A promised timeline anchored at 09:00 and the actual one started with
    it. *)
Example scenario_timelines :
  let mean := of_rows [[0; 5; 7]; [5; 0; 4]; [7; 4; 0]]%Q in
  let actual := of_rows [[0; 6; 7]; [5; 0; 3]; [9; 4; 0]]%Q in
  let promised := Pipeline._simulate_timeline [0; 1; 2; 0] mean None (Some 540%Q) in
  promised = [540 - (0 + 5 + 4 + 7); 540 - (0 + 5 + 4 + 7) + 5;
              540 - (0 + 5 + 4 + 7) + 5 + 4; 540 - (0 + 5 + 4 + 7) + 5 + 4 + 7]%Q ∧
  Pipeline._simulate_timeline [0; 1; 2; 0] actual (head promised) None
  = [540 - (0 + 5 + 4 + 7); 540 - (0 + 5 + 4 + 7) + 6;
     540 - (0 + 5 + 4 + 7) + 6 + 3; 540 - (0 + 5 + 4 + 7) + 6 + 3 + 9]%Q.
Proof. split; reflexivity. Qed.

(** ** Sums and scans over rationals *)

Lemma foldl_Qplus_shift (a : Q) (l : list Q) :
  (foldl Qplus a l == a + foldl Qplus 0 l)%Q.
Proof.
  revert a. induction l as [| x l IH]; intros a; cbn [foldl].
  - lra.
  - rewrite (IH (a + x)%Q), (IH (0 + x)%Q). lra.
Qed.

Section Timeline.
Import Pipeline.

Lemma scan_last (seg : list Q) (t : Q) (times : list Q) :
  last times = Some t →
  let st := foldl timeline_step (t, times) seg in
  last st.2 = Some st.1 ∧ head st.2 = head times ∧ (st.1 == t + foldl Qplus 0 seg)%Q.
Proof.
  revert t times. induction seg as [| s seg IH]; intros t times Hlast; cbn [foldl].
  - cbn. split_and!; [done | done | lra].
  - destruct (IH (t + s)%Q (times ++ [(t + s)%Q])) as (H1 & H2 & H3).
    { apply last_snoc. }
    cbn zeta in *.
    change (timeline_step (t, times) s) with ((t + s)%Q, times ++ [(t + s)%Q]).
    split_and!; [exact H1 | |].
    + rewrite H2. destruct times; [done | reflexivity].
    + rewrite H3, (foldl_Qplus_shift (0 + s)). lra.
Qed.

Lemma sum_app (l1 l2 : list Q) :
  (foldl Qplus 0 (l1 ++ l2) == foldl Qplus 0 l1 + foldl Qplus 0 l2)%Q.
Proof. rewrite foldl_app, foldl_Qplus_shift. reflexivity. Qed.


Lemma timeline_scan (seg : list Q) (t : Q) (times : list Q) :
  let st := foldl timeline_step (t, times) seg in
  ∃ rest, st.2 = times ++ rest ∧ length rest = length seg ∧
    ∀ i, i < length seg →
      ∃ x, rest !! i = Some x ∧ (x == t + foldl Qplus 0 (take (S i) seg))%Q.
Proof.
  revert t times. induction seg as [| s seg IH]; intros t times; cbn [foldl].
  - exists []. cbn. split_and!; [by rewrite app_nil_r | done | intros; lia].
  - change (timeline_step (t, times) s) with ((t + s)%Q, times ++ [(t + s)%Q]).
    destruct (IH (t + s)%Q (times ++ [(t + s)%Q])) as (rest & Heq & Hlen & Hnth).
    cbn zeta in Heq. exists ((t + s)%Q :: rest). split_and!.
    + by rewrite Heq, <- app_assoc.
    + cbn. by rewrite Hlen.
    + intros [| i] Hi.
      * exists (t + s)%Q. split; [done |]. cbn. rewrite take_0. cbn. lra.
      * destruct (Hnth i) as (x & Hx & Hval); [cbn in Hi; lia |].
        exists x. split; [done |]. rewrite Hval.
        cbn [take foldl]. rewrite (foldl_Qplus_shift (0 + s)). lra.
Qed.

(** The start time [_simulate_timeline] settles on. *)
Lemma timeline_values (route_points : list nat) (dist_mat : matrix)
    (start_min end_at : option Q) :
  let seg := segments route_points dist_mat in
  let start :=
    match start_min, end_at with
    | Some s, _ => s
    | None, Some e => (e - foldl Qplus 0 seg)%Q
    | None, None => 0%Q
    end in
  let timeline := _simulate_timeline route_points dist_mat start_min end_at in
  length timeline = S (length seg) ∧ head timeline = Some start ∧
  ∀ i, i ≤ length seg →
    ∃ x, timeline !! i = Some x ∧ (x == start + foldl Qplus 0 (take i seg))%Q.
Proof.
  intros seg start timeline.
  assert (Htl : timeline = (foldl timeline_step (start, [start]) seg).2).
  { unfold timeline, _simulate_timeline, start. fold seg.
    by destruct start_min, end_at. }
  destruct (timeline_scan seg start [start]) as (rest & Heq & Hlen & Hnth).
  cbn zeta in Heq. rewrite Htl, Heq. split_and!.
  - cbn. by rewrite Hlen.
  - done.
  - intros [| i] Hi.
    + exists start. split; [done |]. rewrite take_0. cbn. lra.
    + destruct (Hnth i) as (x & Hx & Hval); [lia |]. by exists x.
Qed.

Lemma length_segments (route_points : list nat) (dist_mat : matrix) :
  length (segments route_points dist_mat) = length route_points - 1.
Proof.
  unfold segments. rewrite length_fmap, length_zip_with.
  destruct route_points as [| x l]; [done |].
  rewrite removelast_firstn_len, length_take. cbn [length tail]. lia.
Qed.

Lemma segments_cons (a b : nat) (rest : list nat) (dist_mat : matrix) :
  segments (a :: b :: rest) dist_mat = cell dist_mat a b :: segments (b :: rest) dist_mat.
Proof. reflexivity. Qed.

Lemma segments_tour_duration (route_points : list nat) (dist_mat : matrix) :
  (foldl Qplus 0 (segments route_points dist_mat) == tour_duration dist_mat route_points)%Q.
Proof.
  induction route_points as [| a [| b rest] IH]; [done | done |].
  rewrite segments_cons. cbn [foldl]. rewrite foldl_Qplus_shift, IH.
  cbn [tour_duration]. lra.
Qed.

Lemma segments_drop (i : nat) (route_points : list nat) (dist_mat : matrix) :
  drop i (segments route_points dist_mat) = segments (drop i route_points) dist_mat.
Proof.
  revert route_points. induction i as [| i IH]; intros route_points; [done |].
  destruct route_points as [| a [| b rest]]; [done | by destruct i |].
  rewrite segments_cons. cbn [drop]. apply IH.
Qed.

(** C3: anchored at an end time [E] and no start time, the timeline starts at
    [E] minus the total duration of the tour, which is the sum of the matrix
    entries of the consecutive legs of the tour, and ends at [E]; the value
    at every stop is [E] minus the duration of the rest of the tour;
    anchoring the same tour and matrix at that first value as start time
    gives the same timeline again. The sums are those of exact arithmetic. *)
Theorem simulate_timeline_end_anchor (route_points : list nat) (dist_mat : matrix) (E : Q) :
  let timeline := _simulate_timeline route_points dist_mat None (Some E) in
  head timeline = Some (E - total_duration route_points dist_mat)%Q ∧
  (total_duration route_points dist_mat == tour_duration dist_mat route_points)%Q ∧
  (∃ t_end, last timeline = Some t_end ∧ (t_end == E)%Q) ∧
  (∀ i t, timeline !! i = Some t →
          (t == E - tour_duration dist_mat (drop i route_points))%Q) ∧
  _simulate_timeline route_points dist_mat (head timeline) None = timeline.
Proof.
  intros timeline.
  destruct (timeline_values route_points dist_mat None (Some E)) as (Hlen & Hhead & Hnth).
  fold timeline in Hlen, Hhead, Hnth. cbn zeta in Hnth.
  set (seg := segments route_points dist_mat) in *.
  split_and!.
  - exact Hhead.
  - apply segments_tour_duration.
  - destruct (Hnth (length seg) ltac:(lia)) as (t_end & Ht & Hval).
    exists t_end. split.
    + rewrite last_lookup, Hlen. exact Ht.
    + rewrite Hval, firstn_all. lra.
  - intros i t Hi. apply lookup_lt_Some in Hi as Hlt.
    destruct (Hnth i ltac:(lia)) as (t' & Ht' & Hval).
    assert (t' = t) as -> by congruence.
    pose proof (sum_app (take i seg) (drop i seg)) as Hsum. rewrite take_drop in Hsum.
    rewrite Hval, <- segments_tour_duration, <- segments_drop. fold seg. lra.
  - rewrite Hhead. unfold timeline, _simulate_timeline, total_duration. reflexivity.
Qed.

End Timeline.

(** ** KPI aggregation *)

(** C5: on an empty event set every lateness statistic is [0] and both
    on-time rates are [1]. *)
Theorem compute_kpis_empty (events_df : option Metrics.DataFrame) (cfg : Cfg) :
  no_events events_df →
  ∃ k, Metrics.compute_kpis events_df cfg = Ok k ∧
    Metrics.pickup_late_mean k = 0%Q ∧ Metrics.pickup_late_p95 k = 0%Q ∧
    Metrics.pickup_late_max k = 0%Q ∧
    Metrics.center_late_mean k = 0%Q ∧ Metrics.center_late_p95 k = 0%Q ∧
    Metrics.center_late_max k = 0%Q ∧
    Metrics.pickup_on_time_rate k = 1%Q ∧ Metrics.center_on_time_rate k = 1%Q.
Proof.
  intros Hempty. unfold Metrics.compute_kpis.
  destruct events_df as [df |]; simpl in Hempty.
  - rewrite Hempty. simpl. eexists. split; [reflexivity |]. simpl. tauto.
  - eexists. split; [reflexivity |]. simpl. tauto.
Qed.

Lemma compute_kpis_empty_witness :
  ∃ k, Metrics.compute_kpis (Some (Metrics.Build_DataFrame 0 [])) (Build_Cfg None SimAbsent None) = Ok k ∧
    Metrics.pickup_late_mean k = 0%Q ∧ Metrics.pickup_late_p95 k = 0%Q ∧
    Metrics.pickup_late_max k = 0%Q ∧
    Metrics.center_late_mean k = 0%Q ∧ Metrics.center_late_p95 k = 0%Q ∧
    Metrics.center_late_max k = 0%Q ∧
    Metrics.pickup_on_time_rate k = 1%Q ∧ Metrics.center_on_time_rate k = 1%Q.
Proof.
  apply (compute_kpis_empty (Some (Metrics.Build_DataFrame 0 [])) (Build_Cfg None SimAbsent None)).
  reflexivity.
Defined.

(** ** Travel-time models *)

Section TimeModelProps.
Import TimeModel.

Variables radians sin cos asin sqrt : Q → Q.
Context {Generator : Type}.
Variable lognormal : Generator → Q → Q → Q * Generator.
Context {Graph : Type}.
Variable shortest_path_length : Graph → nat → nat → option Q.
Variable nearest_nodes : Graph → Q → Q → nat.

Abbreviation road_model := (@RoadTimeModel Graph).
Abbreviation mean_min := (road_mean_travel_min radians sin cos asin sqrt
                        shortest_path_length nearest_nodes).
Abbreviation body_node := (nearest_node_body nearest_nodes).
Abbreviation body_od := (od_time_body shortest_path_length).
Abbreviation ok := (caches_ok shortest_path_length nearest_nodes).

Lemma same_model_refl (self : road_model) : same_model self self.
Proof. by repeat split. Qed.

Lemma same_model_trans (a b c : road_model) :
  same_model a b → same_model b c → same_model a c.
Proof.
  unfold same_model. intros (?&?&?&?&?) (?&?&?&?&?).
  split_and!; congruence.
Qed.

Lemma same_model_bodies (self self' : road_model) :
  same_model self self' →
  (∀ x y, body_node self' x y = body_node self x y) ∧
  (∀ u v, body_od self' u v = body_od self u v).
Proof.
  intros (HG & HGu & _). split; intros.
  - unfold nearest_node_body. by rewrite HG.
  - unfold od_time_body. by rewrite HG, HGu.
Qed.

Lemma nearest_node_hit (self : road_model) (lat_r lon_r : Z) :
  ok self →
  let r := _nearest_node nearest_nodes self lat_r lon_r in
  r.1 = body_node self lat_r lon_r ∧ same_model self r.2 ∧ ok r.2.
Proof.
  intros [Hn Ho]. unfold _nearest_node.
  destruct (nearest_cache self !! (lat_r, lon_r)) as [n |] eqn:Hc; cbn.
  - split_and!; [by apply Hn | apply same_model_refl | by split].
  - split_and!; [done | by repeat split |]. split.
    + intros x y n. cbn. destruct (decide ((x, y) = (lat_r, lon_r))) as [[= -> ->] | Hne].
      * rewrite lookup_insert_eq. by intros [= <-].
      * rewrite lookup_insert_ne by done. apply Hn.
    + intros u v t. cbn. apply Ho.
Qed.

Lemma od_time_hit (self : road_model) (u v : nat) :
  ok self →
  let r := _od_time_min shortest_path_length self u v in
  r.1 = body_od self u v ∧ same_model self r.2 ∧ ok r.2.
Proof.
  intros [Hn Ho]. unfold _od_time_min.
  destruct (od_cache self !! (u, v)) as [t |] eqn:Hc; cbn.
  - split_and!; [by apply Ho | apply same_model_refl | by split].
  - split_and!; [done | by repeat split |]. split.
    + intros x y n. cbn. apply Hn.
    + intros x y t. cbn. destruct (decide ((x, y) = (u, v))) as [[= -> ->] | Hne].
      * rewrite lookup_insert_eq. by intros [= <-].
      * rewrite lookup_insert_ne by done. apply Ho.
Qed.

(** What a query answers, by the outcome of the two searches. *)
Lemma road_mean_travel_min_cases (self : road_model) (a_lat a_lon b_lat b_lon : Q) :
  ok self →
  let u := node_of nearest_nodes self a_lat a_lon in
  let v := node_of nearest_nodes self b_lat b_lon in
  let r := mean_min self a_lat a_lon b_lat b_lon in
  r.1 = (if u =? v then (1 # 10)%Q
         else match body_od self u v with
              | Finite q => q
              | NaN => geometric_fallback radians sin cos asin sqrt self a_lat a_lon b_lat b_lon
              end) ∧
  same_model self r.2 ∧ ok r.2.
Proof.
  intros Hok. cbn zeta. unfold road_mean_travel_min, _node, node_of.
  pose proof (nearest_node_hit self (py_round (a_lat * 100000)) (py_round (a_lon * 100000)) Hok)
    as (Hu & Hs1 & Hok1).
  destruct (_nearest_node nearest_nodes self _ _) as [u s1]. cbn in Hu, Hs1, Hok1. subst u.
  pose proof (nearest_node_hit s1 (py_round (b_lat * 100000)) (py_round (b_lon * 100000)) Hok1)
    as (Hv & Hs2 & Hok2).
  destruct (_nearest_node nearest_nodes s1 _ _) as [v s2]. cbn in Hv, Hs2, Hok2. subst v.
  destruct (same_model_bodies _ _ Hs1) as [Hb1 _]. rewrite Hb1.
  set (u := body_node self _ _). set (v := body_node self _ _).
  pose proof (same_model_trans _ _ _ Hs1 Hs2) as Hs12.
  destruct (u =? v); cbn; [done |].
  pose proof (od_time_hit s2 u v Hok2) as (Ht & Hs3 & Hok3).
  destruct (_od_time_min shortest_path_length s2 u v) as [t s3]. cbn in Ht, Hs3, Hok3. subst t.
  destruct (same_model_bodies _ _ Hs12) as [_ Hb2]. rewrite Hb2.
  pose proof (same_model_trans _ _ _ Hs12 Hs3) as Hs123.
  destruct (body_od self u v) as [q |]; cbn; split_and!; try done.
  unfold geometric_fallback. destruct Hs123 as (_ & _ & -> & -> & ->).
  destruct (py_max _ _); cbn; reflexivity.
Qed.

(** C9: between two distinct resolved nodes the answer is the directed
    shortest-path duration when the directed search succeeds, the undirected
    one when only the undirected search succeeds, and the haversine estimate
    when both fail; the query is a total function and leaves the caches
    consistent. *)
Theorem road_fallback_chain (self : road_model) (a_lat a_lon b_lat b_lon : Q) :
  ok self →
  let u := node_of nearest_nodes self a_lat a_lon in
  let v := node_of nearest_nodes self b_lat b_lon in
  u ≠ v →
  let r := mean_min self a_lat a_lon b_lat b_lon in
  (∀ sec, shortest_path_length (G self) u v = None →
          shortest_path_length (G_u self) u v = Some sec → r.1 = (sec / 60)%Q) ∧
  (∀ sec, shortest_path_length (G self) u v = Some sec → r.1 = (sec / 60)%Q) ∧
  (shortest_path_length (G self) u v = None →
   shortest_path_length (G_u self) u v = None →
   r.1 = geometric_fallback radians sin cos asin sqrt self a_lat a_lon b_lat b_lon) ∧
  same_model self r.2 ∧ ok r.2.
Proof.
  intros Hok u v Hne r.
  destruct (road_mean_travel_min_cases self a_lat a_lon b_lat b_lon Hok) as (Hr & Hs & Hok').
  fold u v r in Hr, Hs, Hok'.
  apply Nat.eqb_neq in Hne. rewrite Hne in Hr. unfold od_time_body in Hr.
  split_and!; try done.
  - intros sec Hd Hu. by rewrite Hd, Hu in Hr.
  - intros sec Hd. by rewrite Hd in Hr.
  - intros Hd Hu. by rewrite Hd, Hu in Hr.
Qed.

(** C6: with [noise_sigma = 0] a sample is the mean, and the generator is
    left untouched. *)
Theorem euclid_sample_is_mean (self : @EuclidTimeModel Generator) (a_lat a_lon b_lat b_lon : Q) :
  (noise_sigma self == 0)%Q →
  euclid_sample_travel_min radians sin cos asin sqrt lognormal self a_lat a_lon b_lat b_lon
  = (euclid_mean_travel_min radians sin cos asin sqrt self a_lat a_lon b_lat b_lon, self).
Proof.
  intros Hsigma. unfold euclid_sample_travel_min.
  destruct (Qlt_le_dec 0 (noise_sigma self)) as [Hpos | _]; [| reflexivity].
  rewrite Hsigma in Hpos. by apply Qlt_irrefl in Hpos.
Qed.

End TimeModelProps.

Lemma road_fallback_chain_witness :
  let spl := λ (g : bool) (_ _ : nat), if g then None else Some 120%Q in
  let nn := λ (_ : bool) (x _ : Q), Z.to_nat (Qfloor x) in
  let self := TimeModel.Build_RoadTimeModel true false 1%Q 1%Q 25%Q ∅ ∅ in
  TimeModel.caches_ok spl nn self ∧
  TimeModel.node_of nn self 0%Q 1%Q ≠ TimeModel.node_of nn self 0%Q 2%Q ∧
  (TimeModel.road_mean_travel_min (λ x, x) (λ x, x) (λ x, x) (λ x, x) (λ x, x)
     spl nn self 0%Q 1%Q 0%Q 2%Q).1 = (120 / 60)%Q.
Proof.
  intros spl nn self.
  assert (Hok : TimeModel.caches_ok spl nn self).
  { split; intros ? ? ?; cbn; rewrite lookup_empty; discriminate. }
  assert (Hne : TimeModel.node_of nn self 0%Q 1%Q ≠ TimeModel.node_of nn self 0%Q 2%Q).
  { vm_compute. lia. }
  split_and!; [exact Hok | exact Hne |].
  destruct (road_fallback_chain (λ x, x) (λ x, x) (λ x, x) (λ x, x) (λ x, x)
              spl nn self 0%Q 1%Q 0%Q 2%Q Hok Hne) as (Hundirected & _).
  apply Hundirected; reflexivity.
Defined.

Lemma euclid_sample_is_mean_witness :
  let self := TimeModel.Build_EuclidTimeModel 18%Q 1%Q (5 # 4)%Q 0%Q 123%Z tt in
  (TimeModel.noise_sigma self == 0)%Q ∧
  TimeModel.euclid_sample_travel_min (λ x, x) (λ x, x) (λ x, x) (λ x, x) (λ x, x)
    (λ g _ _, (2%Q, g)) self (3 # 1)%Q 1%Q 2%Q 5%Q
  = (TimeModel.euclid_mean_travel_min (λ x, x) (λ x, x) (λ x, x) (λ x, x) (λ x, x)
       self (3 # 1)%Q 1%Q 2%Q 5%Q, self).
Proof.
  intros self. split; [reflexivity |].
  apply (euclid_sample_is_mean (λ x, x) (λ x, x) (λ x, x) (λ x, x) (λ x, x)
           (λ g _ _, (2%Q, g)) self). reflexivity.
Defined.

(** ** Strategy selectors *)

(** C7, as the code has it. Given at least two points, the sequencer of
    [tsp.py] rejects an unknown method by name. The sequencer of
    [route_solver.py] rejects no improvement method: an unknown one returns
    the nearest-neighbour route. The model factory rejects no kind: every
    kind other than [road] takes the geometric branch, which builds the model
    from the five entries it reads, with [18], [1], [1.25], [0.25] and [123]
    for the absent ones; it fails only where the conversion of one of these
    entries or the generator on the seed fails, and then with that
    exception, and it never builds the road model. *)
Theorem unknown_selectors (fsqrt : Q → Q) (fuel : nat) (points : list point)
    (dist_mat : option matrix) (method : string) (improve_2opt : bool)
    {rng : Type} (Random : Z → rng) (randrange : rng → nat → nat → nat * rng)
    (dm : matrix) (improve_method : string) (tsp_seed : Z) (tabu_iters : nat)
    (Generator Graph : Type) (default_rng : Z → result Generator)
    (RoadTimeModel_init : string → Q → Cfg → Z → result (@TimeModel.RoadTimeModel Graph))
    (cfg : Cfg) :
  2 ≤ length points →
  method ≠ "euclid_nn" → method ≠ "time_nn" →
  improve_method ≠ "none" → improve_method ≠ "two_opt" → improve_method ≠ "tabu" →
  TimeModel.time_model_kind cfg ≠ "road" →
  let tm := get_or (cfg_time_model cfg) empty_tm in
  let sim := sim_mapping cfg in
  let build := TimeModel.build_time_model default_rng RoadTimeModel_init in
  Tsp.solve_tsp fsqrt fuel points dist_mat method improve_2opt
    = Some (Raise (ValueError ("Unknown routing method: " +:+ method))) ∧
  RouteSolver.solve_tsp Random randrange points dm (Some improve_method) tsp_seed tabu_iters
    = RouteSolver._nearest_neighbor dm ∧
  (∀ speed mult detour sigma seed g,
     conv_or (tm_default_speed_kmh tm) 18%Q = Ok speed →
     conv_or (tm_speed_multiplier tm) 1%Q = Ok mult →
     conv_or (sim_detour_factor sim) (5 # 4)%Q = Ok detour →
     conv_or (sim_travel_time_noise_sigma sim) (1 # 4)%Q = Ok sigma →
     conv_or (sim_seed sim) 123%Z = Ok seed →
     default_rng seed = Ok g →
     build cfg = Ok (TimeModel.Euclid
                       (TimeModel.Build_EuclidTimeModel speed mult detour sigma seed g))) ∧
  (∀ e, build cfg = Raise e →
     conv_or (tm_default_speed_kmh tm) 18%Q = Raise e ∨
     conv_or (tm_speed_multiplier tm) 1%Q = Raise e ∨
     conv_or (sim_detour_factor sim) (5 # 4)%Q = Raise e ∨
     conv_or (sim_travel_time_noise_sigma sim) (1 # 4)%Q = Raise e ∨
     conv_or (sim_seed sim) 123%Z = Raise e ∨
     ∃ seed, conv_or (sim_seed sim) 123%Z = Ok seed ∧ default_rng seed = Raise e) ∧
  (∀ m, build cfg ≠ Ok (TimeModel.Road m)).
Proof.
  intros Hn He Ht Hnone Htwo Htabu Hk tm sim build.
  assert (Hbuild : build cfg =
    (speed ← conv_or (tm_default_speed_kmh tm) 18%Q;
     mult ← conv_or (tm_speed_multiplier tm) 1%Q;
     detour ← conv_or (sim_detour_factor sim) (5 # 4)%Q;
     sigma ← conv_or (sim_travel_time_noise_sigma sim) (1 # 4)%Q;
     seed ← conv_or (sim_seed sim) 123%Z;
     g ← default_rng seed;
     Ok (TimeModel.Euclid
           (TimeModel.Build_EuclidTimeModel speed mult detour sigma seed g)))).
  { unfold build, TimeModel.build_time_model, TimeModel.EuclidTimeModel_new.
    apply String.eqb_neq in Hk. rewrite Hk. fold tm. fold sim.
    destruct (conv_or (tm_default_speed_kmh tm) 18%Q); [| done].
    destruct (conv_or (tm_speed_multiplier tm) 1%Q); [| done].
    destruct (conv_or (sim_detour_factor sim) (5 # 4)%Q); [| done].
    destruct (conv_or (sim_travel_time_noise_sigma sim) (1 # 4)%Q); [| done].
    destruct (conv_or (sim_seed sim) 123%Z) as [seed |]; [| done].
    cbn. by destruct (default_rng seed). }
  split_and!.
  - unfold Tsp.solve_tsp.
    destruct (length points =? 0) eqn:H0; [apply Nat.eqb_eq in H0; lia |].
    destruct (length points =? 1) eqn:H1; [apply Nat.eqb_eq in H1; lia |].
    apply String.eqb_neq in He, Ht. rewrite He, Ht. reflexivity.
  - unfold RouteSolver.solve_tsp.
    destruct (length points <=? 1) eqn:H1; [apply Nat.leb_le in H1; lia |].
    apply String.eqb_neq in Hnone, Htwo, Htabu. by rewrite Hnone, Htwo, Htabu.
  - intros speed mult detour sigma seed g H1 H2 H3 H4 H5 H6.
    rewrite Hbuild, H1, H2, H3, H4, H5. cbn. by rewrite H6.
  - intros e. rewrite Hbuild.
    destruct (conv_or (tm_default_speed_kmh tm) 18%Q); [| intros [= ->]; tauto].
    destruct (conv_or (tm_speed_multiplier tm) 1%Q); [| intros [= ->]; tauto].
    destruct (conv_or (sim_detour_factor sim) (5 # 4)%Q); [| intros [= ->]; tauto].
    destruct (conv_or (sim_travel_time_noise_sigma sim) (1 # 4)%Q); [| intros [= ->]; tauto].
    destruct (conv_or (sim_seed sim) 123%Z) as [seed |]; [| intros [= ->]; tauto].
    cbn. destruct (default_rng seed) as [g |] eqn:Hg; [done |].
    intros [= ->]. do 5 right. by exists seed.
  - intros m. rewrite Hbuild.
    destruct (conv_or (tm_default_speed_kmh tm) 18%Q); [| done].
    destruct (conv_or (tm_speed_multiplier tm) 1%Q); [| done].
    destruct (conv_or (sim_detour_factor sim) (5 # 4)%Q); [| done].
    destruct (conv_or (sim_travel_time_noise_sigma sim) (1 # 4)%Q); [| done].
    destruct (conv_or (sim_seed sim) 123%Z) as [seed |]; [| done].
    cbn. by destruct (default_rng seed).
Qed.

Lemma unknown_selectors_witness :
  let points := [(0, 0); (1, 0); (0, 1)]%Q in
  let dm := of_rows [[0; 5; 9]; [7; 0; 4]; [6; 3; 0]]%Q in
  let cfg := Build_Cfg (Some (Build_TimeModelCfg (Some "OSRM") None (Some (Ok 2%Q)) None))
               SimAbsent None in
  let default_rng := λ seed : Z,
    if (seed <? 0)%Z then Raise (ValueError "expected non-negative integer") else Ok tt in
  2 ≤ length points ∧ "genetic" ≠ "euclid_nn" ∧ "genetic" ≠ "time_nn" ∧
  "genetic" ≠ "none" ∧ "genetic" ≠ "two_opt" ∧ "genetic" ≠ "tabu" ∧
  TimeModel.time_model_kind cfg ≠ "road" ∧
  Tsp.solve_tsp (λ x, x) 0 points None "genetic" true
    = Some (Raise (ValueError "Unknown routing method: genetic")) ∧
  RouteSolver.solve_tsp Z.to_nat (λ g _ _, (1, g)) points dm (Some "genetic") 0%Z 200
    = RouteSolver._nearest_neighbor dm ∧
  TimeModel.build_time_model default_rng
    (λ _ _ _ _, Raise (RuntimeError "RoadTimeModel requires osmnx + networkx.")
       : result (@TimeModel.RoadTimeModel unit)) cfg
  = Ok (TimeModel.Euclid
          (TimeModel.Build_EuclidTimeModel 18%Q 2%Q (5 # 4)%Q (1 # 4)%Q 123%Z tt)).
Proof.
  intros points dm cfg default_rng.
  assert (H1 : 2 ≤ length points) by (cbn; lia).
  assert (H2 : "genetic" ≠ "euclid_nn") by discriminate.
  assert (H3 : "genetic" ≠ "time_nn") by discriminate.
  assert (H4 : "genetic" ≠ "none") by discriminate.
  assert (H5 : "genetic" ≠ "two_opt") by discriminate.
  assert (H6 : "genetic" ≠ "tabu") by discriminate.
  assert (H7 : TimeModel.time_model_kind cfg ≠ "road") by (vm_compute; discriminate).
  destruct (unknown_selectors (λ x, x) 0 points None "genetic" true Z.to_nat
              (λ g _ _, (1, g)) dm "genetic" 0%Z 200 unit unit default_rng
              (λ _ _ _ _, Raise (RuntimeError "RoadTimeModel requires osmnx + networkx."))
              cfg H1 H2 H3 H4 H5 H6 H7) as (Htsp & Hsolver & Hbuild & _).
  split_and!; [exact H1 | exact H2 | exact H3 | exact H4 | exact H5 | exact H6 | exact H7
              | exact Htsp | exact Hsolver | apply Hbuild; reflexivity].
Defined.

(** C7, as stated, fails: the kind [osrm] is not rejected, it builds the
    geometric model with the default parameters; and the improvement method
    [genetic] is not rejected by [route_solver.py], which returns the
    nearest-neighbour route. *)
Lemma unknown_kind_builds_euclid :
  let cfg := Build_Cfg (Some (Build_TimeModelCfg (Some "osrm") None None None))
               SimAbsent None in
  let default_rng := λ seed : Z,
    if (seed <? 0)%Z then Raise (ValueError "expected non-negative integer") else Ok tt in
  let build := TimeModel.build_time_model default_rng
         (λ _ _ _ _, Raise (RuntimeError "RoadTimeModel requires osmnx + networkx.")
            : result (@TimeModel.RoadTimeModel unit)) in
  let points := [(0, 0); (1, 0); (0, 1)]%Q in
  let dm := of_rows [[0; 5; 9]; [7; 0; 4]; [6; 3; 0]]%Q in
  build cfg = Ok (TimeModel.Euclid
                    (TimeModel.Build_EuclidTimeModel 18%Q 1%Q (5 # 4)%Q (1 # 4)%Q 123%Z tt)) ∧
  (¬ ∃ e, build cfg = Raise e) ∧
  RouteSolver.solve_tsp Z.to_nat (λ g _ _, (1, g)) points dm (Some "genetic") 0%Z 200
  = [0; 1; 2; 0].
Proof.
  intros cfg default_rng build points dm. split_and!; [reflexivity | | reflexivity].
  intros [e He]. discriminate He.
Qed.

(** ** Group partitioner *)

(** The pipeline's own splitter checks both parameters before it looks at
    the requests. *)
Lemma split_vehicles_df_guards {A : Type} (g : list A) (cap max_veh : Z) :
  (cap <= 0)%Z ∨ (max_veh <= 0)%Z →
  ∃ msg, Pipeline._split_vehicles_df g cap max_veh = Raise (ConfigError msg).
Proof.
  intros Hbad. unfold Pipeline._split_vehicles_df.
  destruct (cap <=? 0)%Z eqn:E1; [by eexists |].
  destruct (max_veh <=? 0)%Z eqn:E2; [by eexists |].
  apply Z.leb_gt in E1, E2. lia.
Qed.

(** The clustering module's splitter does not: with a positive capacity and
    a vehicle cap that is not positive it answers the empty list, whatever
    the requests and the strategy. *)
Lemma split_requests_into_buses_no_guard {A : Type} (radians sin cos arcsin sqrt : Q → Q)
    (get : A → string → Q) (argsort : list Q → list nat) (g : list A)
    (center_lat center_lon : Q) (cap max_bus : Z)
    (lat_col lon_col strategy : string) (seed : Z) :
  (0 < cap)%Z → (max_bus <= 0)%Z →
  Clustering.split_requests_into_buses radians sin cos arcsin sqrt get argsort g
    center_lat center_lon cap max_bus lat_col lon_col strategy seed = Ok [].
Proof.
  intros Hcap Hmax. unfold Clustering.split_requests_into_buses, Clustering.py_range0.
  destruct (length g =? 0); [done |].
  destruct (cap =? 0)%Z eqn:E1; [apply Z.eqb_eq in E1; lia |].
  destruct (cap <? 0)%Z eqn:E2; [apply Z.ltb_lt in E2; lia |].
  f_equal. destruct (Pipeline.range_up _ _) as [| i idx]; [done |].
  cbn [Clustering.bus_loop length].
  destruct (max_bus <=? Z.of_nat 0)%Z eqn:E3; [done |]. apply Z.leb_gt in E3. lia.
Qed.

(** C8, where the code departs from it: with a vehicle cap of [0] the chunk
    path of the pipeline raises [ConfigError], while
    [split_requests_into_buses] answers the empty list under both policies;
    with a capacity of [0] it raises the bare [ValueError] of [range], and
    with a negative capacity it answers the empty list. *)
Theorem split_requests_into_buses_unchecked :
  let split := Clustering.split_requests_into_buses (A := Z)
                 (λ x, x) (λ x, x) (λ x, x) (λ x, x) (λ x, x) (λ r _, inject_Z r)
                 stable_argsort in
  let g := [7; 8; 9]%Z in
  Pipeline._split_vehicles_df g 10 0
    = Raise (ConfigError "max_vehicles_per_center_slot must be > 0 (got 0)") ∧
  Pipeline._split_vehicles_df g 0 2
    = Raise (ConfigError "capacity must be > 0 (got 0)") ∧
  split g 0%Q 0%Q 10%Z 0%Z "pickup_lat" "pickup_lon" "center_dist" 0%Z = Ok [] ∧
  split g 0%Q 0%Q 10%Z 0%Z "pickup_lat" "pickup_lon" "chunk" 0%Z = Ok [] ∧
  split g 0%Q 0%Q 0%Z 2%Z "pickup_lat" "pickup_lon" "center_dist" 0%Z
    = Raise (ValueError "range() arg 3 must not be zero") ∧
  split g 0%Q 0%Q (-1)%Z 2%Z "pickup_lat" "pickup_lon" "center_dist" 0%Z = Ok [].
Proof.
  intros split g. split_and!; vm_compute; reflexivity.
Qed.

Section Chunks.
Context {A : Type}.
Implicit Types (g : list A) (vs : list (list A)).

Lemma chunk_loop_blocks g (cap : nat) (max_veh : Z) (n a : nat) vs :
  length vs = a →
  Pipeline.chunk_loop g cap max_veh ((λ k, k * cap) <$> seq a n) vs
  = vs ++ (block g cap <$> seq a (Nat.min n (Z.to_nat max_veh - a))).
Proof.
  revert a vs. induction n as [| n IH]; intros a vs Hlen; cbn [seq fmap list_fmap Pipeline.chunk_loop].
  - by rewrite app_nil_r.
  - rewrite Hlen. destruct (max_veh <=? Z.of_nat a)%Z eqn:Hcap.
    + apply Z.leb_le in Hcap.
      replace (Z.to_nat max_veh - a) with 0 by lia. by rewrite app_nil_r.
    + apply Z.leb_gt in Hcap.
      rewrite (IH (S a)) by (rewrite length_app; cbn; lia).
      replace (Z.to_nat max_veh - a) with (S (Z.to_nat max_veh - S a)) by lia.
      cbn [Nat.min seq fmap list_fmap]. by rewrite <- app_assoc.
Qed.

Lemma bus_loop_chunk_loop g (cap : nat) (max_bus : Z) (idx : list nat) vs :
  Clustering.bus_loop g cap max_bus idx vs = Pipeline.chunk_loop g cap max_bus idx vs.
Proof.
  revert vs. induction idx as [| i idx IH]; intros vs; cbn; [done |].
  by rewrite IH.
Qed.

Lemma concat_blocks g (cap n : nat) :
  concat (block g cap <$> seq 0 n) = take (n * cap) g.
Proof.
  induction n as [| n IH]; [done |].
  rewrite seq_S, fmap_app, concat_app, IH. cbn. rewrite app_nil_r.
  unfold block. rewrite take_take_drop. f_equal. lia.
Qed.

Lemma length_block g (cap q : nat) :
  length (block g cap q) = Nat.min cap (length g - q * cap).
Proof. unfold block. by rewrite length_take, length_drop. Qed.

End Chunks.

Lemma ceil_div_bounds (k c : nat) :
  0 < c →
  k ≤ ceil_div k c * c ∧ (0 < ceil_div k c → (ceil_div k c - 1) * c < k).
Proof.
  intros Hc. unfold ceil_div.
  pose proof (Nat.div_mod_eq (k + c - 1) c) as Hdm.
  pose proof (Nat.mod_upper_bound (k + c - 1) c ltac:(lia)) as Hr.
  set (N := (k + c - 1) / c) in *. set (r := (k + c - 1) mod c) in *.
  split; [nia |]. intros HN. nia.
Qed.

(** C4: with capacity [c > 0] and vehicle cap [m > 0] the chunk partitioner
    returns [min(ceil(k / c), m)] groups, the consecutive blocks of [c]
    requests (the last one possibly shorter) that make up the first
    [min(k, c * m)] requests; the requests after those are in no group. Both
    the pipeline's splitter and the [chunk] strategy of the clustering
    module do so. For 25 requests, [c = 10] and [m = 2]: two groups of 10 and
    5 requests left out. *)
Theorem chunk_partition {A : Type} (radians sin cos arcsin sqrt : Q → Q)
    (get : A → string → Q) (argsort : list Q → list nat) (g : list A) (c m : Z)
    (center_lat center_lon : Q) (lat_col lon_col : string) (seed : Z) :
  (0 < c)%Z → (0 < m)%Z →
  let k := length g in
  let cn := Z.to_nat c in
  let mn := Z.to_nat m in
  let count := Nat.min (ceil_div k cn) mn in
  ∃ groups,
    Pipeline._split_vehicles_df g c m = Ok groups ∧
    Clustering.split_requests_into_buses radians sin cos arcsin sqrt get argsort g
      center_lat center_lon c m lat_col lon_col "chunk" seed = Ok groups ∧
    length groups = count ∧
    (∀ q, q < count → groups !! q = Some (block g cn q)) ∧
    concat groups = take (Nat.min k (cn * mn)) g ∧
    (∀ q, q < count → 1 ≤ length (block g cn q) ≤ cn) ∧
    (∀ q, q + 1 < count → length (block g cn q) = cn) ∧
    (k = 25 → c = 10%Z → m = 2%Z →
       length <$> groups = [10; 10] ∧ length (drop (length (concat groups)) g) = 5).
Proof.
  intros Hc Hm k cn mn count.
  assert (Hcn : 0 < cn) by lia. assert (Hmn : 0 < mn) by lia.
  destruct (ceil_div_bounds k cn Hcn) as [Hup Hlow].
  set (groups := block g cn <$> seq 0 count).
  assert (Hsplit : Pipeline._split_vehicles_df g c m = Ok groups).
  { unfold Pipeline._split_vehicles_df, Pipeline.range_up.
    destruct (c <=? 0)%Z eqn:E1; [apply Z.leb_le in E1; lia |].
    destruct (m <=? 0)%Z eqn:E2; [apply Z.leb_le in E2; lia |].
    rewrite (chunk_loop_blocks g cn m _ 0 []) by done.
    rewrite Nat.sub_0_r. reflexivity. }
  assert (Hlen : length groups = count).
  { unfold groups. by rewrite length_fmap, length_seq. }
  assert (Hget : ∀ q, q < count → groups !! q = Some (block g cn q)).
  { intros q Hq. unfold groups. rewrite list_lookup_fmap, lookup_seq_lt by done. done. }
  assert (Hcat : concat groups = take (Nat.min k (cn * mn)) g).
  { unfold groups. rewrite concat_blocks. unfold count.
    destruct (decide (ceil_div k cn ≤ mn)) as [Hle | Hgt].
    - rewrite Nat.min_l by done.
      assert (k ≤ cn * mn) by nia.
      rewrite !take_ge; [done | fold k; lia | fold k; lia].
    - assert (Hl : (ceil_div k cn - 1) * cn < k) by (apply Hlow; lia).
      rewrite Nat.min_r by lia. f_equal. nia. }
  assert (Hsize : ∀ q, q < count → 1 ≤ length (block g cn q) ≤ cn).
  { intros q Hq. rewrite length_block. fold k.
    assert (Hl : (ceil_div k cn - 1) * cn < k) by (apply Hlow; lia).
    assert (q * cn < k) by nia. lia. }
  assert (Hfull : ∀ q, q + 1 < count → length (block g cn q) = cn).
  { intros q Hq. rewrite length_block. fold k.
    assert (Hl : (ceil_div k cn - 1) * cn < k) by (apply Hlow; lia).
    assert ((q + 1) * cn < k) by nia. lia. }
  exists groups. split_and!; try done.
  - unfold Clustering.split_requests_into_buses, Clustering.py_range0, Pipeline.range_up.
    fold k. destruct (k =? 0) eqn:Ek.
    + apply Nat.eqb_eq in Ek. unfold groups, count. rewrite Ek.
      replace (ceil_div 0 cn) with 0; [done |].
      unfold ceil_div. symmetry. apply Nat.div_small. lia.
    + change (String.eqb "chunk" "center_dist") with false. cbn iota. fold k.
      destruct (c =? 0)%Z eqn:E1; [apply Z.eqb_eq in E1; lia |].
      destruct (c <? 0)%Z eqn:E2; [apply Z.ltb_lt in E2; lia |].
      rewrite bus_loop_chunk_loop.
      fold cn. rewrite (chunk_loop_blocks g cn m _ 0 []) by done.
      rewrite Nat.sub_0_r. reflexivity.
  - intros Hk -> ->. rewrite Hcat. unfold groups, count.
    change cn with 10. change mn with 2. unfold k in *. rewrite Hk.
    change (Nat.min (ceil_div 25 10) 2) with 2. cbn [seq fmap list_fmap].
    rewrite !length_block, length_drop, length_take, Hk. done.
Qed.

Lemma chunk_partition_witness :
  let g := seq 0 25 in
  (0 < 10)%Z ∧ (0 < 2)%Z ∧
  ∃ groups, Pipeline._split_vehicles_df g 10 2 = Ok groups ∧
    length <$> groups = [10; 10] ∧ length (drop (length (concat groups)) g) = 5.
Proof.
  intros g.
  assert (H10 : (0 < 10)%Z) by lia. assert (H2 : (0 < 2)%Z) by lia.
  split_and!; [exact H10 | exact H2 |].
  destruct (chunk_partition (λ x, x) (λ x, x) (λ x, x) (λ x, x) (λ x, x)
              (λ (r : nat) _, 0%Q) stable_argsort g 10 2 0%Q 0%Q "pickup_lat" "pickup_lon"
              0%Z H10 H2)
    as (groups & Hsplit & _ & _ & _ & _ & _ & _ & Hscenario).
  exists groups. split; [exact Hsplit |]. by apply Hscenario.
Defined.

(** ** Tours: construction *)

Lemma foldl_invariant {S B : Type} (P : S → Prop) (f : S → B → S) (l : list B) (s : S) :
  P s → (∀ s' x, x ∈ l → P s' → P (f s' x)) → P (foldl f s l).
Proof.
  revert s. induction l as [| x l IH]; intros s Hs Hstep; cbn; [done |].
  apply IH.
  - apply Hstep; [left | done].
  - intros s' y Hy. apply Hstep. by right.
Qed.

Lemma py_min_in (key : nat → Q) (x : nat) (xs : list nat) :
  py_min key x xs ∈ x :: xs.
Proof.
  unfold py_min. revert x. induction xs as [| y ys IH]; intros x; cbn.
  - left.
  - destruct (Qlt_le_dec (key y) (key x)).
    + right. apply IH.
    + specialize (IH x). apply elem_of_cons in IH as [-> | IH]; [left | right; by right].
Qed.

Lemma set_remove_perm (x : nat) (s : list nat) :
  NoDup s → x ∈ s → s ≡ₚ x :: set_remove x s.
Proof.
  unfold set_remove. induction s as [| y s IH]; intros Hnd Hin.
  - by apply elem_of_nil in Hin.
  - apply NoDup_cons in Hnd as [Hy Hnd]. rewrite filter_cons.
    destruct (decide (y ≠ x)) as [Hne | Heq].
    + apply elem_of_cons in Hin as [-> | Hin]; [done |].
      rewrite (IH Hnd Hin) at 1. apply Permutation_swap.
    + apply dec_stable in Heq. subst y. f_equal.
      apply Permutation_skip. clear IH Hin Hnd.
      induction s as [| z s IH]; [done |].
      rewrite filter_cons. apply not_elem_of_cons in Hy as [Hz Hy].
      destruct (decide (z ≠ x)); [| done]. by rewrite <- IH.
Qed.

Lemma nn_loop_perm (key : nat → nat → Q) (fuel : nat) (unvisited : list nat)
    (cur : nat) (route : list nat) :
  NoDup unvisited → length unvisited = fuel →
  ∃ p, Tsp.nn_loop key fuel unvisited cur route = route ++ p ∧ p ≡ₚ unvisited.
Proof.
  revert unvisited cur route.
  induction fuel as [| fuel IH]; intros unvisited cur route Hnd Hlen.
  - destruct unvisited; [| done]. exists []. by rewrite app_nil_r.
  - destruct unvisited as [| x xs]; [done |]. cbn [Tsp.nn_loop].
    set (nxt := py_min (key cur) x xs).
    pose proof (py_min_in (key cur) x xs) as Hin. fold nxt in Hin.
    pose proof (set_remove_perm nxt (x :: xs) Hnd Hin) as Hperm.
    destruct (IH (set_remove nxt (x :: xs)) nxt (route ++ [nxt])) as (p & Hp & Hpp).
    + unfold set_remove. by apply NoDup_filter.
    + apply Permutation_length in Hperm. rewrite !length_cons in Hperm.
      rewrite length_cons in Hlen. lia.
    + exists (nxt :: p). split.
      * rewrite Hp, <- app_assoc. done.
      * rewrite Hperm. by apply Permutation_skip.
Qed.

Lemma solver_nn_loop_eq (dist_mat : matrix) (fuel : nat) (unvisited : list nat)
    (cur : nat) (path : list nat) :
  RouteSolver.nn_loop dist_mat fuel unvisited cur path
  = Tsp.nn_loop (cell dist_mat) fuel unvisited cur path.
Proof.
  revert unvisited cur path. induction fuel as [| fuel IH]; intros [| x xs] cur path; cbn; try done.
Qed.

Lemma count_occ_tour (n : nat) (p : list nat) (i : nat) :
  p ≡ₚ seq 1 (n - 1) →
  count_occ Nat.eq_dec p i = if decide (1 ≤ i < n) then 1 else 0.
Proof.
  intros Hp. rewrite (Permutation_count_occ Nat.eq_dec) in Hp. rewrite Hp.
  destruct (decide (1 ≤ i < n)) as [Hi | Hi].
  - apply NoDup_count_occ'; [apply NoDup_ListNoDup, NoDup_seq |].
    apply in_seq. lia.
  - apply count_occ_not_In. rewrite in_seq. lia.
Qed.

Lemma tour_ok_of_perm (n : nat) (p : list nat) :
  1 ≤ n → p ≡ₚ seq 1 (n - 1) → tour_ok n ([0] ++ p ++ [0]).
Proof.
  intros Hn Hp. unfold tour_ok. split_and!.
  - done.
  - cbn. rewrite app_comm_cons. apply last_snoc.
  - apply Permutation_length in Hp. rewrite length_seq in Hp.
    rewrite !length_app, Hp. cbn [length]. lia.
  - cbn [app]. rewrite count_occ_cons_eq by done.
    rewrite count_occ_app, (count_occ_tour n p 0 Hp). cbn.
    destruct (decide (1 ≤ 0 < n)); [lia | done].
  - intros i Hi. cbn [app]. rewrite count_occ_cons_neq by lia.
    rewrite count_occ_app, (count_occ_tour n p i Hp).
    destruct (decide (1 ≤ i < n)); [| lia].
    rewrite count_occ_cons_neq by lia. done.
Qed.

Lemma keeps_refl (b : list nat) : keeps b b.
Proof. by split_and!. Qed.

Lemma keeps_trans (a b c : list nat) : keeps a b → keeps b c → keeps a c.
Proof.
  intros (H1 & H2 & H3) (H4 & H5 & H6). split_and!.
  - by rewrite H4.
  - by rewrite H5.
  - by rewrite H6.
Qed.

Lemma tour_ok_keeps (n : nat) (b b' : list nat) :
  tour_ok n b → keeps b b' → tour_ok n b'.
Proof.
  intros (Hh & Hl & Hlen & H0 & Hi) (Hp & Hh' & Hl'). unfold tour_ok. split_and!.
  - by rewrite Hh'.
  - by rewrite Hl'.
  - by rewrite (Permutation_length Hp).
  - by rewrite (proj1 (Permutation_count_occ Nat.eq_dec _ _) Hp 0).
  - intros i Hr. rewrite (proj1 (Permutation_count_occ Nat.eq_dec _ _) Hp i). by apply Hi.
Qed.

Lemma reverse_segment_keeps (best : list nat) (i j : nat) :
  1 ≤ i → i ≤ j → j < length best → keeps best (reverse_segment best i j).
Proof.
  intros Hi Hij Hj. unfold reverse_segment. split_and!.
  - rewrite reverse_Permutation, app_assoc, take_take_drop.
    replace (i + (j - i)) with j by lia. by rewrite take_drop.
  - destruct best as [| x best]; [cbn in Hj; lia |].
    destruct i as [| i]; [lia | done].
  - rewrite !last_app.
    assert (is_Some (last (drop j best))) as [y Hy].
    { rewrite last_lookup, length_drop. apply lookup_lt_is_Some.
      rewrite length_drop. lia. }
    rewrite Hy. rewrite <- (take_drop j best) at 1. by rewrite last_app, Hy.
Qed.

(** ** 2-opt: one pass *)

Lemma eps_pos : (0 < eps)%Q.
Proof. reflexivity. Qed.

Lemma accept_inv (cost : list nat → Q) (best0 cand : list nat) (st : pass_state) :
  pass_inv cost best0 st → keeps st.1.1 cand →
  pass_inv cost best0
    (if Qlt_le_dec (cost cand + eps) st.1.2 then (cand, cost cand, true) else st).
Proof.
  intros (Hk & Hc & Hflag) Hcand.
  destruct (Qlt_le_dec (cost cand + eps) st.1.2) as [Hlt | _]; [| done].
  split_and!; cbn.
  - by apply (keeps_trans _ st.1.1).
  - done.
  - pose proof eps_pos. destruct st.2.
    + lra.
    + rewrite Hflag in Hc. rewrite Hc in Hlt. done.
Qed.

Lemma keeps_length (b b' : list nat) : keeps b b' → length b' = length b.
Proof. intros (Hp & _). by apply Permutation_length. Qed.

Lemma foldl_flag_stays {B : Type} (f : pass_state → B → pass_state) (l : list B)
    (st : pass_state) :
  (∀ s x, s.2 = true → (f s x).2 = true) →
  st.2 = true → (foldl f st l).2 = true.
Proof.
  intros Hf. revert st. induction l as [| x l IH]; intros st Hst; cbn; [done |].
  apply IH. by apply Hf.
Qed.

Lemma foldl_unimproved {B : Type} (f : pass_state → B → pass_state) (l : list B)
    (st : pass_state) :
  (∀ s x, s.2 = true → (f s x).2 = true) →
  (∀ s x, (f s x).2 = false → f s x = s) →
  (foldl f st l).2 = false →
  foldl f st l = st ∧ ∀ x, x ∈ l → f st x = st.
Proof.
  intros Hmono Hsame. revert st. induction l as [| x l IH]; intros st Hfin; cbn in *.
  - split; [done |]. intros x Hx. by apply elem_of_nil in Hx.
  - assert (Hx : (f st x).2 = false).
    { destruct (f st x).2 eqn:E; [| done].
      by rewrite (foldl_flag_stays f l (f st x) Hmono E) in Hfin. }
    apply Hsame in Hx. rewrite Hx in *.
    destruct (IH st Hfin) as [H1 H2]. split; [done |].
    intros y Hy. apply elem_of_cons in Hy as [-> | Hy]; [done | by apply H2].
Qed.

Section TspPass.
Variable fsqrt : Q → Q.
Variable dist_mat : option matrix.
Variable points : list point.

Abbreviation cost := (λ r, Tsp._route_cost fsqrt r dist_mat points).
Abbreviation inner := (Tsp.inner_step fsqrt dist_mat points).
Abbreviation outer := (Tsp.outer_step fsqrt dist_mat points).
Abbreviation tsp_pass := (Tsp.pass fsqrt dist_mat points).

Lemma tsp_inner_inv (best0 : list nat) (st : pass_state) (i j : nat) :
  pass_inv cost best0 st → 1 ≤ i → i < j → j < length best0 →
  pass_inv cost best0 (inner i st j).
Proof.
  intros Hinv Hi Hij Hj. unfold Tsp.inner_step.
  destruct st as [[best best_cost] improved].
  destruct (j - i =? 1); [done |].
  apply (accept_inv cost best0 (reverse_segment best i j) (best, best_cost, improved) Hinv).
  apply reverse_segment_keeps; [done | lia |].
  destruct Hinv as (Hk & _). cbn in Hk. rewrite (keeps_length _ _ Hk). done.
Qed.

Lemma tsp_outer_inv (best0 : list nat) (st : pass_state) (i : nat) :
  pass_inv cost best0 st → 1 ≤ i → pass_inv cost best0 (outer st i).
Proof.
  intros Hinv Hi. unfold Tsp.outer_step.
  assert (Hlen : length st.1.1 = length best0).
  { destruct Hinv as (Hk & _). by apply keeps_length. }
  apply foldl_invariant; [done |].
  intros s' j Hj Hs'. apply elem_of_seq in Hj.
  apply tsp_inner_inv; [done | done | lia | lia].
Qed.

Lemma tsp_pass_inv (best : list nat) :
  pass_inv cost best (tsp_pass best (cost best)).
Proof.
  unfold Tsp.pass. apply foldl_invariant.
  - split_and!; [apply keeps_refl | done | done].
  - intros s' i Hi Hs'. apply elem_of_seq in Hi. apply tsp_outer_inv; [done | lia].
Qed.

Lemma tsp_inner_flag (i : nat) (s : pass_state) (j : nat) :
  s.2 = true → (inner i s j).2 = true.
Proof.
  unfold Tsp.inner_step. destruct s as [[best best_cost] improved]. cbn. intros ->.
  destruct (j - i =? 1); [done |]. by destruct (Qlt_le_dec _ _).
Qed.

Lemma tsp_inner_same (i : nat) (s : pass_state) (j : nat) :
  (inner i s j).2 = false → inner i s j = s.
Proof.
  unfold Tsp.inner_step. destruct s as [[best best_cost] improved].
  destruct (j - i =? 1); [done |]. by destruct (Qlt_le_dec _ _).
Qed.

Lemma tsp_outer_flag (s : pass_state) (i : nat) :
  s.2 = true → (outer s i).2 = true.
Proof. apply foldl_flag_stays, tsp_inner_flag. Qed.

Lemma tsp_outer_same (s : pass_state) (i : nat) :
  (outer s i).2 = false → outer s i = s.
Proof.
  intros H. by apply (foldl_unimproved (inner i) _ s (tsp_inner_flag i) (tsp_inner_same i)).
Qed.

(** A pass that reports no improvement changed nothing, and then no
    reversal it tried was an improvement. *)
Lemma tsp_pass_unimproved (best : list nat) :
  (tsp_pass best (cost best)).2 = false →
  tsp_pass best (cost best) = (best, cost best, false) ∧
  tsp_locally_optimal fsqrt dist_mat points best.
Proof.
  intros Hflag. unfold Tsp.pass in *.
  destruct (foldl_unimproved outer _ _ tsp_outer_flag tsp_outer_same Hflag) as [Hsame Hall].
  split; [done |]. intros i j Hi Hij Hj Hlt.
  assert (Hout : outer (best, cost best, false) i = (best, cost best, false)).
  { apply Hall, elem_of_seq. lia. }
  unfold Tsp.outer_step in Hout.
  destruct (foldl_unimproved (inner i) _ _ (tsp_inner_flag i) (tsp_inner_same i)
              ltac:(by rewrite Hout)) as [_ Hin].
  specialize (Hin j). unfold Tsp.inner_step in Hin.
  assert ((j - i =? 1) = false) as Hne by (apply Nat.eqb_neq; lia).
  rewrite Hne in Hin.
  destruct (Qlt_le_dec _ _) as [_ | Hle].
  - assert (Heq : (reverse_segment best i j, cost (reverse_segment best i j), true)
                  = (best, cost best, false)).
    { apply Hin, elem_of_seq. cbn. lia. }
    discriminate Heq.
  - by apply Qle_not_lt in Hle.
Qed.

(** On a locally optimal route a pass changes nothing. *)
Lemma tsp_pass_optimal (best : list nat) :
  tsp_locally_optimal fsqrt dist_mat points best →
  tsp_pass best (cost best) = (best, cost best, false).
Proof.
  intros Hopt. unfold Tsp.pass.
  apply (foldl_invariant (λ st, st = (best, cost best, false))); [done |].
  intros s' i Hi ->. apply elem_of_seq in Hi. unfold Tsp.outer_step. cbn [fst].
  apply (foldl_invariant (λ st, st = (best, cost best, false))); [done |].
  intros s' j Hj ->. apply elem_of_seq in Hj. unfold Tsp.inner_step.
  destruct (j - i =? 1) eqn:Hd; [done |]. apply Nat.eqb_neq in Hd.
  destruct (Qlt_le_dec _ _) as [Hlt | _]; [| done].
  exfalso. apply (Hopt i j); [lia | lia | lia | done].
Qed.

End TspPass.

(** ** 2-opt: the loop of [tsp.py] *)

Lemma cheaper_shrinks (cost : list nat → Q) (root b : list nat) (c : Q) :
  root ≡ₚ b → (cost b < c)%Q →
  length (cheaper cost root (cost b)) < length (cheaper cost root c).
Proof.
  intros Hperm Hlt. unfold cheaper.
  rewrite <- (list_filter_filter_l (λ p, (cost p < cost b)%Q) (λ p, (cost p < c)%Q)).
  - apply (length_filter_lt _ _ b).
    + apply list_elem_of_filter. split; [done |]. by apply permutations_Permutation.
    + apply Qlt_irrefl.
  - intros p Hp. by apply (Qlt_trans _ (cost b)).
Qed.

Lemma descending_cons (c0 c : Q) (rest : list Q) :
  (c + eps < c0)%Q → descending c rest → descending c0 (c :: rest).
Proof. intros H1 H2. cbn. by destruct rest. Qed.

Section TspLoop.
Variable fsqrt : Q → Q.
Variable dist_mat : option matrix.
Variable points : list point.

Abbreviation tcost := (λ r, Tsp._route_cost fsqrt r dist_mat points).
Abbreviation tloop := (Tsp.two_opt_loop fsqrt dist_mat points).

Lemma tsp_loop_sound (root : list nat) (fuel : nat) (best r : list nat) (costs : list Q) :
  root ≡ₚ best →
  tloop fuel best (tcost best) = Some (r, costs) →
  keeps best r ∧ (tcost r <= tcost best)%Q ∧ descending (tcost best) costs ∧
  last costs = Some (tcost r) ∧ tsp_locally_optimal fsqrt dist_mat points r ∧
  1 ≤ length costs ≤ fuel ∧
  length costs ≤ S (length (cheaper tcost root (tcost best))).
Proof.
  revert best r costs. induction fuel as [| fuel IH]; intros best r costs Hroot Hrun; [done |].
  cbn [Tsp.two_opt_loop] in Hrun.
  pose proof (tsp_pass_inv fsqrt dist_mat points best) as (Hk & Hc & Hflag).
  pose proof (tsp_pass_unimproved fsqrt dist_mat points best) as Hun.
  destruct (Tsp.pass fsqrt dist_mat points best (tcost best)) as [[b' c'] improved].
  cbn [fst snd] in Hk, Hc, Hflag, Hun. subst c'. destruct improved.
  - destruct (tloop fuel b' (tcost b')) as [[r' costs'] |] eqn:Hrec;
      cbn [mbind option_bind] in Hrun; [| done].
    injection Hrun as <- <-.
    assert (Hroot' : root ≡ₚ b').
    { destruct Hk as (Hp & _). by rewrite Hp. }
    destruct (IH _ _ _ Hroot' Hrec) as (Hk' & Hle & Hdesc & Hlast & Hopt & Hlen & Hbound).
    pose proof eps_pos.
    assert (Hsh : length (cheaper tcost root (tcost b'))
                  < length (cheaper tcost root (tcost best))).
    { apply (cheaper_shrinks tcost root b' (tcost best)); [done | lra]. }
    split_and!.
    + by apply (keeps_trans _ b').
    + lra.
    + by apply descending_cons.
    + destruct costs'; [cbn in Hlen; lia | done].
    + done.
    + cbn. lia.
    + cbn. lia.
    + cbn. lia.
  - destruct (Hun eq_refl) as [[= ->] Hopt]. injection Hrun as <- <-.
    split_and!; [apply keeps_refl | lra | done | done | done | cbn; lia | cbn; lia | cbn; lia].
Qed.

Lemma tsp_loop_total (root : list nat) (fuel : nat) (best : list nat) :
  root ≡ₚ best →
  length (cheaper tcost root (tcost best)) < fuel →
  is_Some (tloop fuel best (tcost best)).
Proof.
  revert best. induction fuel as [| fuel IH]; intros best Hroot Hfuel; [lia |].
  cbn [Tsp.two_opt_loop].
  pose proof (tsp_pass_inv fsqrt dist_mat points best) as (Hk & Hc & Hflag).
  destruct (Tsp.pass fsqrt dist_mat points best (tcost best)) as [[b' c'] improved].
  cbn [fst snd] in Hk, Hc, Hflag. subst c'. destruct improved; [| done].
  assert (Hroot' : root ≡ₚ b').
  { destruct Hk as (Hp & _). by rewrite Hp. }
  pose proof eps_pos.
  assert (Hsh : length (cheaper tcost root (tcost b'))
                < length (cheaper tcost root (tcost best))).
  { apply (cheaper_shrinks tcost root b' (tcost best)); [done | lra]. }
  destruct (IH b' Hroot') as [[r costs] Hrec]; [lia |].
  rewrite Hrec. done.
Qed.

Lemma tsp_loop_mono (fuel fuel' : nat) (best : list nat) (c : Q) (x : list nat * list Q) :
  tloop fuel best c = Some x → fuel ≤ fuel' → tloop fuel' best c = Some x.
Proof.
  revert fuel' best c x. induction fuel as [| fuel IH]; intros fuel' best c x Hrun Hle; [done |].
  destruct fuel' as [| fuel']; [lia |]. cbn [Tsp.two_opt_loop] in *.
  destruct (Tsp.pass fsqrt dist_mat points best c) as [[b' c'] improved].
  destruct improved; [| done].
  destruct (tloop fuel b' c') as [[r costs] |] eqn:Hrec; [| done].
  rewrite (IH fuel' b' c' (r, costs) Hrec) by lia. done.
Qed.

(** [_two_opt] returns: with more fuel than the route has rearrangements it
    answers, the answer does not depend on the fuel, and it has the
    properties below. *)
Lemma tsp_two_opt_spec (route : list nat) :
  ∃ r costs,
    (∀ fuel, length (permutations route) < fuel →
       Tsp._two_opt_trace fsqrt dist_mat points fuel route = Some (r, costs)) ∧
    keeps route r ∧ (tcost r <= tcost route)%Q ∧ descending (tcost route) costs ∧
    last costs = Some (tcost r) ∧ tsp_locally_optimal fsqrt dist_mat points r ∧
    1 ≤ length costs ≤ S (length (permutations route)).
Proof.
  unfold Tsp._two_opt_trace.
  pose proof (length_filter (λ p, (tcost p < tcost route)%Q) (permutations route)) as Hcut.
  fold (cheaper tcost route (tcost route)) in Hcut.
  destruct (tsp_loop_total route (S (length (cheaper tcost route (tcost route)))) route)
    as [[r costs] Hrun]; [done | lia |].
  destruct (tsp_loop_sound route _ _ _ _ (reflexivity _) Hrun)
    as (Hk & Hle & Hdesc & Hlast & Hopt & Hlen & Hbound).
  unfold cheaper in *. cbn beta in *.
  exists r, costs. split; [| split_and!; try done; lia].
  intros fuel Hfuel. apply (tsp_loop_mono _ _ _ _ _ Hrun). lia.
Qed.

End TspLoop.

(** ** 2-opt: [route_solver.py] *)

Section SolverTwoOpt.
Variable dist_mat : matrix.

Abbreviation scost := (λ r, RouteSolver._route_cost r dist_mat).
Abbreviation sinner := (RouteSolver.inner_step dist_mat).
Abbreviation souter := (RouteSolver.outer_step dist_mat).
Abbreviation spass := (RouteSolver.pass dist_mat).
Abbreviation sloop := (RouteSolver.two_opt_loop dist_mat).

Lemma solver_inner_inv (best0 : list nat) (st : pass_state) (i k : nat) :
  pass_inv scost best0 st → 1 ≤ i → i < k → k + 1 < length best0 →
  pass_inv scost best0 (sinner i st k).
Proof.
  intros Hinv Hi Hik Hk. unfold RouteSolver.inner_step.
  destruct st as [[best best_cost] improved].
  apply (accept_inv scost best0 (reverse_segment best i (k + 1)) (best, best_cost, improved) Hinv).
  apply reverse_segment_keeps; [done | lia |].
  destruct Hinv as (Hkeep & _). cbn in Hkeep. rewrite (keeps_length _ _ Hkeep). done.
Qed.

Lemma solver_outer_inv (best0 : list nat) (st : pass_state) (i : nat) :
  pass_inv scost best0 st → 1 ≤ i →
  pass_inv scost best0 (souter (length best0) st i).
Proof.
  intros Hinv Hi. unfold RouteSolver.outer_step.
  apply foldl_invariant; [done |].
  intros s' k Hk Hs'. apply elem_of_seq in Hk.
  apply solver_inner_inv; [done | done | lia | lia].
Qed.

Lemma solver_pass_inv (best : list nat) :
  pass_inv scost best (spass (length best) best (scost best)).
Proof.
  unfold RouteSolver.pass. apply foldl_invariant.
  - split_and!; [apply keeps_refl | done | done].
  - intros s' i Hi Hs'. apply elem_of_seq in Hi. apply solver_outer_inv; [done | lia].
Qed.

(** On a locally optimal route a pass changes nothing. *)
Lemma solver_pass_optimal (best : list nat) :
  solver_locally_optimal dist_mat best →
  spass (length best) best (scost best) = (best, scost best, false).
Proof.
  intros Hopt. unfold RouteSolver.pass.
  apply (foldl_invariant (λ st, st = (best, scost best, false))); [done |].
  intros s' i Hi ->. apply elem_of_seq in Hi. unfold RouteSolver.outer_step.
  apply (foldl_invariant (λ st, st = (best, scost best, false))); [done |].
  intros s' k Hk ->. apply elem_of_seq in Hk. unfold RouteSolver.inner_step.
  destruct (Qlt_le_dec _ _) as [Hlt | _]; [| done].
  exfalso. apply (Hopt i k); [lia | lia | lia | done].
Qed.

Lemma solver_loop_sound (budget : nat) (best r : list nat) (costs : list Q) :
  sloop (length best) budget best (scost best) = (r, costs) →
  keeps best r ∧ (scost r <= scost best)%Q ∧ descending (scost best) costs ∧
  length costs ≤ budget ∧
  (solver_locally_optimal dist_mat best → r = best).
Proof.
  revert best r costs. induction budget as [| budget IH]; intros best r costs Hrun.
  - cbn in Hrun. injection Hrun as <- <-.
    split_and!; [apply keeps_refl | lra | done | done | done].
  - cbn [RouteSolver.two_opt_loop] in Hrun.
    pose proof (solver_pass_inv best) as (Hk & Hc & Hflag).
    pose proof (solver_pass_optimal best) as Hopt.
    destruct (spass (length best) best (scost best)) as [[b' c'] improved].
    cbn [fst snd] in Hk, Hc, Hflag. subst c'. destruct improved.
    + rewrite <- (keeps_length _ _ Hk) in Hrun.
      destruct (sloop (length b') budget b' (scost b')) as [r' costs'] eqn:Hrec.
      injection Hrun as <- <-.
      destruct (IH _ _ _ Hrec) as (Hk' & Hle & Hdesc & Hlen & _).
      pose proof eps_pos. split_and!.
      * by apply (keeps_trans _ b').
      * lra.
      * by apply descending_cons.
      * cbn. lia.
      * intros Ho. by specialize (Hopt Ho).
    + injection Hrun as <- <-. subst b'.
      split_and!; [apply keeps_refl | lra | done | cbn; lia | done].
Qed.

End SolverTwoOpt.

(** ** Tours: the sequencers *)

Lemma nn_route_ok (key : nat → nat → Q) (n : nat) :
  1 ≤ n →
  tour_ok n (Tsp.nn_loop key (length (seq 1 (n - 1))) (seq 1 (n - 1)) 0 [0] ++ [0]).
Proof.
  intros Hn.
  destruct (nn_loop_perm key (length (seq 1 (n - 1))) (seq 1 (n - 1)) 0 [0])
    as (p & -> & Hp); [apply NoDup_seq | done |].
  rewrite <- app_assoc. by apply tour_ok_of_perm.
Qed.

Lemma tsp_two_opt_returns (fsqrt : Q → Q) (dist_mat : option matrix)
    (points : list point) (route : list nat) :
  ∃ r, keeps route r ∧
    ∀ fuel, length (permutations route) < fuel →
      Tsp._two_opt fsqrt dist_mat points fuel route = Some r.
Proof.
  destruct (tsp_two_opt_spec fsqrt dist_mat points route) as (r & costs & Hrun & Hk & _).
  exists r. split; [done |]. intros fuel Hfuel.
  unfold Tsp._two_opt. by rewrite (Hrun fuel Hfuel).
Qed.

Lemma tsp_solve_tsp_ok (fsqrt : Q → Q) (points : list point) (dist_mat : option matrix)
    (dm : matrix) (method : string) (improve_2opt : bool) :
  let n := length points in
  1 ≤ n →
  method = "euclid_nn" ∨ (method = "time_nn" ∧ dist_mat = Some dm) →
  nrows dm = n → ncols dm = n →
  ∃ tour, tour_ok n tour ∧
    ∃ fuel0, ∀ fuel, fuel0 ≤ fuel →
      Tsp.solve_tsp fsqrt fuel points dist_mat method improve_2opt = Some (Ok tour).
Proof.
  intros n Hn Hmethod Hrows Hcols. unfold Tsp.solve_tsp. fold n.
  destruct (n =? 0) eqn:E0; [apply Nat.eqb_eq in E0; lia |].
  destruct (n =? 1) eqn:E1.
  { apply Nat.eqb_eq in E1. exists [0; 0]. split; [| by exists 0].
    rewrite E1. unfold tour_ok. split_and!; try done. intros i Hi. lia. }
  set (key := λ cur i : nat, if String.eqb method "euclid_nn" then _ else _).
  pose proof (nn_route_ok key n Hn) as Hroute.
  set (route := Tsp.nn_loop key _ _ _ _ ++ [0]) in *.
  assert (Hchecked :
    (if String.eqb method "time_nn" then
       match dist_mat with
       | None => Raise (ValueError "dist_mat is required for method='time_nn'")
       | Some m =>
           if (nrows m =? n) && (ncols m =? n) then Ok ()
           else Raise (ValueError (Tsp.shape_msg n m))
       end
     else Ok ()) = Ok ()).
  { destruct Hmethod as [-> | [-> ->]]; [done |].
    cbn [String.eqb]. rewrite Hrows, Hcols, Nat.eqb_refl. done. }
  assert (Hvalid : negb (String.eqb method "euclid_nn" || String.eqb method "time_nn") = false).
  { by destruct Hmethod as [-> | [-> _]]. }
  rewrite Hvalid, Hchecked.
  destruct (improve_2opt && (4 <? length route)).
  - destruct (tsp_two_opt_returns fsqrt
                (if String.eqb method "time_nn" then dist_mat else None) points route)
      as (r & Hk & Hrun).
    exists r. split; [by apply (tour_ok_keeps n route) |].
    exists (S (length (permutations route))). intros fuel Hfuel.
    rewrite (Hrun fuel) by lia. done.
  - exists route. split; [done |]. by exists 0.
Qed.

Lemma solver_solve_tsp_ok {rng : Type} (Random : Z → rng)
    (randrange : rng → nat → nat → nat * rng) (points : list point) (dm : matrix)
    (improve_method : option string) (seed : Z) (tabu_iters : nat) :
  let n := length points in
  1 ≤ n → nrows dm = n →
  improve_method = None ∨ improve_method = Some "none" ∨ improve_method = Some "two_opt" →
  tour_ok n (RouteSolver.solve_tsp Random randrange points dm improve_method seed tabu_iters).
Proof.
  intros n Hn Hrows Himprove. unfold RouteSolver.solve_tsp. fold n.
  destruct (n <=? 1) eqn:E1.
  { apply Nat.leb_le in E1. assert (n = 1) as -> by lia.
    unfold tour_ok. split_and!; try done. intros i Hi. lia. }
  assert (Hroute : tour_ok n (RouteSolver._nearest_neighbor dm)).
  { unfold RouteSolver._nearest_neighbor. rewrite Hrows, solver_nn_loop_eq.
    by apply nn_route_ok. }
  destruct Himprove as [-> | [-> | ->]]; [done | done |].
  cbn [String.eqb]. change (String.eqb "two_opt" "none") with false.
  change (String.eqb "two_opt" "two_opt") with true. cbn iota.
  unfold RouteSolver._two_opt, RouteSolver._two_opt_trace.
  destruct (RouteSolver.two_opt_loop dm _ 30 _ _) as [r costs] eqn:Hrun.
  destruct (solver_loop_sound dm _ _ _ _ Hrun) as (Hk & _).
  by apply (tour_ok_keeps n (RouteSolver._nearest_neighbor dm)).
Qed.

Lemma tour_ok_one (tour : list nat) : tour_ok 1 tour → tour = [0; 0].
Proof.
  intros (Hh & Hl & Hlen & _).
  destruct tour as [| a [| b [| c tour]]]; cbn in Hlen; try lia.
  cbn in Hh, Hl. by injection Hh as ->; injection Hl as ->.
Qed.

(** C1: for a point set of [n >= 1] points and a matrix over it, each
    sequencer (nearest neighbour by point distance or by matrix entry, with
    or without 2-opt, in [tsp.py] and in [route_solver.py]) returns a tour
    that starts and ends at the depot [0], has [n + 1] stops, holds each of
    [1 .. n-1] exactly once and the depot at its two ends only; for [n = 1]
    the tour is [[0; 0]]. *)
Theorem sequencers_return_tours (fsqrt : Q → Q) {rng : Type} (Random : Z → rng)
    (randrange : rng → nat → nat → nat * rng) (points : list point)
    (dist_mat : option matrix) (dm : matrix) (method : string) (improve_2opt : bool)
    (improve_method : option string) (seed : Z) (tabu_iters : nat) :
  let n := length points in
  1 ≤ n →
  method = "euclid_nn" ∨ (method = "time_nn" ∧ dist_mat = Some dm) →
  nrows dm = n → ncols dm = n →
  improve_method = None ∨ improve_method = Some "none" ∨ improve_method = Some "two_opt" →
  (∃ tour, tour_ok n tour ∧ (n = 1 → tour = [0; 0]) ∧
     ∃ fuel0, ∀ fuel, fuel0 ≤ fuel →
       Tsp.solve_tsp fsqrt fuel points dist_mat method improve_2opt = Some (Ok tour)) ∧
  tour_ok n (RouteSolver.solve_tsp Random randrange points dm improve_method seed tabu_iters) ∧
  (n = 1 →
   RouteSolver.solve_tsp Random randrange points dm improve_method seed tabu_iters = [0; 0]).
Proof.
  intros n Hn Hmethod Hrows Hcols Himprove.
  destruct (tsp_solve_tsp_ok fsqrt points dist_mat dm method improve_2opt
              Hn Hmethod Hrows Hcols) as (tour & Hok & Hrun).
  pose proof (solver_solve_tsp_ok Random randrange points dm improve_method seed
                tabu_iters Hn Hrows Himprove) as Hsolver.
  fold n in Hok, Hsolver. split_and!.
  - exists tour. split_and!; [done | | done].
    intros H1. rewrite H1 in Hok. by apply tour_ok_one.
  - done.
  - intros H1. rewrite H1 in Hsolver. by apply tour_ok_one.
Qed.

Lemma sequencers_return_tours_witness :
  let points := [(75 # 2, 127); (3751 # 100, 127); (3749 # 100, 127); (75 # 2, 12701 # 100)]%Q in
  let dm := of_rows [[0; 4; 4; 3]; [4; 0; 8; 5]; [4; 8; 0; 5]; [3; 5; 5; 0]]%Q in
  let method := "time_nn" in
  1 ≤ length points ∧
  (method = "euclid_nn" ∨ (method = "time_nn" ∧ Some dm = Some dm)) ∧
  nrows dm = length points ∧ ncols dm = length points ∧
  (Some "two_opt" = None ∨ Some "two_opt" = Some "none" ∨ Some "two_opt" = Some "two_opt") ∧
  (∃ tour, tour_ok 4 tour ∧
     ∃ fuel0, ∀ fuel, fuel0 ≤ fuel →
       Tsp.solve_tsp (λ x, x) fuel points (Some dm) method true = Some (Ok tour)) ∧
  tour_ok 4 (RouteSolver.solve_tsp (λ _ : Z, tt) (λ g _ _, (1, g)) points dm
               (Some "two_opt") 0 200).
Proof.
  intros points dm method.
  assert (H1 : 1 ≤ length points) by (cbn; lia).
  assert (H2 : method = "euclid_nn" ∨ (method = "time_nn" ∧ Some dm = Some dm))
    by (right; split; reflexivity).
  assert (H3 : nrows dm = length points) by reflexivity.
  assert (H4 : ncols dm = length points) by reflexivity.
  assert (H5 : Some "two_opt" = None ∨ Some "two_opt" = Some "none"
               ∨ Some "two_opt" = Some "two_opt") by (right; right; reflexivity).
  destruct (sequencers_return_tours (λ x, x) (λ _ : Z, tt) (λ g _ _, (1, g)) points
              (Some dm) dm method true (Some "two_opt") 0%Z 200 H1 H2 H3 H4 H5)
    as ((tour & Hok & _ & Hrun) & Hsolver & _).
  split_and!; [exact H1 | exact H2 | exact H3 | exact H4 | exact H5 | | exact Hsolver].
  exists tour. split; [exact Hok | exact Hrun].
Defined.

(** ** 2-opt: cost *)

Lemma tsp_two_opt_optimal (fsqrt : Q → Q) (dist_mat : option matrix)
    (points : list point) (route : list nat) (fuel : nat) :
  tsp_locally_optimal fsqrt dist_mat points route → 1 ≤ fuel →
  Tsp._two_opt_trace fsqrt dist_mat points fuel route
  = Some (route, [Tsp._route_cost fsqrt route dist_mat points]).
Proof.
  intros Hopt Hfuel. destruct fuel as [| fuel]; [lia |].
  unfold Tsp._two_opt_trace. cbn [Tsp.two_opt_loop].
  by rewrite (tsp_pass_optimal fsqrt dist_mat points route Hopt).
Qed.

(** C2: 2-opt never returns a costlier route, with a matrix or with point
    distances as the cost; a route on which no tried reversal gains more than
    [eps] is returned as it is, hence at equal cost, and the route returned by
    [tsp.py]'s 2-opt is such a route. *)
Theorem two_opt_never_worse (fsqrt : Q → Q) (dist_mat : option matrix)
    (points : list point) (dm : matrix) (route : list nat) (max_passes : nat) :
  (∃ r,
     (∃ fuel0, ∀ fuel, fuel0 ≤ fuel →
        Tsp._two_opt fsqrt dist_mat points fuel route = Some r ∧
        Tsp._two_opt fsqrt dist_mat points fuel r = Some r) ∧
     (Tsp._route_cost fsqrt r dist_mat points
        <= Tsp._route_cost fsqrt route dist_mat points)%Q ∧
     (tsp_locally_optimal fsqrt dist_mat points route → r = route)) ∧
  (RouteSolver._route_cost (RouteSolver._two_opt dm route max_passes) dm
     <= RouteSolver._route_cost route dm)%Q ∧
  (solver_locally_optimal dm route → RouteSolver._two_opt dm route max_passes = route).
Proof.
  split_and!.
  - destruct (tsp_two_opt_spec fsqrt dist_mat points route)
      as (r & costs & Hrun & Hk & Hle & Hdesc & Hlast & Hopt & Hlen).
    exists r. split_and!; [| done |].
    + exists (S (length (permutations route))). intros fuel Hfuel.
      unfold Tsp._two_opt. rewrite (Hrun fuel) by lia.
      rewrite (tsp_two_opt_optimal fsqrt dist_mat points r fuel Hopt) by lia. done.
    + intros Hroute.
      pose proof (Hrun (S (length (permutations route))) ltac:(lia)) as H1.
      rewrite (tsp_two_opt_optimal _ _ _ _ _ Hroute) in H1 by lia. by injection H1.
  - unfold RouteSolver._two_opt, RouteSolver._two_opt_trace.
    destruct (RouteSolver.two_opt_loop dm _ max_passes _ _) as [r costs] eqn:Hrun.
    by destruct (solver_loop_sound dm _ _ _ _ Hrun) as (_ & Hle & _).
  - unfold RouteSolver._two_opt, RouteSolver._two_opt_trace.
    destruct (RouteSolver.two_opt_loop dm _ max_passes _ _) as [r costs] eqn:Hrun.
    destruct (solver_loop_sound dm _ _ _ _ Hrun) as (_ & _ & _ & _ & Hopt). done.
Qed.

(** ** 2-opt: passes *)

(** C10, as the code has it: [route_solver.py] runs at most [max_passes]
    passes; [tsp.py] has no cap and stops after the first pass that finds
    no improvement, within as many passes as the route has rearrangements
    plus one; in both, every pass but the last lowers the cost by more
    than [eps]. Both procedures return. *)
Theorem two_opt_passes (fsqrt : Q → Q) (dist_mat : option matrix)
    (points : list point) (dm : matrix) (route : list nat) (max_passes : nat) :
  (∃ r costs,
     (∃ fuel0, ∀ fuel, fuel0 ≤ fuel →
        Tsp._two_opt_trace fsqrt dist_mat points fuel route = Some (r, costs)) ∧
     descending (Tsp._route_cost fsqrt route dist_mat points) costs ∧
     1 ≤ length costs ≤ S (length (permutations route)) ∧
     tsp_locally_optimal fsqrt dist_mat points r) ∧
  (descending (RouteSolver._route_cost route dm)
     (RouteSolver._two_opt_trace dm route max_passes).2 ∧
   length (RouteSolver._two_opt_trace dm route max_passes).2 ≤ max_passes).
Proof.
  split.
  - destruct (tsp_two_opt_spec fsqrt dist_mat points route)
      as (r & costs & Hrun & Hk & Hle & Hdesc & Hlast & Hopt & Hlen).
    exists r, costs. split_and!; try done; [| lia | lia].
    exists (S (length (permutations route))). intros fuel Hfuel. apply Hrun. lia.
  - unfold RouteSolver._two_opt_trace.
    destruct (RouteSolver.two_opt_loop dm _ max_passes _ _) as [r costs] eqn:Hrun.
    by destruct (solver_loop_sound dm _ _ _ _ Hrun) as (_ & _ & Hdesc & Hlen & _).
Qed.

Lemma two_opt_never_worse_witness :
  let dm := of_rows [[0; 1; 5; 1]; [1; 0; 1; 5]; [5; 1; 0; 1]; [1; 5; 1; 0]]%Q in
  let route := [0; 1; 2; 3; 0] in
  tsp_locally_optimal (λ x, x) (Some dm) [] route ∧
  solver_locally_optimal dm route ∧
  (∃ r, (∃ fuel0, ∀ fuel, fuel0 ≤ fuel →
           Tsp._two_opt (λ x, x) (Some dm) [] fuel route = Some r) ∧ r = route) ∧
  RouteSolver._two_opt dm route 30 = route.
Proof.
  intros dm route.
  assert (H1 : tsp_locally_optimal (λ x, x) (Some dm) [] route).
  { intros i j Hi Hij Hj. cbn in Hj.
    assert (i = 1 ∧ j = 3) as [-> ->] by lia.
    intros Hlt. vm_compute in Hlt. discriminate Hlt. }
  assert (H2 : solver_locally_optimal dm route).
  { intros i k Hi Hik Hk. cbn in Hk.
    assert (i = 1 ∧ k = 2) as [-> ->] by lia.
    intros Hlt. vm_compute in Hlt. discriminate Hlt. }
  destruct (two_opt_never_worse (λ x, x) (Some dm) [] dm route 30)
    as ((r & (fuel0 & Hrun) & _ & Hsame) & _ & Hsolver).
  split_and!; [exact H1 | exact H2 | | exact (Hsolver H2)].
  exists r. split; [| exact (Hsame H1)].
  exists fuel0. intros fuel Hfuel. by destruct (Hrun fuel Hfuel).
Defined.

(** C10, as stated, fails for [tsp.py]: its 2-opt has no cap on the number
    of passes. On [long_run_matrix], [solve_tsp] with [time_nn] and 2-opt
    builds the nearest-neighbour route [long_run_route] and then runs 33
    passes, more than the 30 that [route_solver.py] allows; the first 32
    each lower the cost. *)
Lemma tsp_two_opt_exceeds_cap :
  RouteSolver._nearest_neighbor long_run_matrix = long_run_route ∧
  Tsp.solve_tsp (λ x, x) 40 long_run_points (Some long_run_matrix) "time_nn" true
    = Some (Ok [0; 8; 10; 6; 4; 3; 9; 11; 5; 7; 1; 2; 0]) ∧
  ∃ costs,
    Tsp._two_opt_trace (λ x, x) (Some long_run_matrix) long_run_points 40 long_run_route
      = Some ([0; 8; 10; 6; 4; 3; 9; 11; 5; 7; 1; 2; 0], costs) ∧
    costs = [4073; 3929; 3864; 3853; 3769; 3748; 3687; 3674; 3632; 3509; 3499;
             3451; 3423; 3241; 3238; 3198; 3183; 3129; 3115; 3103; 2981; 2937;
             2925; 2827; 2815; 2727; 2718; 2597; 2562; 2405; 2393; 2191; 2191]%Q ∧
    length costs = 33 ∧ 30 < length costs.
Proof.
  split_and!; [vm_compute; reflexivity | vm_compute; reflexivity |].
  eexists. split; [vm_compute; reflexivity |].
  split_and!; [reflexivity | reflexivity | cbn; lia].
Qed.

Lemma two_opt_passes_witness :
  (∃ r costs,
     (∃ fuel0, ∀ fuel, fuel0 ≤ fuel →
        Tsp._two_opt_trace (λ x, x) (Some long_run_matrix) long_run_points fuel long_run_route
        = Some (r, costs)) ∧
     1 ≤ length costs) ∧
  length (RouteSolver._two_opt_trace long_run_matrix long_run_route 30).2 ≤ 30.
Proof.
  destruct (two_opt_passes (λ x, x) (Some long_run_matrix) long_run_points long_run_matrix
              long_run_route 30) as ((r & costs & Hrun & _ & Hlen & _) & _ & Hcap).
  split; [| exact Hcap].
  exists r, costs. split; [exact Hrun | lia].
Defined.

(** * Further properties of the code *)

(** ** Timelines *)

(** X1: a timeline has one value per stop of the route (and one value for
    an empty route); a start anchor is its first value and makes the end
    anchor irrelevant; without any anchor it starts at [0]. *)
Theorem timeline_shape (route_points : list nat) (dist_mat : matrix)
    (start_min end_at : option Q) (s : Q) :
  let timeline := Pipeline._simulate_timeline route_points dist_mat start_min end_at in
  length timeline = Nat.max 1 (length route_points) ∧
  Pipeline._simulate_timeline route_points dist_mat (Some s) end_at
    = Pipeline._simulate_timeline route_points dist_mat (Some s) None ∧
  head (Pipeline._simulate_timeline route_points dist_mat (Some s) end_at) = Some s ∧
  head (Pipeline._simulate_timeline route_points dist_mat None None) = Some 0%Q.
Proof.
  intros timeline.
  destruct (timeline_values route_points dist_mat start_min end_at) as (Hlen & Hhead & Hnth).
  fold timeline in Hlen, Hhead, Hnth. split_and!.
  - rewrite Hlen, length_segments. lia.
  - done.
  - by destruct (timeline_values route_points dist_mat (Some s) end_at) as (_ & -> & _).
  - by destruct (timeline_values route_points dist_mat None None) as (_ & -> & _).
Qed.

Lemma sum_nonneg (l : list Q) :
  Forall (λ x, 0 <= x)%Q l → (0 <= foldl Qplus 0 l)%Q.
Proof.
  induction 1 as [| x l Hx _ IH]; cbn [foldl]; [lra |].
  rewrite foldl_Qplus_shift. lra.
Qed.

Lemma segments_nonneg (route_points : list nat) (dist_mat : matrix) :
  (∀ a b, (0 <= cell dist_mat a b)%Q) →
  Forall (λ x, 0 <= x)%Q (Pipeline.segments route_points dist_mat).
Proof.
  intros Hpos. unfold Pipeline.segments. apply Forall_fmap, Forall_forall.
  intros [a b] _. apply Hpos.
Qed.

Lemma prefix_sums_monotone (seg : list Q) (i j : nat) :
  Forall (λ x, 0 <= x)%Q seg → i ≤ j →
  (foldl Qplus 0 (take i seg) <= foldl Qplus 0 (take j seg))%Q.
Proof.
  intros Hpos Hij. replace j with (i + (j - i)) by lia.
  rewrite <- take_take_drop, sum_app.
  assert (0 <= foldl Qplus 0 (take (j - i) (drop i seg)))%Q; [| lra].
  apply sum_nonneg, Forall_take, Forall_drop, Hpos.
Qed.

(** X2: when no entry of the matrix is negative, the timeline never goes
    back in time: a later stop has an equal or later time. *)
Theorem timeline_monotone (route_points : list nat) (dist_mat : matrix)
    (start_min end_at : option Q) (i j : nat) (x y : Q) :
  (∀ a b, (0 <= cell dist_mat a b)%Q) →
  let timeline := Pipeline._simulate_timeline route_points dist_mat start_min end_at in
  i ≤ j → timeline !! i = Some x → timeline !! j = Some y → (x <= y)%Q.
Proof.
  intros Hpos timeline Hij Hx Hy.
  destruct (timeline_values route_points dist_mat start_min end_at) as (Hlen & _ & Hnth).
  fold timeline in Hlen, Hnth.
  apply lookup_lt_Some in Hx as Hi. apply lookup_lt_Some in Hy as Hj.
  destruct (Hnth i ltac:(lia)) as (x' & Hx' & Hxv).
  destruct (Hnth j ltac:(lia)) as (y' & Hy' & Hyv).
  assert (x' = x) as -> by congruence. assert (y' = y) as -> by congruence.
  rewrite Hxv, Hyv.
  pose proof (prefix_sums_monotone _ i j (segments_nonneg route_points dist_mat Hpos) Hij).
  lra.
Qed.

Lemma timeline_monotone_witness :
  let dm := of_rows [[0; 5]; [7; 0]]%Q in
  (∀ a b, (0 <= cell dm a b)%Q) ∧
  Pipeline._simulate_timeline [0; 1; 0] dm None (Some 540%Q) !! 0 = Some (540 - (0 + 5 + 7))%Q ∧
  (540 - (0 + 5 + 7) <= 540 - (0 + 5 + 7) + 5)%Q.
Proof.
  intros dm.
  assert (Hpos : ∀ a b, (0 <= cell dm a b)%Q).
  { intros a b. destruct a as [| [| [| a]]]; destruct b as [| [| [| b]]]; cbn; done. }
  split_and!; [exact Hpos | reflexivity |].
  apply (timeline_monotone [0; 1; 0] dm None (Some 540%Q) 0 1 _ _ Hpos);
    [lia | reflexivity | reflexivity].
Defined.

(** ** Nearest neighbour *)

Lemma py_min_split_gen (key : nat → Q) (l1 l2 xs : list nat) (b : nat) :
  Forall (λ y, key b < key y)%Q l1 → Forall (λ y, key b <= key y)%Q l2 →
  ∃ l1' l2', l1 ++ b :: l2 ++ xs = l1' ++ py_min key b xs :: l2' ∧
    Forall (λ y, key (py_min key b xs) < key y)%Q l1' ∧
    Forall (λ y, key (py_min key b xs) <= key y)%Q l2'.
Proof.
  unfold py_min. revert l1 l2 b. induction xs as [| y xs IH]; intros l1 l2 b H1 H2.
  - exists l1, l2. by rewrite app_nil_r.
  - cbn [foldl]. destruct (Qlt_le_dec (key y) (key b)) as [Hlt | Hle].
    + destruct (IH (l1 ++ b :: l2) [] y) as (l1' & l2' & Heq & H1' & H2').
      * apply Forall_app. split; [| apply Forall_cons; split].
        -- eapply Forall_impl; [exact H1 |]. intros z Hz. cbn in Hz. lra.
        -- done.
        -- eapply Forall_impl; [exact H2 |]. intros z Hz. cbn in Hz. lra.
      * done.
      * exists l1', l2'. split; [| done]. rewrite <- Heq, <- app_assoc. done.
    + destruct (IH l1 (l2 ++ [y]) b) as (l1' & l2' & Heq & H1' & H2').
      * done.
      * apply Forall_app. split; [done |]. by apply Forall_singleton.
      * exists l1', l2'. split; [| done]. rewrite <- Heq, <- app_assoc. done.
Qed.

Lemma StronglySorted_lt_seq (a k : nat) : StronglySorted lt (seq a k).
Proof.
  revert a. induction k as [| k IH]; intros a; cbn; constructor; [apply IH |].
  apply Forall_forall. intros y Hy. apply elem_of_seq in Hy. lia.
Qed.

Lemma StronglySorted_lt_set_remove (x : nat) (s : list nat) :
  StronglySorted lt s → StronglySorted lt (set_remove x s).
Proof.
  unfold set_remove. induction 1 as [| y s Hs IH Hy]; [constructor |].
  rewrite filter_cons. destruct (decide (y ≠ x)); [| done].
  constructor; [done |]. apply Forall_forall. intros z Hz.
  apply list_elem_of_filter in Hz as [_ Hz]. rewrite Forall_forall in Hy. by apply Hy.
Qed.

Lemma py_min_nearest (key : nat → Q) (x : nat) (xs : list nat) :
  StronglySorted lt (x :: xs) →
  Forall (λ y, (key (py_min key x xs) < key y)%Q
               ∨ ((key (py_min key x xs) <= key y)%Q ∧ py_min key x xs < y))
         (set_remove (py_min key x xs) (x :: xs)).
Proof.
  intros Hsorted.
  destruct (py_min_split_gen key [] [] xs x) as (l1 & l2 & Heq & H1 & H2); [done | done |].
  cbn [app] in Heq. set (m := py_min key x xs) in *. rewrite Heq in Hsorted |- *.
  apply StronglySorted_app_1_r, StronglySorted_inv in Hsorted as [_ Hgt].
  apply Forall_forall. intros y Hy. unfold set_remove in Hy.
  apply list_elem_of_filter in Hy as [Hne Hy].
  apply elem_of_app in Hy as [Hy | Hy].
  - left. rewrite Forall_forall in H1. by apply H1.
  - apply elem_of_cons in Hy as [-> | Hy]; [done |]. right.
    rewrite Forall_forall in H2, Hgt. split; [by apply H2 | by apply Hgt].
Qed.

Lemma nn_loop_greedy (key : nat → nat → Q) (fuel : nat) (unvisited : list nat)
    (cur : nat) (route : list nat) :
  StronglySorted lt unvisited → NoDup unvisited → length unvisited = fuel →
  ∃ p, Tsp.nn_loop key fuel unvisited cur route = route ++ p ∧ p ≡ₚ unvisited ∧
       greedy key cur p.
Proof.
  revert unvisited cur route.
  induction fuel as [| fuel IH]; intros unvisited cur route Hsorted Hnd Hlen.
  - destruct unvisited; [| done]. exists []. by rewrite app_nil_r.
  - destruct unvisited as [| x xs]; [done |]. cbn [Tsp.nn_loop].
    pose proof (py_min_nearest (key cur) x xs Hsorted) as Hnear.
    set (nxt := py_min (key cur) x xs) in *.
    pose proof (py_min_in (key cur) x xs) as Hin. fold nxt in Hin.
    pose proof (set_remove_perm nxt (x :: xs) Hnd Hin) as Hperm.
    destruct (IH (set_remove nxt (x :: xs)) nxt (route ++ [nxt])) as (p & Hp & Hpp & Hg).
    + by apply StronglySorted_lt_set_remove.
    + unfold set_remove. by apply NoDup_filter.
    + apply Permutation_length in Hperm. rewrite !length_cons in Hperm.
      rewrite length_cons in Hlen. lia.
    + exists (nxt :: p). split_and!.
      * rewrite Hp, <- app_assoc. done.
      * rewrite Hperm. by apply Permutation_skip.
      * cbn [greedy]. split; [by rewrite Hpp | done].
Qed.

(** X3: the nearest-neighbour construction is greedy: the route is the
    depot, then the pickups in an order where each leg goes to a nearest
    pickup among those not yet visited (the lowest index among equally near
    ones), then the depot; in [route_solver.py] by matrix entry, in [tsp.py]
    by the distance its method selects. *)
Theorem nearest_neighbour_greedy (fsqrt : Q → Q) (points : list point)
    (dist_mat : option matrix) (dm : matrix) (method : string) (fuel : nat) :
  let n := length points in
  2 ≤ n →
  method = "euclid_nn" ∨ (method = "time_nn" ∧ dist_mat = Some dm) →
  nrows dm = n → ncols dm = n →
  (∃ p, RouteSolver._nearest_neighbor dm = [0] ++ p ++ [0] ∧ p ≡ₚ seq 1 (n - 1) ∧
        greedy (cell dm) 0 p) ∧
  (∃ p, Tsp.solve_tsp fsqrt fuel points dist_mat method false = Some (Ok ([0] ++ p ++ [0])) ∧
        p ≡ₚ seq 1 (n - 1) ∧
        greedy (Tsp.edge fsqrt (if String.eqb method "time_nn" then dist_mat else None) points)
               0 p).
Proof.
  intros n Hn Hmethod Hrows Hcols. split.
  - unfold RouteSolver._nearest_neighbor. rewrite Hrows, solver_nn_loop_eq.
    destruct (nn_loop_greedy (cell dm) (length (seq 1 (n - 1))) (seq 1 (n - 1)) 0 [0])
      as (p & -> & Hp & Hg); [apply StronglySorted_lt_seq | apply NoDup_seq | done |].
    exists p. by rewrite <- app_assoc.
  - unfold Tsp.solve_tsp. fold n.
    destruct (n =? 0) eqn:E0; [apply Nat.eqb_eq in E0; lia |].
    destruct (n =? 1) eqn:E1; [apply Nat.eqb_eq in E1; lia |].
    set (key := λ cur i : nat, if String.eqb method "euclid_nn" then _ else _).
    destruct (nn_loop_greedy key (length (seq 1 (n - 1))) (seq 1 (n - 1)) 0 [0])
      as (p & Hrun & Hp & Hg); [apply StronglySorted_lt_seq | apply NoDup_seq | done |].
    rewrite Hrun. exists p.
    destruct Hmethod as [-> | [-> ->]].
    + cbn. by split_and!.
    + cbn [String.eqb]. rewrite Hrows, Hcols, Nat.eqb_refl. cbn. by split_and!.
Qed.

Lemma nearest_neighbour_greedy_witness :
  let points := [(0, 0); (1, 0); (0, 1); (1, 1)]%Q in
  let dm := of_rows [[0; 4; 4; 3]; [4; 0; 8; 5]; [4; 8; 0; 5]; [3; 5; 5; 0]]%Q in
  2 ≤ length points ∧
  ("time_nn" = "euclid_nn" ∨ ("time_nn" = "time_nn" ∧ Some dm = Some dm)) ∧
  nrows dm = length points ∧ ncols dm = length points ∧
  ∃ p, RouteSolver._nearest_neighbor dm = [0] ++ p ++ [0] ∧ greedy (cell dm) 0 p.
Proof.
  intros points dm.
  assert (H1 : 2 ≤ length points) by (cbn; lia).
  assert (H2 : "time_nn" = "euclid_nn" ∨ ("time_nn" = "time_nn" ∧ Some dm = Some dm))
    by (right; split; reflexivity).
  assert (H3 : nrows dm = length points) by reflexivity.
  assert (H4 : ncols dm = length points) by reflexivity.
  destruct (nearest_neighbour_greedy (λ x, x) points (Some dm) dm "time_nn" 0 H1 H2 H3 H4)
    as ((p & Hroute & _ & Hg) & _).
  split_and!; [exact H1 | exact H2 | exact H3 | exact H4 |].
  exists p. split; [exact Hroute | exact Hg].
Defined.

(** ** 2-opt: what the reversals can and cannot change *)

Lemma length_reverse_segment (best : list nat) (i j : nat) :
  i ≤ j → j ≤ length best → length (reverse_segment best i j) = length best.
Proof.
  intros Hij Hj. unfold reverse_segment.
  rewrite !length_app, length_reverse, !length_take, !length_drop. lia.
Qed.

Lemma lookup_reverse_segment_after (best : list nat) (i j k : nat) :
  i ≤ j → j ≤ k → j ≤ length best → reverse_segment best i j !! k = best !! k.
Proof.
  intros Hij Hjk Hj. unfold reverse_segment. rewrite app_assoc.
  rewrite lookup_app_r; rewrite length_app, length_reverse, !length_take, length_drop;
    [| lia].
  rewrite lookup_drop. f_equal. lia.
Qed.

Section TwoOptMoves.
Variable P : list nat → Prop.

(** Whatever the reversals tried by [tsp.py]'s 2-opt preserve, its result
    has. *)
Lemma tsp_two_opt_preserves (fsqrt : Q → Q) (dist_mat : option matrix)
    (points : list point) (route : list nat) :
  (∀ b i j, length b = length route → P b → 1 ≤ i → i + 2 ≤ j → j + 2 ≤ length b →
     P (reverse_segment b i j)) →
  P route →
  ∀ fuel c r costs,
    Tsp.two_opt_loop fsqrt dist_mat points fuel route c = Some (r, costs) → P r.
Proof.
  intros Hmove Hroute fuel.
  set (L := length route).
  assert (Hgen : ∀ best c r costs, P best → length best = L →
            Tsp.two_opt_loop fsqrt dist_mat points fuel best c = Some (r, costs) → P r);
    [| intros c r costs; by apply Hgen].
  induction fuel as [| fuel IH]; intros best c r costs HP Hlen Hrun; [done |].
  cbn [Tsp.two_opt_loop] in Hrun.
  assert (Hpass : let st := Tsp.pass fsqrt dist_mat points best c in
                  P st.1.1 ∧ length st.1.1 = L).
  { unfold Tsp.pass. apply (foldl_invariant (λ st, P st.1.1 ∧ length st.1.1 = L)); [done |].
    intros st i Hi [HPst Hlst]. apply elem_of_seq in Hi. unfold Tsp.outer_step.
    apply (foldl_invariant (λ st, P st.1.1 ∧ length st.1.1 = L)); [done |].
    intros [[b bc] imp] j Hj [HPb Hlb]. apply elem_of_seq in Hj. cbn [fst snd] in *.
    unfold Tsp.inner_step. destruct (j - i =? 1) eqn:Hd; [done |].
    apply Nat.eqb_neq in Hd. destruct (Qlt_le_dec _ _); [| done]. cbn [fst snd]. split.
    - apply Hmove; [done | done | lia | lia | lia].
    - rewrite length_reverse_segment; [done | lia | lia]. }
  destruct (Tsp.pass fsqrt dist_mat points best c) as [[b' c'] improved].
  cbn [fst snd] in Hpass. destruct Hpass as [HP' Hlen']. destruct improved.
  - destruct (Tsp.two_opt_loop fsqrt dist_mat points fuel b' c') as [[r' costs'] |] eqn:Hrec;
      cbn [mbind option_bind] in Hrun; [| done].
    injection Hrun as <- <-. by apply (IH b' c' r' costs').
  - by injection Hrun as <- <-.
Qed.

(** The same for [route_solver.py]'s 2-opt. *)
Lemma solver_two_opt_preserves (dist_mat : matrix) (route : list nat) (max_passes : nat) :
  (∀ b i k, length b = length route → P b → 1 ≤ i → i < k → k + 3 ≤ length b →
     P (reverse_segment b i (k + 1))) →
  P route → P (RouteSolver._two_opt dist_mat route max_passes).
Proof.
  intros Hmove Hroute. unfold RouteSolver._two_opt, RouteSolver._two_opt_trace.
  set (L := length route). generalize (RouteSolver._route_cost route dist_mat) as c.
  assert (Hgen : ∀ budget best c, P best → length best = L →
            P (RouteSolver.two_opt_loop dist_mat L budget best c).1);
    [| intros c; by apply Hgen].
  induction budget as [| budget IH]; intros best c HP Hlen; [done |].
  cbn [RouteSolver.two_opt_loop].
  assert (Hpass : let st := RouteSolver.pass dist_mat L best c in
                  P st.1.1 ∧ length st.1.1 = L).
  { unfold RouteSolver.pass.
    apply (foldl_invariant (λ st, P st.1.1 ∧ length st.1.1 = L)); [done |].
    intros st i Hi [HPst Hlst]. apply elem_of_seq in Hi. unfold RouteSolver.outer_step.
    apply (foldl_invariant (λ st, P st.1.1 ∧ length st.1.1 = L)); [done |].
    intros [[b bc] imp] k Hk [HPb Hlb]. apply elem_of_seq in Hk. cbn [fst snd] in *.
    unfold RouteSolver.inner_step. destruct (Qlt_le_dec _ _); [| done]. cbn [fst snd]. split.
    - apply Hmove; [done | done | lia | lia | lia].
    - rewrite length_reverse_segment; [done | lia | lia]. }
  destruct (RouteSolver.pass dist_mat L best c) as [[b' c'] improved].
  cbn [fst snd] in Hpass. destruct Hpass as [HP' Hlen']. destruct improved; [| done].
  specialize (IH b' c' HP' Hlen').
  by destruct (RouteSolver.two_opt_loop dist_mat L budget b' c').
Qed.

End TwoOptMoves.

(** X4: neither 2-opt ever moves the stop visited last before the return to
    the depot: the value at position [len(route) - 2] of the result is the
    one of the input, whatever the costs. *)
Theorem two_opt_keeps_last_pickup (fsqrt : Q → Q) (dist_mat : option matrix)
    (points : list point) (dm : matrix) (route : list nat) (max_passes fuel : nat)
    (r : list nat) :
  Tsp._two_opt fsqrt dist_mat points fuel route = Some r →
  r !! (length route - 2) = route !! (length route - 2) ∧
  RouteSolver._two_opt dm route max_passes !! (length route - 2)
    = route !! (length route - 2).
Proof.
  intros Hrun. split.
  - unfold Tsp._two_opt, Tsp._two_opt_trace in Hrun.
    destruct (Tsp.two_opt_loop _ _ _ _ _ _) as [[r' costs] |] eqn:Hloop; [| done].
    injection Hrun as ->.
    apply (tsp_two_opt_preserves
             (λ b, b !! (length route - 2) = route !! (length route - 2))
             fsqrt dist_mat points route) with (fuel := fuel)
             (c := Tsp._route_cost fsqrt route dist_mat points) (costs := costs);
      [| done | done].
    intros b i j Hlen Hb Hi Hij Hj. rewrite lookup_reverse_segment_after; [done | lia..].
  - apply (solver_two_opt_preserves
             (λ b, b !! (length route - 2) = route !! (length route - 2))); [| done].
    intros b i k Hlen Hb Hi Hik Hk. rewrite lookup_reverse_segment_after; [done | lia..].
Qed.

Lemma two_opt_keeps_last_pickup_witness :
  let dm := of_rows [[0; 9; 1; 9; 9; 9]; [9; 0; 9; 1; 9; 9]; [9; 1; 0; 9; 9; 9];
                     [9; 9; 9; 0; 1; 9]; [9; 9; 9; 9; 0; 1]; [1; 9; 9; 9; 9; 0]]%Q in
  let route := [0; 1; 2; 3; 4; 5; 0] in
  Tsp._two_opt (λ x, x) (Some dm) [] 10 route = Some [0; 2; 1; 3; 4; 5; 0] ∧
  [0; 2; 1; 3; 4; 5; 0] !! 5 = route !! 5 ∧
  RouteSolver._two_opt dm route 30 !! 5 = route !! 5.
Proof.
  intros dm route.
  assert (Hrun : Tsp._two_opt (λ x, x) (Some dm) [] 10 route = Some [0; 2; 1; 3; 4; 5; 0])
    by (vm_compute; reflexivity).
  split; [exact Hrun |].
  exact (two_opt_keeps_last_pickup (λ x, x) (Some dm) [] dm route 30 10 _ Hrun).
Defined.

(** ** Tabu search *)

Lemma lookup_nth_lt {A : Type} (l : list A) (i : nat) (d : A) :
  i < length l → l !! i = Some (nth i l d).
Proof. intros Hi. destruct (nth_lookup_or_length l i d); [done | lia]. Qed.

Lemma swap_keeps (r : list nat) (i k : nat) :
  1 ≤ i → 1 ≤ k → i + 1 < length r → k + 1 < length r →
  keeps r (<[k := nth i r 0]> (<[i := nth k r 0]> r)).
Proof.
  intros Hi Hk Hil Hkl. split_and!.
  - apply Permutation_insert_swap; apply lookup_nth_lt; lia.
  - rewrite !head_lookup, !list_lookup_insert_ne by lia. done.
  - rewrite !last_lookup, !length_insert, !list_lookup_insert_ne by lia. done.
Qed.

Section Tabu.
Context {rng : Type}.
Variable Random : Z → rng.
Variable randrange : rng → nat → nat → nat * rng.
Hypothesis randrange_in_range : ∀ g a b, a < b → a ≤ (randrange g a b).1 < b.
Variable dist_mat : matrix.

Abbreviation tcost' := (λ r, RouteSolver._route_cost r dist_mat).

Lemma neighbors_keeps (n : nat) (g : rng) (r cand : list nat) (move : nat * nat) (g' : rng) :
  n = length r → 6 ≤ n →
  RouteSolver.neighbors randrange n g r = (Some (cand, move), g') → keeps r cand.
Proof using randrange_in_range.
  intros Hn Hlen. unfold RouteSolver.neighbors.
  pose proof (randrange_in_range g 1 (n - 2) ltac:(lia)) as Hi.
  destruct (randrange g 1 (n - 2)) as [i g1]. cbn [fst] in Hi.
  pose proof (randrange_in_range g1 1 (n - 2) ltac:(lia)) as Hk.
  destruct (randrange g1 1 (n - 2)) as [k g2]. cbn [fst] in Hk.
  destruct (i =? k); [done |].
  destruct (k <? i); intros [= <- _ _]; apply swap_keeps; lia.
Qed.

Lemma tabu_step_inv (route : list nat) (tenure : nat) (s : RouteSolver.tabu_state) (t : nat) :
  6 ≤ length route →
  let inv := λ s : RouteSolver.tabu_state,
    keeps route (RouteSolver.ts_best s) ∧ keeps route (RouteSolver.ts_cur s) ∧
    RouteSolver.ts_best_cost s = tcost' (RouteSolver.ts_best s) ∧
    (tcost' (RouteSolver.ts_best s) <= tcost' route)%Q in
  inv s → inv (RouteSolver.tabu_step randrange dist_mat (length route) tenure s t).
Proof using randrange_in_range.
  intros Hlen inv (Hb & Hc & Hbc & Hle). unfold RouteSolver.tabu_step.
  pose proof (neighbors_keeps (length route) (RouteSolver.ts_rng s) (RouteSolver.ts_cur s)) as Hn.
  destruct (RouteSolver.neighbors randrange (length route) _ _) as [[[cand move] |] g'].
  - specialize (Hn cand move g' ltac:(by rewrite (keeps_length _ _ Hc)) Hlen eq_refl).
    pose proof (keeps_trans _ _ _ Hc Hn) as Hcand.
    destruct (negb _ || _); [| done].
    destruct (Qlt_le_dec _ _) as [Hlt | _]; unfold inv;
      cbn [RouteSolver.ts_best RouteSolver.ts_cur RouteSolver.ts_best_cost].
    + split_and!; try done. rewrite Hbc in Hlt. lra.
    + by split_and!.
  - done.
Qed.

(** X5: given a [randrange] that answers within its bounds, tabu search
    returns a rearrangement of the route with the same first and last stop
    that costs no more than the route; as the improvement of
    [route_solver.solve_tsp] it therefore returns a tour. *)
Theorem tabu_search_returns_tour (points : list point) (route : list nat)
    (seed : Z) (iters tabu_tenure : nat) :
  let r := RouteSolver._tabu_search Random randrange dist_mat route seed iters tabu_tenure in
  keeps route r ∧ (tcost' r <= tcost' route)%Q ∧
  (1 ≤ length points → nrows dist_mat = length points →
   tour_ok (length points)
     (RouteSolver.solve_tsp Random randrange points dist_mat (Some "tabu") seed iters)).
Proof using randrange_in_range.
  assert (Hgen : ∀ route iters tenure,
            let r := RouteSolver._tabu_search Random randrange dist_mat route seed iters tenure in
            keeps route r ∧ (tcost' r <= tcost' route)%Q).
  { clear route iters tabu_tenure. intros route iters tenure. unfold RouteSolver._tabu_search.
    destruct (length route <? 6) eqn:Hlen.
    - unfold RouteSolver._two_opt, RouteSolver._two_opt_trace.
      destruct (RouteSolver.two_opt_loop dist_mat _ 10 _ _) as [r costs] eqn:Hrun.
      by destruct (solver_loop_sound dist_mat _ _ _ _ Hrun) as (Hk & Hle & _).
    - apply Nat.ltb_ge in Hlen.
      pose proof (foldl_invariant _ (RouteSolver.tabu_step randrange dist_mat (length route) tenure)
                    (seq 0 iters)
                    (RouteSolver.TabuState (Random seed) route (tcost' route) route
                       (tcost' route) ∅)
                    (conj (keeps_refl route)
                       (conj (keeps_refl route) (conj eq_refl (Qle_refl _))))
                    (λ s t _ Hs, tabu_step_inv route tenure s t Hlen Hs)) as (Hb & _ & _ & Hle).
      done. }
  intros r. destruct (Hgen route iters tabu_tenure) as [Hk Hle]. split_and!; [done | done |].
  intros Hn Hrows. unfold RouteSolver.solve_tsp.
  destruct (length points <=? 1) eqn:E1.
  { apply Nat.leb_le in E1. assert (length points = 1) as -> by lia.
    unfold tour_ok. split_and!; try done. intros i Hi. lia. }
  assert (Hroute : tour_ok (length points) (RouteSolver._nearest_neighbor dist_mat)).
  { unfold RouteSolver._nearest_neighbor. rewrite Hrows, solver_nn_loop_eq.
    by apply nn_route_ok. }
  change (String.eqb "tabu" "none") with false.
  change (String.eqb "tabu" "two_opt") with false.
  change (String.eqb "tabu" "tabu") with true. cbn iota.
  destruct (Hgen (RouteSolver._nearest_neighbor dist_mat) iters 20) as [Hk' _].
  by apply (tour_ok_keeps _ (RouteSolver._nearest_neighbor dist_mat)).
Qed.

End Tabu.

Lemma tabu_search_returns_tour_witness :
  let randrange := λ (g a b : nat), (a + g mod (b - a), S g) in
  let dm := of_rows [[0; 9; 1; 9; 9; 9]; [9; 0; 9; 1; 9; 9]; [9; 1; 0; 9; 9; 9];
                     [9; 9; 9; 0; 1; 9]; [9; 9; 9; 9; 0; 1]; [1; 9; 9; 9; 9; 0]]%Q in
  let route := [0; 1; 2; 3; 4; 5; 0] in
  (∀ g a b, a < b → a ≤ (randrange g a b).1 < b) ∧
  keeps route (RouteSolver._tabu_search Z.to_nat randrange dm route 7 50 20) ∧
  tour_ok 6 (RouteSolver.solve_tsp Z.to_nat randrange (replicate 6 (0, 0)%Q) dm
               (Some "tabu") 7 50).
Proof.
  intros randrange dm route.
  assert (Hrange : ∀ g a b, a < b → a ≤ (randrange g a b).1 < b).
  { intros g a b Hab. cbn. pose proof (Nat.mod_upper_bound g (b - a) ltac:(lia)). lia. }
  destruct (tabu_search_returns_tour Z.to_nat randrange Hrange dm
              (replicate 6 (0, 0)%Q) route 7 50 20) as (Hk & _ & Htour).
  split_and!; [exact Hrange | exact Hk |].
  apply Htour; [cbn; lia | reflexivity].
Defined.

(** ** The sequencer of [tsp.py]: errors and unused inputs *)

(** X6: [solve_tsp] raises exactly when it holds at least two points and
    either the method is unknown or the method is [time_nn] and the matrix is
    absent or not of shape [(n, n)]; what it raises is a [ValueError]; an
    empty point set gives the empty route. *)
Theorem solve_tsp_raises_iff (fsqrt : Q → Q) (fuel : nat) (points : list point)
    (dist_mat : option matrix) (method : string) (improve_2opt : bool) :
  let n := length points in
  let run := Tsp.solve_tsp fsqrt fuel points dist_mat method improve_2opt in
  ((∃ e, run = Some (Raise e)) ↔
   2 ≤ n ∧ ((method ≠ "euclid_nn" ∧ method ≠ "time_nn") ∨
            (method = "time_nn" ∧
             match dist_mat with
             | None => True
             | Some m => nrows m ≠ n ∨ ncols m ≠ n
             end))) ∧
  (∀ e, run = Some (Raise e) → ∃ msg, e = ValueError msg) ∧
  (n = 0 → run = Some (Ok [])).
Proof.
  intros n run. unfold run, Tsp.solve_tsp. fold n.
  destruct (n =? 0) eqn:E0.
  { apply Nat.eqb_eq in E0. split_and!; [| done | done].
    split; [by intros [e He] | intros [Hn _]; lia]. }
  destruct (n =? 1) eqn:E1.
  { apply Nat.eqb_eq in E1. split_and!; [| done | intros; lia].
    split; [by intros [e He] | intros [Hn _]; lia]. }
  apply Nat.eqb_neq in E0, E1.
  destruct (String.eqb method "euclid_nn") eqn:Eeu.
  { apply String.eqb_eq in Eeu. subst method. cbn.
    split_and!; [| | intros; lia].
    - split.
      + intros [e He]. by destruct (improve_2opt && _); [destruct (Tsp._two_opt _ _ _ _ _) |].
      + intros [_ [[? _] | [? _]]]; done.
    - intros e He. by destruct (improve_2opt && _); [destruct (Tsp._two_opt _ _ _ _ _) |]. }
  destruct (String.eqb method "time_nn") eqn:Etm; cbn [orb negb].
  - apply String.eqb_eq in Etm. subst method.
    destruct dist_mat as [m |].
    + destruct ((nrows m =? n) && (ncols m =? n)) eqn:Eshape.
      * apply andb_true_iff in Eshape as [Hr Hc].
        apply Nat.eqb_eq in Hr, Hc. split_and!; [| | intros; lia].
        -- split.
           ++ intros [e He]. by destruct (improve_2opt && _); [destruct (Tsp._two_opt _ _ _ _ _) |].
           ++ intros [_ [[_ ?] | [_ [? | ?]]]]; done.
        -- intros e He. by destruct (improve_2opt && _); [destruct (Tsp._two_opt _ _ _ _ _) |].
      * apply andb_false_iff in Eshape. split_and!; [| | intros; lia].
        -- split; [| by eexists]. intros _. split; [lia |]. right. split; [done |].
           destruct Eshape as [H | H]; apply Nat.eqb_neq in H; tauto.
        -- intros e [= <-]. by eexists.
    + split_and!; [| | intros; lia].
      * split; [| by eexists]. intros _. split; [lia |]. by right.
      * intros e [= <-]. by eexists.
  - apply String.eqb_neq in Eeu, Etm. split_and!; [| | intros; lia].
    + split; [| by eexists]. intros _. split; [lia |]. by left.
    + intros e [= <-]. by eexists.
Qed.


(** ** Partition by distance to the center *)

Lemma concat_blocks_prefix {A : Type} (l : list A) (c m : nat) :
  0 < c →
  concat (block l c <$> seq 0 (Nat.min (ceil_div (length l) c) m))
  = take (Nat.min (length l) (c * m)) l.
Proof.
  intros Hc. rewrite concat_blocks.
  destruct (ceil_div_bounds (length l) c Hc) as [Hup Hlow].
  destruct (decide (ceil_div (length l) c ≤ m)) as [Hle | Hgt].
  - rewrite Nat.min_l by done.
    assert (length l ≤ c * m) by nia.
    rewrite !take_ge; [done | lia | lia].
  - assert (Hl : (ceil_div (length l) c - 1) * c < length l) by (apply Hlow; lia).
    rewrite Nat.min_r by lia. f_equal. nia.
Qed.

Lemma StronglySorted_on {A : Type} (R R' : relation A) (Pel : A → Prop) (l : list A) :
  (∀ x y, Pel x → Pel y → R x y → R' x y) →
  Forall Pel l → StronglySorted R l → StronglySorted R' l.
Proof.
  intros Himpl Hall Hs. induction Hs as [| x l Hs IH Hx]; [constructor |].
  apply Forall_cons in Hall as [Hpx Hall]. constructor; [by apply IH |].
  rewrite Forall_forall in Hx, Hall |- *. intros y Hy. apply Himpl; auto.
Qed.

Lemma StronglySorted_take {A : Type} (R : relation A) (l : list A) (k : nat) :
  StronglySorted R l → StronglySorted R (take k l).
Proof.
  intros Hs. revert k. induction Hs as [| x l Hs IH Hx]; intros [| k]; cbn;
    try constructor; [apply IH | by apply Forall_take].
Qed.

Lemma omap_ext_in {A B : Type} (f g : A → option B) (l : list A) :
  (∀ x, x ∈ l → f x = g x) → omap f l = omap g l.
Proof.
  induction l as [| x l IH]; intros Hfg; [done |]. cbn [omap list_omap].
  rewrite (Hfg x) by by left. rewrite IH; [done |]. intros y Hy. apply Hfg. by right.
Qed.

Lemma omap_lookup_seq {A : Type} (l : list A) :
  omap (λ i, l !! i) (seq 0 (length l)) = l.
Proof.
  induction l as [| x l IH] using rev_ind; [done |].
  rewrite length_app. cbn [length]. rewrite Nat.add_1_r, seq_S, omap_app. cbn [omap list_omap].
  rewrite lookup_app_r, Nat.sub_diag by lia. cbn. f_equal.
  rewrite <- IH at 2. apply omap_ext_in.
  intros i Hi. apply elem_of_seq in Hi. by rewrite lookup_app_l by lia.
Qed.

#[local] Instance pos_le_total : Total pos_le.
Proof.
  intros x y. unfold pos_le.
  destruct (Qlt_le_dec y.1 x.1) as [H | H]; [right; by apply Qlt_le_weak | by left].
Qed.

#[local] Instance pos_le_trans : Transitive pos_le.
Proof. intros x y z. unfold pos_le. apply Qle_trans. Qed.

(** The sort that keeps equal keys in their order is one of the sorts that
    [argsort] may be. *)
Lemma stable_argsort_ok : argsort_ok stable_argsort.
Proof.
  intros keys. unfold stable_argsort.
  set (pairs := zip keys (seq 0 (length keys))).
  assert (Hpairs : Forall (λ x : Q * nat, x.1 = nth x.2 keys 0%Q) pairs).
  { apply Forall_forall. intros [k i] Hin. unfold pairs in Hin.
    apply elem_of_lookup_zip_with in Hin as (j & k' & i' & [= <- <-] & Hk & Hi).
    apply lookup_seq in Hi as [-> _]. cbn. symmetry. by apply nth_lookup_Some. }
  split.
  - rewrite merge_sort_Permutation. unfold pairs. rewrite snd_zip; [done |].
    by rewrite length_seq.
  - apply (StronglySorted_fmap snd (λ x y : Q * nat, nth x.2 keys 0 <= nth y.2 keys 0)%Q);
      [done |].
    apply (StronglySorted_on pos_le _ (λ x : Q * nat, x.1 = nth x.2 keys 0%Q)).
    + intros x y Hx Hy. unfold pos_le. by rewrite Hx, Hy.
    + by rewrite merge_sort_Permutation.
    + apply StronglySorted_merge_sort; apply _.
Qed.

Lemma sort_values_pairs {A : Type} (argsort : list Q → list nat) (keyed : list (Q * A)) :
  argsort_ok argsort →
  let ps := omap (λ i, keyed !! i) (argsort keyed.*1) in
  ps ≡ₚ keyed ∧ StronglySorted (λ x y : Q * A, x.1 <= y.1)%Q ps ∧
  Clustering.sort_values argsort keyed = ps.*2.
Proof.
  intros Hok ps. destruct (Hok keyed.*1) as [Hperm Hsorted]. split_and!.
  - unfold ps. rewrite Hperm, length_fmap. by rewrite omap_lookup_seq.
  - unfold ps. clear Hperm. induction Hsorted as [| i l Hs IH Hi]; [constructor |].
    cbn [omap list_omap]. destruct (keyed !! i) as [x |] eqn:Hx; [| exact IH].
    constructor; [exact IH |].
    apply Forall_forall. intros y Hin.
    apply list_elem_of_omap in Hin as (j & Hj & Hy).
    eapply Forall_forall in Hi; [| exact Hj].
    rewrite (nth_lookup_Some _ _ 0%Q x.1), (nth_lookup_Some _ _ 0%Q y.1) in Hi; [exact Hi | |].
    + by rewrite list_lookup_fmap, Hy.
    + by rewrite list_lookup_fmap, Hx.
  - unfold Clustering.sort_values, ps. by rewrite list_fmap_omap.
Qed.

Section CenterDist.
Variables radians sin cos arcsin sqrt : Q → Q.
Context {A : Type}.
Variable get : A → string → Q.
Variable argsort : list Q → list nat.
Variables center_lat center_lon : Q.
Variables lat_col lon_col : string.

Hypothesis argsort_sorts : argsort_ok argsort.

Abbreviation dist := (λ r : A,
  Clustering._haversine_km radians sin cos arcsin sqrt center_lat center_lon
    (get r lat_col) (get r lon_col)).
Abbreviation keyed := (λ g : list A, (λ r, (dist r, r)) <$> g).

Lemma sort_values_sorted (g : list A) :
  Clustering.sort_values argsort (keyed g) ≡ₚ g ∧
  StronglySorted (λ r1 r2, dist r1 <= dist r2)%Q (Clustering.sort_values argsort (keyed g)).
Proof using argsort_sorts.
  destruct (sort_values_pairs argsort (keyed g) argsort_sorts) as (Hperm & Hsorted & ->).
  set (ps := omap _ _) in *. split.
  - rewrite Hperm, <- list_fmap_compose. by rewrite list_fmap_id.
  - apply (StronglySorted_fmap snd (λ x y : Q * A, dist x.2 <= dist y.2)%Q); [done |].
    apply (StronglySorted_on (λ x y : Q * A, x.1 <= y.1)%Q _ (λ x, x.1 = dist x.2)).
    + intros x y Hx Hy. by rewrite Hx, Hy.
    + rewrite Hperm. apply Forall_fmap, Forall_forall. done.
    + exact Hsorted.
Qed.

(** X7: under the center-distance-first strategy, with a positive capacity
    and vehicle cap, and a sort that orders the rows by their distance to
    the center in whatever way it arranges rows of equal distance, the
    groups are the consecutive blocks of the ordered requests: the requests
    come group after group in non-decreasing distance, no request is placed
    twice, and the requests left out are at least as far as every one that
    is placed. *)
Theorem center_dist_partition (g : list A) (cap max_bus : Z) (seed : Z) :
  (0 < cap)%Z → (0 < max_bus)%Z →
  let cn := Z.to_nat cap in
  let mn := Z.to_nat max_bus in
  ∃ sorted groups,
    Clustering.split_requests_into_buses radians sin cos arcsin sqrt get argsort g
      center_lat center_lon cap max_bus lat_col lon_col "center_dist" seed = Ok groups ∧
    sorted ≡ₚ g ∧
    StronglySorted (λ r1 r2, dist r1 <= dist r2)%Q sorted ∧
    groups = block sorted cn <$> seq 0 (Nat.min (ceil_div (length g) cn) mn) ∧
    concat groups = take (Nat.min (length g) (cn * mn)) sorted ∧
    StronglySorted (λ r1 r2, dist r1 <= dist r2)%Q (concat groups) ∧
    concat groups ⊆+ g ∧
    Forall (λ out, Forall (λ r, dist r <= dist out)%Q (concat groups))
           (drop (Nat.min (length g) (cn * mn)) sorted).
Proof using argsort_sorts.
  intros Hcap Hmax cn mn.
  destruct (sort_values_sorted g) as [Hperm Hsorted].
  set (sorted := Clustering.sort_values argsort (keyed g)) in *.
  assert (Hlen : length sorted = length g) by apply Permutation_length, Hperm.
  exists sorted, (block sorted cn <$> seq 0 (Nat.min (ceil_div (length g) cn) mn)).
  assert (Hcat : concat (block sorted cn <$> seq 0 (Nat.min (ceil_div (length g) cn) mn))
                 = take (Nat.min (length g) (cn * mn)) sorted).
  { rewrite <- Hlen. apply concat_blocks_prefix. lia. }
  split_and!; try done.
  - unfold Clustering.split_requests_into_buses, Clustering.py_range0, Pipeline.range_up.
    destruct (length g =? 0) eqn:Ek.
    + apply Nat.eqb_eq in Ek. rewrite Ek.
      replace (ceil_div 0 cn) with 0; [done |].
      unfold ceil_div. symmetry. apply Nat.div_small. lia.
    + change (String.eqb "center_dist" "center_dist") with true. cbn iota.
      change (Clustering.sort_values argsort _) with sorted.
      destruct (cap =? 0)%Z eqn:E1; [apply Z.eqb_eq in E1; lia |].
      destruct (cap <? 0)%Z eqn:E2; [apply Z.ltb_lt in E2; lia |].
      rewrite bus_loop_chunk_loop. fold cn.
      rewrite (chunk_loop_blocks sorted cn max_bus _ 0 []) by done.
      rewrite Nat.sub_0_r, Hlen. reflexivity.
  - rewrite Hcat. by apply StronglySorted_take.
  - rewrite Hcat. trans sorted; [apply submseteq_take | by apply Permutation_submseteq].
  - rewrite Hcat. set (k := Nat.min (length g) (cn * mn)).
    assert (Hsplit : StronglySorted (λ r1 r2, dist r1 <= dist r2)%Q
                       (take k sorted ++ drop k sorted)) by (by rewrite take_drop).
    apply Forall_forall. intros out Hout. apply Forall_forall. intros r Hr.
    exact (StronglySorted_app_1_elem_of _ _ _ _ _ Hsplit Hr Hout).
Qed.

End CenterDist.

Lemma center_dist_partition_witness :
  let split := Clustering.split_requests_into_buses (A := Z)
                 (λ x, x) (λ x, x) (λ x, x) (λ x, x) (λ x, x) (λ r _, inject_Z r)
                 stable_argsort in
  argsort_ok stable_argsort ∧ (0 < 2)%Z ∧ (0 < 1)%Z ∧
  ∃ groups,
    split [9; 3; 6]%Z 0%Q 0%Q 2%Z 1%Z "pickup_lat" "pickup_lon" "center_dist" 0%Z = Ok groups ∧
    concat groups ⊆+ [9; 3; 6]%Z.
Proof.
  intros split.
  assert (H2 : (0 < 2)%Z) by lia. assert (H1 : (0 < 1)%Z) by lia.
  split_and!; [exact stable_argsort_ok | exact H2 | exact H1 |].
  destruct (center_dist_partition (λ x, x) (λ x, x) (λ x, x) (λ x, x) (λ x, x)
              (λ (r : Z) _, inject_Z r) stable_argsort 0%Q 0%Q "pickup_lat" "pickup_lon"
              stable_argsort_ok [9; 3; 6]%Z 2 1 0 H2 H1)
    as (sorted & groups & Hrun & _ & _ & _ & _ & _ & Hsub & _).
  exists groups. split; [exact Hrun | exact Hsub].
Defined.

(** ** KPI summaries *)

Lemma sum_bounds (l : list Q) (lo hi : Q) :
  Forall (λ v, lo <= v <= hi)%Q l →
  (inject_Z (Z.of_nat (length l)) * lo <= foldl Qplus 0 l
   <= inject_Z (Z.of_nat (length l)) * hi)%Q.
Proof.
  induction 1 as [| v l [Hlo Hhi] _ IH].
  - cbn [length foldl]. change (inject_Z (Z.of_nat 0)) with 0%Q. lra.
  - cbn [foldl length]. rewrite (foldl_Qplus_shift (0 + v)), Nat2Z.inj_succ.
    unfold Z.succ. rewrite inject_Z_plus. change (inject_Z 1) with 1%Q. lra.
Qed.

Lemma length_pos_Q {A : Type} (l : list A) :
  l ≠ [] → (0 < inject_Z (Z.of_nat (length l)))%Q.
Proof.
  intros Hne. destruct l; [done |]. change 0%Q with (inject_Z 0).
  rewrite <- Zlt_Qlt. cbn [length]. lia.
Qed.

Lemma np_mean_bounds (l : list Q) (lo hi : Q) :
  l ≠ [] → Forall (λ v, lo <= v <= hi)%Q l →
  (lo <= Metrics.np_mean l <= hi)%Q.
Proof.
  intros Hne Hall. pose proof (sum_bounds l lo hi Hall) as [H1 H2].
  pose proof (length_pos_Q l Hne) as Hn. unfold Metrics.np_mean, Metrics.np_sum. split.
  - apply Qle_shift_div_l; [done |]. lra.
  - apply Qle_shift_div_r; [done |]. lra.
Qed.

(** X8: an on-time rate lies between 0 and 1; the threshold is inclusive, so
    the rate is 1 when every lateness is at most the threshold, and 0 when
    every lateness exceeds it. *)
Theorem on_time_rate_bounds (late : list Q) (thr : Q) :
  (0 <= Metrics.on_time_rate late thr <= 1)%Q ∧
  (late ≠ [] → Forall (λ v, v <= thr)%Q late → (Metrics.on_time_rate late thr == 1)%Q) ∧
  (Forall (λ v, thr < v)%Q late → (Metrics.on_time_rate late thr == 0)%Q).
Proof.
  unfold Metrics.on_time_rate.
  set (flags := (λ v, if Qlt_le_dec thr v then 0%Q else 1%Q) <$> late).
  assert (Hflags : Forall (λ v, 0 <= v <= 1)%Q flags).
  { apply Forall_fmap, Forall_forall. intros v _. cbn. destruct (Qlt_le_dec thr v); lra. }
  split; [| split].
  - destruct (decide (flags = [])) as [-> | Hne]; [by vm_compute |].
    by apply np_mean_bounds.
  - intros Hne Hall.
    assert (Hones : Forall (λ v, 1 <= v <= 1)%Q flags).
    { apply Forall_fmap. eapply Forall_impl; [exact Hall |]. intros v Hv.
      unfold compose. cbn beta in *. destruct (Qlt_le_dec thr v); lra. }
    assert (flags ≠ []) as Hne' by (unfold flags; by destruct late).
    pose proof (np_mean_bounds flags 1 1 Hne' Hones). lra.
  - intros Hall. destruct (decide (flags = [])) as [-> | Hne]; [done |].
    assert (Hzeros : Forall (λ v, 0 <= v <= 0)%Q flags).
    { apply Forall_fmap. eapply Forall_impl; [exact Hall |]. intros v Hv.
      unfold compose. cbn beta in *. destruct (Qlt_le_dec thr v); lra. }
    pose proof (np_mean_bounds flags 0 0 Hne Hzeros). lra.
Qed.

Lemma on_time_rate_bounds_witness :
  [10; 3]%Q ≠ [] ∧ Forall (λ v, v <= 10)%Q [10; 3]%Q ∧
  (Metrics.on_time_rate [10; 3] 10 == 1)%Q.
Proof.
  assert (H1 : [10; 3]%Q ≠ []) by done.
  assert (H2 : Forall (λ v, v <= 10)%Q [10; 3]%Q) by (repeat constructor; by vm_compute).
  split_and!; [exact H1 | exact H2 |].
  by apply (on_time_rate_bounds [10; 3]%Q 10).
Defined.

Lemma np_max_spec (x : list Q) :
  x ≠ [] → Metrics.np_max x ∈ x ∧ Forall (λ v, v <= Metrics.np_max x)%Q x.
Proof.
  destruct x as [| a x]; [done |]. intros _. unfold Metrics.np_max. cbn [hd tail].
  assert (Hgen : ∀ pre m, m ∈ pre → Forall (λ v, v <= m)%Q pre →
            let r := foldl (λ m y, if Qlt_le_dec m y then y else m) m x in
            r ∈ pre ++ x ∧ Forall (λ v, v <= r)%Q (pre ++ x)).
  { induction x as [| y x IH]; intros pre m Hin Hall; cbn [foldl].
    - by rewrite app_nil_r.
    - destruct (Qlt_le_dec m y) as [Hlt | Hle].
      + destruct (IH (pre ++ [y]) y) as [H1 H2].
        * apply elem_of_app. right. by left.
        * apply Forall_app. split; [| by apply Forall_singleton, Qle_refl].
          eapply Forall_impl; [exact Hall |]. intros v Hv. cbn in Hv. lra.
        * by rewrite <- app_assoc in H1, H2.
      + destruct (IH (pre ++ [y]) m) as [H1 H2].
        * apply elem_of_app. by left.
        * apply Forall_app. split; [done | by apply Forall_singleton].
        * by rewrite <- app_assoc in H1, H2. }
  apply (Hgen [a] a); [by left | by apply Forall_singleton, Qle_refl].
Qed.

Lemma StronglySorted_nth_le (l : list Q) (i j : nat) :
  StronglySorted Qle l → i ≤ j → j < length l → (nth i l 0 <= nth j l 0)%Q.
Proof.
  intros Hs. revert i j. induction Hs as [| a l Hs IH Ha]; intros i j Hij Hj; [cbn in Hj; lia |].
  destruct i as [| i], j as [| j]; cbn [nth]; try lia.
  - apply Qle_refl.
  - rewrite Forall_forall in Ha. apply Ha, list_elem_of_In, nth_In. cbn in Hj. lia.
  - apply IH; [lia | cbn in Hj; lia].
Qed.

#[local] Instance Qle_total : Total Qle.
Proof. intros x y. destruct (Qlt_le_dec y x); [right; by apply Qlt_le_weak | by left]. Qed.

#[local] Instance Qle_transitive : Transitive Qle.
Proof. intros x y z. apply Qle_trans. Qed.

Lemma np_percentile_le_max (x : list Q) (q : Q) :
  x ≠ [] → (0 <= q <= 100)%Q → (Metrics.np_percentile x q <= Metrics.np_max x)%Q.
Proof.
  intros Hne [Hq0 Hq1]. unfold Metrics.np_percentile.
  set (sorted := merge_sort Qle x).
  assert (Hperm : sorted ≡ₚ x) by apply merge_sort_Permutation.
  assert (Hlen : length sorted = length x) by by apply Permutation_length.
  assert (Hss : StronglySorted Qle sorted) by (apply StronglySorted_merge_sort; apply _).
  set (n1 := inject_Z (Z.of_nat (length x - 1))).
  assert (Hn1 : (0 <= n1)%Q).
  { unfold n1. change 0%Q with (inject_Z 0). rewrite <- Zle_Qle. lia. }
  set (rank := (q / 100 * n1)%Q).
  assert (Hrank : (0 <= rank <= n1)%Q).
  { unfold rank. split.
    - apply Qmult_le_0_compat; [| done]. apply Qle_shift_div_l; lra.
    - assert (q / 100 <= 1)%Q by (apply Qle_shift_div_r; lra).
      assert (q / 100 * n1 <= 1 * n1)%Q by (by apply Qmult_le_compat_r). lra. }
  assert (Hfloor0 : (0 <= Qfloor rank)%Z).
  { change 0%Z with (Qfloor 0). apply Qfloor_resp_le. tauto. }
  assert (Hfloor1 : (Qfloor rank <= Z.of_nat (length x - 1))%Z).
  { rewrite <- (Qfloor_Z (Z.of_nat (length x - 1))). apply Qfloor_resp_le. tauto. }
  set (lo := Z.to_nat (Qfloor rank)).
  assert (Hlo : lo ≤ length x - 1) by lia.
  assert (Hlo_eq : inject_Z (Z.of_nat lo) = inject_Z (Qfloor rank)).
  { unfold lo. by rewrite Z2Nat.id. }
  set (hi := Nat.min (lo + 1) (length x - 1)).
  assert (0 < length x) by (destruct x; [done | cbn; lia]).
  set (a := nth lo sorted 0%Q). set (b := nth hi sorted 0%Q).
  assert (Hab : (a <= b)%Q) by (apply StronglySorted_nth_le; [done | lia | lia]).
  assert (Hb : (b <= Metrics.np_max x)%Q).
  { destruct (np_max_spec x Hne) as [_ Hmax]. rewrite Forall_forall in Hmax.
    apply Hmax. rewrite <- Hperm. apply list_elem_of_In, nth_In. lia. }
  set (frac := (rank - inject_Z (Z.of_nat lo))%Q).
  assert (Hfrac : (0 <= frac <= 1)%Q).
  { unfold frac. rewrite Hlo_eq. pose proof (Qfloor_le rank). pose proof (Qlt_floor rank) as Hlt.
    rewrite inject_Z_plus in Hlt. change (inject_Z 1) with 1%Q in Hlt. lra. }
  assert (frac * (b - a) <= 1 * (b - a))%Q.
  { apply Qmult_le_compat_r; lra. }
  lra.
Qed.

(** X9: in the summary of a non-empty column the 95th percentile is at
    most the maximum, and the maximum is a value of the column that no value
    exceeds; the summary of an empty column is all zeros. *)
Theorem summ_ordered (x : list Q) :
  x ≠ [] →
  let s := Metrics._summ x in
  (Metrics.s_p95 s <= Metrics.s_max s)%Q ∧
  Metrics.s_max s ∈ x ∧ Forall (λ v, v <= Metrics.s_max s)%Q x ∧
  Metrics._summ [] = Metrics.Build_Summary 0 0 0.
Proof.
  intros Hne. unfold Metrics._summ.
  destruct (length x =? 0) eqn:E; [apply Nat.eqb_eq in E; by destruct x |].
  cbn [Metrics.s_mean Metrics.s_p95 Metrics.s_max].
  destruct (np_max_spec x Hne) as [Hin Hmax]. split_and!; [| done | done | done].
  apply np_percentile_le_max; [done | lra].
Qed.

Lemma summ_ordered_witness :
  [4; -2; 7]%Q ≠ [] ∧
  (Metrics.s_p95 (Metrics._summ [4; -2; 7]) <= Metrics.s_max (Metrics._summ [4; -2; 7]))%Q ∧
  Metrics.s_max (Metrics._summ [4; -2; 7]%Q) ∈ [4; -2; 7]%Q.
Proof.
  assert (H : [4; -2; 7]%Q ≠ []) by done.
  destruct (summ_ordered [4; -2; 7]%Q H) as (H1 & H2 & _).
  split_and!; [exact H | exact H1 | exact H2].
Defined.

Lemma filter_nil_Forall {A : Type} (P : A → Prop) `{!∀ x, Decision (P x)} (l : list A) :
  filter P l = [] ↔ Forall (λ x, ¬ P x) l.
Proof.
  induction l as [| x l IH]; [by split |].
  rewrite filter_cons, Forall_cons. destruct (decide (P x)); [split; [done | tauto] |].
  rewrite IH. tauto.
Qed.

(** X10: on a frame of numeric columns that holds events, [compute_kpis]
    succeeds exactly when
    the configuration carries the on-time threshold, [float] accepts it, and
    the frame has the five required columns. A failure is a [ConfigError] or
    the exception [float] raised on the threshold; a missing threshold is
    reported first and a threshold that is no number next, both before the
    columns are looked at. *)
Theorem compute_kpis_checks (df : Metrics.DataFrame) (cfg : Cfg) :
  0 < Metrics.df_len df →
  let thr := cfg_kpi cfg ≫= kpi_on_time_threshold_min in
  let run := Metrics.compute_kpis (Some df) cfg in
  ((∃ k, run = Ok k) ↔
   (∃ t, thr = Some (Ok t)) ∧
   Forall (λ c, is_Some (Metrics.column df c)) Metrics.required) ∧
  (∀ e, run = Raise e → (∃ msg, e = ConfigError msg) ∨ thr = Some (Raise e)) ∧
  (thr = None → run = Raise (ConfigError "Missing kpi.on_time_threshold_min in config")) ∧
  (∀ e, thr = Some (Raise e) → run = Raise e).
Proof.
  intros Hlen thr run. unfold run, Metrics.compute_kpis.
  destruct (Metrics.df_len df =? 0) eqn:E; [apply Nat.eqb_eq in E; lia |].
  fold thr. destruct thr as [[t | e0] |].
  - pose proof (filter_nil_Forall (λ c, Metrics.column df c = None) Metrics.required) as Hnil.
    destruct (filter _ Metrics.required) as [| c missing] eqn:Hmiss.
    + split_and!; [| done | done | done]. split; [| by eexists].
      intros _. split; [by eexists |].
      eapply Forall_impl; [apply Hnil; reflexivity |]. intros c Hc. cbn beta in Hc.
      by destruct (Metrics.column df c).
    + split_and!; [| intros e [= <-]; left; by eexists | done | done].
      split; [by intros [k Hk] |].
      intros [_ Hall]. assert (c :: missing = []); [| done]. apply Hnil.
      eapply Forall_impl; [exact Hall |]. intros c' [v ->]. done.
  - split_and!; [| intros e [= <-]; by right | done | by intros e [= <-]].
    split; [by intros [k Hk] | by intros [[t Ht] _]].
  - split_and!; [| intros e [= <-]; left; by eexists | done | done].
    split; [by intros [k Hk] | by intros [[t Ht] _]].
Qed.

Lemma compute_kpis_checks_witness :
  let df := Metrics.Build_DataFrame 1 [("ride_time_min", [41%Q])] in
  let bad := TypeError "float() argument must be a string or a real number, not 'NoneType'" in
  let cfg := Build_Cfg None SimAbsent (Some (Build_KpiCfg (Some (Raise bad)))) in
  0 < Metrics.df_len df ∧
  Metrics.compute_kpis (Some df) (Build_Cfg None SimAbsent None)
  = Raise (ConfigError "Missing kpi.on_time_threshold_min in config") ∧
  Metrics.compute_kpis (Some df) cfg = Raise bad.
Proof.
  intros df bad cfg. assert (H : 0 < Metrics.df_len df) by (cbn; lia).
  split; [exact H |]. split.
  - destruct (compute_kpis_checks df (Build_Cfg None SimAbsent None) H)
      as (_ & _ & Hmissing & _). by apply Hmissing.
  - destruct (compute_kpis_checks df cfg H) as (_ & _ & _ & Hbad). by apply Hbad.
Defined.

(** ** Road model: caches and coincident nodes *)

Section RoadCache.
Import TimeModel.
Variables radians sin cos asin sqrt : Q → Q.
Context {Graph : Type}.
Variable shortest_path_length : Graph → nat → nat → option Q.
Variable nearest_nodes : Graph → Q → Q → nat.

Abbreviation rmodel := (@RoadTimeModel Graph).
Abbreviation rmean := (road_mean_travel_min radians sin cos asin sqrt
                         shortest_path_length nearest_nodes).

(** [self'] holds every cache entry of [self]. *)
Abbreviation grows := (λ self self' : rmodel,
  same_model self self' ∧ nearest_cache self ⊆ nearest_cache self' ∧
  od_cache self ⊆ od_cache self').

Lemma grows_refl (self : rmodel) : grows self self.
Proof. split_and!; [apply same_model_refl | done | done]. Qed.

Lemma grows_trans (a b c : rmodel) : grows a b → grows b c → grows a c.
Proof.
  intros (H1 & H2 & H3) (H4 & H5 & H6).
  split_and!; [by apply (same_model_trans a b c) | by trans (nearest_cache b)
              | by trans (od_cache b)].
Qed.

Lemma nearest_node_stores (self : rmodel) (lat_r lon_r : Z) :
  let r := _nearest_node nearest_nodes self lat_r lon_r in
  nearest_cache r.2 !! (lat_r, lon_r) = Some r.1 ∧ grows self r.2.
Proof.
  unfold _nearest_node.
  destruct (nearest_cache self !! (lat_r, lon_r)) as [n |] eqn:Hc; cbn.
  - split; [done | apply grows_refl].
  - split; [by rewrite lookup_insert_eq |].
    split_and!; [by repeat split | by apply insert_subseteq | done].
Qed.

Lemma nearest_node_cached (self : rmodel) (lat_r lon_r : Z) (n : nat) :
  nearest_cache self !! (lat_r, lon_r) = Some n →
  _nearest_node nearest_nodes self lat_r lon_r = (n, self).
Proof. intros Hc. unfold _nearest_node. by rewrite Hc. Qed.

Lemma od_time_stores (self : rmodel) (u v : nat) :
  let r := _od_time_min shortest_path_length self u v in
  od_cache r.2 !! (u, v) = Some r.1 ∧ grows self r.2.
Proof.
  unfold _od_time_min.
  destruct (od_cache self !! (u, v)) as [t |] eqn:Hc; cbn.
  - split; [done | apply grows_refl].
  - split; [by rewrite lookup_insert_eq |].
    split_and!; [by repeat split | done | by apply insert_subseteq].
Qed.

(** X11: the caches make a repeated query a pure lookup: asked again with
    the same coordinates, the model gives the same duration and is left as
    it was. *)
Theorem road_query_repeat (self : @RoadTimeModel Graph) (a_lat a_lon b_lat b_lon : Q) :
  let mean_travel_min :=
    road_mean_travel_min radians sin cos asin sqrt shortest_path_length nearest_nodes in
  let r := mean_travel_min self a_lat a_lon b_lat b_lon in
  mean_travel_min r.2 a_lat a_lon b_lat b_lon = r.
Proof.
  cbn zeta. unfold road_mean_travel_min, _node.
  set (ax := py_round (a_lat * 100000)). set (ay := py_round (a_lon * 100000)).
  set (bx := py_round (b_lat * 100000)). set (by_ := py_round (b_lon * 100000)).
  pose proof (nearest_node_stores self ax ay) as [Hu Hg1].
  destruct (_nearest_node nearest_nodes self ax ay) as [u s1] eqn:E1.
  cbn [fst snd] in *.
  pose proof (nearest_node_stores s1 bx by_) as [Hv Hg2].
  destruct (_nearest_node nearest_nodes s1 bx by_) as [v s2] eqn:E2.
  cbn [fst snd] in *.
  assert (Hu2 : nearest_cache s2 !! (ax, ay) = Some u).
  { destruct Hg2 as (_ & Hsub & _). by apply (lookup_weaken _ _ _ _ Hu Hsub). }
  destruct (u =? v) eqn:Euv.
  - cbn [fst snd]. rewrite (nearest_node_cached s2 _ _ u Hu2).
    rewrite (nearest_node_cached s2 _ _ v Hv). by rewrite Euv.
  - pose proof (od_time_stores s2 u v) as [Ht Hg3].
    destruct (_od_time_min shortest_path_length s2 u v) as [t s3] eqn:E3.
    cbn [fst snd] in *.
    assert (Hu3 : nearest_cache s3 !! (ax, ay) = Some u).
    { destruct Hg3 as (_ & Hsub & _). by apply (lookup_weaken _ _ _ _ Hu2 Hsub). }
    assert (Hv3 : nearest_cache s3 !! (bx, by_) = Some v).
    { destruct Hg3 as (_ & Hsub & _). by apply (lookup_weaken _ _ _ _ Hv Hsub). }
    assert (Hod : _od_time_min shortest_path_length s3 u v = (t, s3)).
    { unfold _od_time_min. by rewrite Ht. }
    destruct t as [q |]; cbn [fst snd];
      rewrite (nearest_node_cached s3 _ _ u Hu3), (nearest_node_cached s3 _ _ v Hv3),
        Euv, Hod; reflexivity.
Qed.

(** X12: a query from a coordinate to itself answers 0.1 minutes, not 0,
    whatever the graph and the caches hold. *)
Theorem road_same_point (self : @RoadTimeModel Graph) (lat lon : Q) :
  (road_mean_travel_min radians sin cos asin sqrt shortest_path_length nearest_nodes
     self lat lon lat lon).1 = (1 # 10)%Q.
Proof.
  unfold road_mean_travel_min, _node.
  pose proof (nearest_node_stores self (py_round (lat * 100000)) (py_round (lon * 100000)))
    as [Hu _].
  destruct (_nearest_node nearest_nodes self _ _) as [u s1]. cbn [fst snd] in Hu.
  rewrite (nearest_node_cached s1 _ _ u Hu). by rewrite Nat.eqb_refl.
Qed.

End RoadCache.

(** ** Geometric model: speed *)

Section EuclidSpeed.
Import TimeModel.
Variables radians sin cos asin sqrt : Q → Q.
Context {Generator : Type}.

Abbreviation emean := (euclid_mean_travel_min (Generator := Generator)
                         radians sin cos asin sqrt).
Abbreviation hav := (haversine_km radians sin cos asin sqrt).

(** X13: for a non-negative distance and default speed, a larger speed
    multiplier never gives a longer mean duration, and the duration is never
    negative; two multipliers that both leave the effective speed at or below
    the floor of [1e-6] km/h (zero and negative speeds included) give the same
    duration, that of the floor. *)
Theorem euclid_speed_monotone (self : @EuclidTimeModel Generator) (mult : Q)
    (a_lat a_lon b_lat b_lon : Q) :
  let other := Build_EuclidTimeModel (default_speed_kmh self) mult
                 (detour_factor self) (noise_sigma self) (seed self) (rng self) in
  let dist_km := (hav a_lat a_lon b_lat b_lon * detour_factor self)%Q in
  ((0 <= dist_km)%Q → (0 <= default_speed_kmh self)%Q →
   (speed_multiplier self <= mult)%Q →
   (0 <= emean other a_lat a_lon b_lat b_lon)%Q ∧
   (emean other a_lat a_lon b_lat b_lon <= emean self a_lat a_lon b_lat b_lon)%Q) ∧
  ((default_speed_kmh self * speed_multiplier self <= 1 # 1000000)%Q →
   (default_speed_kmh self * mult <= 1 # 1000000)%Q →
   emean other a_lat a_lon b_lat b_lon = emean self a_lat a_lon b_lat b_lon).
Proof.
  intros other dist_km. unfold euclid_mean_travel_min.
  cbn [default_speed_kmh speed_multiplier detour_factor other]. fold dist_km.
  set (v := default_speed_kmh self). set (m := speed_multiplier self).
  split.
  - intros Hd Hv Hm.
    set (s := py_max (1 # 1000000) (v * m)). set (s' := py_max (1 # 1000000) (v * mult)).
    assert (Hvm : (v * m <= v * mult)%Q).
    { rewrite (Qmult_comm v m), (Qmult_comm v mult). by apply Qmult_le_compat_r. }
    assert (Hs : (0 < s)%Q ∧ (s <= s')%Q).
    { unfold s, s', py_max.
      destruct (Qlt_le_dec (1 # 1000000) (v * m)), (Qlt_le_dec (1 # 1000000) (v * mult));
        split; lra. }
    destruct Hs as [Hs Hss].
    assert (Hq' : (0 <= dist_km / s')%Q) by (apply Qle_shift_div_l; lra).
    assert (Hq : (0 <= dist_km / s)%Q) by (apply Qle_shift_div_l; lra).
    assert (Hle : (dist_km / s' <= dist_km / s)%Q).
    { apply Qle_shift_div_r; [lra |].
      assert (Heq : (dist_km / s * s == dist_km)%Q) by (field; lra).
      assert (dist_km / s * s <= dist_km / s * s')%Q; [| lra].
      rewrite (Qmult_comm _ s), (Qmult_comm _ s'). by apply Qmult_le_compat_r. }
    split; lra.
  - intros Hlow Hlow'. unfold py_max.
    destruct (Qlt_le_dec (1 # 1000000) (v * m)) as [H | _]; [lra |].
    destruct (Qlt_le_dec (1 # 1000000) (v * mult)) as [H | _]; [lra |].
    reflexivity.
Qed.

End EuclidSpeed.

Lemma euclid_speed_monotone_witness :
  let self := TimeModel.Build_EuclidTimeModel 18%Q 1%Q (5 # 4)%Q 0%Q 123%Z tt in
  let other := TimeModel.Build_EuclidTimeModel 18%Q 2%Q (5 # 4)%Q 0%Q 123%Z tt in
  let mean := TimeModel.euclid_mean_travel_min (Generator := unit)
                (λ x, x) (λ x, x) (λ x, x) (λ x, x) (λ x, x) in
  (0 <= TimeModel.haversine_km (λ x, x) (λ x, x) (λ x, x) (λ x, x) (λ x, x) 3 1 2 5
        * (5 # 4))%Q ∧
  (0 <= 18)%Q ∧ (1 <= 2)%Q ∧
  (mean other 3 1 2 5 <= mean self 3 1 2 5)%Q.
Proof.
  intros self other mean.
  assert (H1 : (0 <= TimeModel.haversine_km (λ x, x) (λ x, x) (λ x, x) (λ x, x) (λ x, x)
                       3 1 2 5 * (5 # 4))%Q) by (vm_compute; discriminate).
  assert (H2 : (0 <= 18)%Q) by (vm_compute; discriminate).
  assert (H3 : (1 <= 2)%Q) by (vm_compute; discriminate).
  split_and!; [exact H1 | exact H2 | exact H3 |].
  destruct (euclid_speed_monotone (λ x, x) (λ x, x) (λ x, x) (λ x, x) (λ x, x)
              self 2 3 1 2 5) as [Hmono _].
  exact (proj2 (Hmono H1 H2 H3)).
Defined.

(** ** Time matrices *)

Section BuildTimeMatProps.
Import PipelineRun.
Context {M : Type}.
Variables sample_travel_min mean_travel_min : M → Q → Q → Q → Q → Q * M.
Variable Inv : M → Prop.
Variable f : Q → Q → Q → Q → Q.
Variable points : list point.
Variable sample : bool.

Abbreviation query := (if sample then sample_travel_min else mean_travel_min).
Abbreviation n_points := (length points).
Abbreviation entry := (λ (mat : list (list Q)) (a b : nat), nth b (nth a mat []) 0%Q).
Abbreviation between := (λ a b : nat,
  f (nth a points (0, 0)%Q).1 (nth a points (0, 0)%Q).2
    (nth b points (0, 0)%Q).1 (nth b points (0, 0)%Q).2).
Abbreviation square := (λ mat : list (list Q),
  length mat = n_points ∧ Forall (λ row, length row = n_points) mat).

Hypothesis Hquery : ∀ m a_lat a_lon b_lat b_lon, Inv m →
  Inv (query m a_lat a_lon b_lat b_lon).2 ∧
  (query m a_lat a_lon b_lat b_lon).1 = f a_lat a_lon b_lat b_lon.

Lemma set_cell_square (mat : list (list Q)) (i j : nat) (t : Q) :
  square mat → square (set_cell mat i j t).
Proof.
  intros [Hlen Hrows]. unfold set_cell. split.
  - by rewrite length_alter.
  - apply Forall_alter; [done |]. intros row _ Hrow. by rewrite length_insert.
Qed.

Lemma set_cell_entry (mat : list (list Q)) (i j : nat) (t : Q) (a b : nat) :
  square mat → i < n_points → j < n_points →
  entry (set_cell mat i j t) a b = if decide (a = i ∧ b = j) then t else entry mat a b.
Proof.
  intros [Hlen Hrows] Hi Hj. unfold set_cell. rewrite !nth_lookup.
  destruct (decide (a = i)) as [-> | Hai].
  - rewrite list_lookup_alter_eq.
    destruct (mat !! i) as [row |] eqn:Hrow.
    + cbn [fmap option_fmap option_map default]. unfold id.
      assert (length row = n_points) as Hlr.
      { by eapply Forall_lookup_1 in Hrows. }
      destruct (decide (b = j)) as [-> | Hbj].
      * rewrite decide_True by done. rewrite list_lookup_insert_eq by lia. done.
      * rewrite decide_False by tauto. by rewrite list_lookup_insert_ne.
    + apply lookup_ge_None in Hrow. lia.
  - rewrite decide_False by tauto. by rewrite list_lookup_alter_ne.
Qed.

Lemma cell_step_spec (i : nat) (st : list (list Q) * M) (j : nat) :
  square st.1 → Inv st.2 → i < n_points → j < n_points →
  let st' := cell_step sample_travel_min mean_travel_min points sample i st j in
  square st'.1 ∧ Inv st'.2 ∧
  ∀ a b, entry st'.1 a b
         = if decide (a = i ∧ b = j ∧ b ≠ i) then between i j else entry st.1 a b.
Proof using Hquery.
  intros Hsq Hinv Hi Hj. unfold cell_step.
  destruct (decide (i = j)) as [-> | Hij].
  - cbn zeta. split; [done |]. split; [done |]. intros a b. rewrite decide_False; [done | lia].
  - destruct (nth i points (0, 0)%Q) as [a_lat a_lon] eqn:Hpi.
    destruct (nth j points (0, 0)%Q) as [b_lat b_lon] eqn:Hpj.
    destruct (Hquery st.2 a_lat a_lon b_lat b_lon Hinv) as [Hinv' Hval].
    destruct (query st.2 a_lat a_lon b_lat b_lon) as [t tm'].
    cbn [fst snd] in *. subst t.
    split; [by apply set_cell_square |]. split; [done |].
    intros a b. rewrite set_cell_entry by done.
    destruct (decide (a = i ∧ b = j)) as [[-> ->] | Hne].
    + rewrite decide_True by (split_and!; [done | done | lia]). done.
    + rewrite decide_False by tauto. done.
Qed.

Lemma row_loop_spec (i : nat) (js : list nat) (st : list (list Q) * M) :
  square st.1 → Inv st.2 → i < n_points → Forall (λ j, j < n_points) js →
  let st' := foldl (cell_step sample_travel_min mean_travel_min points sample i) st js in
  square st'.1 ∧ Inv st'.2 ∧
  ∀ a b, entry st'.1 a b
         = if decide (a = i ∧ b ∈ js ∧ b ≠ i) then between i b else entry st.1 a b.
Proof using Hquery.
  intros Hsq Hinv Hi Hjs. revert st Hsq Hinv.
  induction Hjs as [| j js Hj _ IH]; intros st Hsq Hinv; cbn [foldl].
  - split; [done |]. split; [done |]. intros a b. rewrite decide_False; [done |].
    intros (_ & Hin & _). by apply elem_of_nil in Hin.
  - destruct (cell_step_spec i st j Hsq Hinv Hi Hj) as (Hsq1 & Hinv1 & Hent1).
    destruct (IH _ Hsq1 Hinv1) as (Hsq' & Hinv' & Hent').
    split; [done |]. split; [done |]. intros a b. rewrite Hent', Hent1.
    destruct (decide (a = i ∧ b ∈ js ∧ b ≠ i)) as [(-> & Hin & Hne) | Hn1].
    + rewrite decide_True; [done |]. split_and!; [done | by right | done].
    + destruct (decide (a = i ∧ b = j ∧ b ≠ i)) as [(-> & -> & Hne) | Hn2].
      * rewrite decide_True; [done |]. split_and!; [done | by left | done].
      * rewrite decide_False; [done |]. intros (-> & Hin & Hne).
        apply elem_of_cons in Hin as [-> | Hin]; tauto.
Qed.

Lemma matrix_loop_spec (rows : list nat) (st : list (list Q) * M) :
  square st.1 → Inv st.2 → Forall (λ i, i < n_points) rows →
  let st' :=
    foldl (λ st i, foldl (cell_step sample_travel_min mean_travel_min points sample i)
                         st (seq 0 n_points)) st rows in
  square st'.1 ∧ Inv st'.2 ∧
  ∀ a b, entry st'.1 a b
         = if decide (a ∈ rows ∧ b < n_points ∧ b ≠ a) then between a b else entry st.1 a b.
Proof using Hquery.
  intros Hsq Hinv Hrows. revert st Hsq Hinv.
  induction Hrows as [| i rows Hi _ IH]; intros st Hsq Hinv; cbn [foldl].
  - split; [done |]. split; [done |]. intros a b. rewrite decide_False; [done |].
    intros (Hin & _). by apply elem_of_nil in Hin.
  - assert (Hall : Forall (λ j, j < n_points) (seq 0 n_points)).
    { apply Forall_forall. intros j Hj. apply elem_of_seq in Hj. lia. }
    destruct (row_loop_spec i (seq 0 n_points) st Hsq Hinv Hi Hall) as (Hsq1 & Hinv1 & Hent1).
    destruct (IH _ Hsq1 Hinv1) as (Hsq' & Hinv' & Hent').
    split; [done |]. split; [done |]. intros a b. rewrite Hent', Hent1.
    destruct (decide (a ∈ rows ∧ b < n_points ∧ b ≠ a)) as [(Hin & Hb & Hne) | Hn1].
    + rewrite decide_True; [done |]. split_and!; [by right | done | done].
    + destruct (decide (a = i ∧ b ∈ seq 0 n_points ∧ b ≠ i)) as [(-> & Hin & Hne) | Hn2].
      * apply elem_of_seq in Hin. rewrite decide_True; [done |].
        split_and!; [by left | lia | done].
      * rewrite decide_False; [done |]. intros (Hin & Hb & Hne).
        apply elem_of_cons in Hin as [-> | Hin]; [| tauto].
        apply Hn2. split_and!; [done | apply elem_of_seq; lia | done].
Qed.

(** X14: the time matrix of [n] points is an [n] by [n] array with a zero
    diagonal whose entry [(i, j)], for [i ≠ j], is the duration the model
    answers from point [i] to point [j]; all cells outside it read as zero.
    This holds for every model whose answers do not depend on the queries
    made before, as far as an invariant [Inv] of its state goes. *)
Theorem build_time_mat_entries (time_model : M) :
  Inv time_model →
  let r := _build_time_mat sample_travel_min mean_travel_min points time_model sample in
  length r.1 = n_points ∧ Forall (λ row, length row = n_points) r.1 ∧ Inv r.2 ∧
  ∀ i j, cell (of_rows r.1) i j
         = if decide (i < n_points ∧ j < n_points ∧ i ≠ j) then between i j else 0%Q.
Proof using Hquery.
  intros Hinv r.
  assert (Hsq0 : square (replicate n_points (replicate n_points 0%Q))).
  { split; [by rewrite length_replicate |].
    apply Forall_replicate. by rewrite length_replicate. }
  assert (Hall : Forall (λ j, j < n_points) (seq 0 n_points)).
  { apply Forall_forall. intros j Hj. apply elem_of_seq in Hj. lia. }
  destruct (matrix_loop_spec (seq 0 n_points) (_, time_model) Hsq0 Hinv Hall)
    as ((Hlen & Hrows) & Hinv' & Hent).
  split_and!; [exact Hlen | exact Hrows | exact Hinv' |].
  intros i j. change (cell (of_rows r.1) i j) with (entry r.1 i j).
  unfold r, _build_time_mat. rewrite Hent. cbn [fst].
  assert (Hzero : entry (replicate n_points (replicate n_points 0%Q)) i j = 0%Q).
  { rewrite !nth_lookup. destruct (decide (i < n_points)) as [Hi | Hi].
    - rewrite lookup_replicate_2 by done. cbn [default]. unfold id.
      destruct (decide (j < n_points)) as [Hj | Hj].
      + by rewrite lookup_replicate_2.
      + assert (replicate n_points 0%Q !! j = None) as ->; [| done].
        apply lookup_replicate_None. lia.
    - assert (replicate n_points (replicate n_points 0%Q) !! i = None) as ->.
      { apply lookup_replicate_None. lia. }
      by destruct j. }
  rewrite Hzero.
  destruct (decide (i < n_points ∧ j < n_points ∧ i ≠ j)) as [(Hi & Hj & Hne) | Hn].
  - rewrite decide_True; [done |]. split_and!; [apply elem_of_seq; lia | done | done].
  - rewrite decide_False; [done |]. intros (Hin & Hj & Hne).
    apply elem_of_seq in Hin. apply Hn. split_and!; [lia | done | done].
Qed.

End BuildTimeMatProps.

Lemma build_time_mat_entries_witness :
  let self := TimeModel.Build_EuclidTimeModel 18%Q 1%Q (5 # 4)%Q 0%Q 123%Z tt in
  let mean_of := TimeModel.euclid_mean_travel_min (Generator := unit)
                   (λ x, x) (λ x, x) (λ x, x) (λ x, x) (λ x, x) in
  let mean := λ m a_lat a_lon b_lat b_lon, (mean_of m a_lat a_lon b_lat b_lon, m) in
  let sample := TimeModel.euclid_sample_travel_min
                  (λ x, x) (λ x, x) (λ x, x) (λ x, x) (λ x, x) (λ g _ _, (1%Q, g)) in
  let points := [(0, 0); (3, 4)]%Q in
  let r := PipelineRun._build_time_mat sample mean points self false in
  (∀ m a_lat a_lon b_lat b_lon, m = self →
     (mean m a_lat a_lon b_lat b_lon).2 = self ∧
     (mean m a_lat a_lon b_lat b_lon).1 = mean_of self a_lat a_lon b_lat b_lon) ∧
  length r.1 = 2 ∧ r.2 = self ∧
  cell (of_rows r.1) 0 1 = mean_of self 0%Q 0%Q 3%Q 4%Q ∧
  cell (of_rows r.1) 1 1 = 0%Q.
Proof.
  intros self mean_of mean sample points r.
  assert (Hq : ∀ m a_lat a_lon b_lat b_lon, m = self →
     (mean m a_lat a_lon b_lat b_lon).2 = self ∧
     (mean m a_lat a_lon b_lat b_lon).1 = mean_of self a_lat a_lon b_lat b_lon).
  { intros m a_lat a_lon b_lat b_lon ->. split; reflexivity. }
  split; [exact Hq |].
  destruct (build_time_mat_entries sample mean (λ m, m = self) (mean_of self) points false
              Hq self eq_refl) as (Hlen & _ & Hself & Hent).
  split_and!; [exact Hlen | exact Hself | exact (Hent 0 1) | exact (Hent 1 1)].
Defined.

(** ** Route costs and durations *)

Lemma zip_consecutive (route : list nat) :
  zip (removelast route) (tail route)
  = (λ i, (nth i route 0, nth (i + 1) route 0)) <$> seq 0 (length route - 1).
Proof.
  induction route as [| x [| y route] IH]; [done | done |].
  change (removelast (x :: y :: route)) with (x :: removelast (y :: route)).
  change (tail (x :: y :: route)) with (y :: route).
  change (zip (x :: removelast (y :: route)) (y :: route))
    with ((x, y) :: zip (removelast (y :: route)) (tail (y :: route))).
  rewrite IH. cbn [length]. rewrite !Nat.sub_succ, !Nat.sub_0_r.
  cbn [seq fmap list_fmap]. f_equal.
  rewrite <- fmap_S_seq, <- list_fmap_compose. done.
Qed.

(** X15: on a time matrix the route cost of [tsp.py], which runs over the
    pairs of consecutive stops, and the one of [route_solver.py], which runs
    over the positions, are the same sum of the same matrix entries in the
    same order. A route of fewer than two stops costs [0] in both. *)
Theorem route_costs_agree (fsqrt : Q → Q) (route : list nat) (dist_mat : matrix)
    (points : list point) :
  Tsp._route_cost fsqrt route (Some dist_mat) points
    = RouteSolver._route_cost route dist_mat ∧
  (length route ≤ 1 →
   Tsp._route_cost fsqrt route (Some dist_mat) points = 0%Q ∧
   RouteSolver._route_cost route dist_mat = 0%Q).
Proof.
  assert (Hsame : Tsp._route_cost fsqrt route (Some dist_mat) points
                  = RouteSolver._route_cost route dist_mat).
  { unfold RouteSolver._route_cost, Tsp._route_cost.
    rewrite zip_consecutive, foldl_fmap. done. }
  split; [exact Hsame |].
  intros Hlen. rewrite Hsame. unfold RouteSolver._route_cost.
  replace (length route - 1) with 0 by lia. done.
Qed.

(** ** The events of a vehicle *)

Lemma unique_index (route : list nat) (x i j : nat) :
  NoDup (filter (λ y, y ≠ 0) route) → x ≠ 0 →
  route !! i = Some x → route !! j = Some x → i = j.
Proof.
  revert i j. induction route as [| y route IH]; intros i j Hnd Hx Hi Hj; [done |].
  assert (Hin : ∀ k, route !! k = Some x → x ∈ filter (λ y, y ≠ 0) route).
  { intros k Hk. apply list_elem_of_filter. split; [done |].
    by eapply list_elem_of_lookup_2. }
  rewrite filter_cons in Hnd. destruct (decide (y ≠ 0)) as [Hy | Hy].
  - apply NoDup_cons in Hnd as [Hnotin Hnd].
    destruct i as [| i], j as [| j]; cbn in Hi, Hj.
    + done.
    + injection Hi as ->. destruct Hnotin. by eapply Hin.
    + injection Hj as ->. destruct Hnotin. by eapply Hin.
    + f_equal. by apply IH.
  - destruct i as [| i], j as [| j]; cbn in Hi, Hj.
    + done.
    + injection Hi as ->. done.
    + injection Hj as ->. done.
    + f_equal. by apply IH.
Qed.

Lemma times_at_snoc (route : list nat) (x : nat) (times : list Q) :
  PipelineRun.times_at (route ++ [x]) times
  = <[x := nth (length route) times 0%Q]> (PipelineRun.times_at route times).
Proof.
  unfold PipelineRun.times_at. rewrite imap_app, foldl_app. cbn [imap foldl fst snd].
  by rewrite Nat.add_0_r.
Qed.

Lemma times_at_lookup (route : list nat) (times : list Q) (i node : nat) :
  route !! i = Some node → (∀ j, route !! j = Some node → j = i) →
  PipelineRun.times_at route times !! node = Some (nth i times 0%Q).
Proof.
  induction route as [| x route IH] using rev_ind; intros Hi Huniq; [done |].
  rewrite times_at_snoc. destruct (decide (x = node)) as [-> | Hne].
  - rewrite lookup_insert_eq. f_equal. f_equal. apply Huniq.
    by rewrite lookup_app_r, Nat.sub_diag.
  - rewrite lookup_insert_ne by done.
    assert (Hlt : i < length route).
    { apply lookup_lt_Some in Hi as Hlt. rewrite length_app in Hlt. cbn in Hlt.
      destruct (decide (i = length route)) as [-> | ?]; [| lia].
      rewrite lookup_app_r, Nat.sub_diag in Hi by lia. cbn in Hi. congruence. }
    apply IH.
    + by rewrite lookup_app_l in Hi.
    + intros j Hj. apply Huniq. rewrite lookup_app_l; [done |].
      by eapply lookup_lt_Some.
Qed.

Lemma last_default {A : Type} (l : list A) (d : A) : List.last l d = default d (last l).
Proof. induction l as [| x [| y l] IH]; [done | done |]. exact IH. Qed.

Lemma event_nodes {E : Type} (g : nat * nat → option E) (node_of : E → nat)
    (route : list nat) (h : nat → nat) :
  (∀ i node, node = 0 → g (i, node) = None) →
  (∀ i node, node ≠ 0 → ∃ e, g (i, node) = Some e ∧ node_of e = node) →
  node_of <$> omap g (imap (λ i node, (h i, node)) route) = filter (λ y, y ≠ 0) route.
Proof.
  intros Hdepot Hpickup. revert h.
  induction route as [| x route IH]; intros h; [done |].
  rewrite imap_cons, filter_cons. cbn [omap list_omap].
  change (omap g (imap ((λ i node, (h i, node)) ∘ S) route))
    with (omap g (imap (λ i node, ((h ∘ S) i, node)) route)).
  destruct (decide (x ≠ 0)) as [Hx | Hx].
  - destruct (Hpickup (h 0) x Hx) as (e & -> & <-). cbn [fmap list_fmap].
    f_equal. apply IH.
  - rewrite Hdepot by lia. apply IH.
Qed.

(** What an event of a vehicle holds, by its stop. *)
Lemma vehicle_event_lookups (points : list point) (route_points : list nat)
    (dist_mean dist_act : matrix) (slot : Q) :
  NoDup (filter (λ y, y ≠ 0) route_points) →
  let promise_times :=
    Pipeline._simulate_timeline route_points dist_mean None (Some slot) in
  let actual_times :=
    Pipeline._simulate_timeline route_points dist_act (Some (nth 0 promise_times 0%Q)) None in
  Forall (λ e,
    route_points !! PipelineRun.stop_seq e = Some (PipelineRun.node_idx e) ∧
    PipelineRun.node_idx e ≠ 0 ∧
    promise_times !! PipelineRun.stop_seq e = Some (PipelineRun.pickup_promise_min e) ∧
    actual_times !! PipelineRun.stop_seq e = Some (PipelineRun.pickup_actual_min e) ∧
    last promise_times = Some (PipelineRun.center_promise_min e) ∧
    last actual_times = Some (PipelineRun.center_actual_min e) ∧
    PipelineRun.ride_time_min e
      = (PipelineRun.center_actual_min e - PipelineRun.pickup_actual_min e)%Q ∧
    (PipelineRun.pickup_lat e, PipelineRun.pickup_lon e)
      = nth (PipelineRun.node_idx e) points (0, 0)%Q)
    (PipelineRun.vehicle_events points route_points dist_mean dist_act slot).
Proof.
  intros Hnd promise_times actual_times.
  destruct (timeline_values route_points dist_mean None (Some slot)) as (Hplen & _ & _).
  destruct (timeline_values route_points dist_act (Some (nth 0 promise_times 0%Q)) None)
    as (Halen & _ & _).
  fold promise_times in Hplen. fold actual_times in Halen.
  rewrite length_segments in Hplen, Halen.
  assert (Hlast : ∀ l : list Q, l ≠ [] → last l = Some (List.last l 0%Q)).
  { intros l Hl. rewrite last_default. destruct (last l) eqn:E; [done |].
    by apply last_None in E. }
  apply Forall_forall. intros e He.
  unfold PipelineRun.vehicle_events in He.
  apply list_elem_of_omap in He as ([i0 node0] & Hin & He).
  apply elem_of_lookup_imap in Hin as (i & node & Heq & Hlook).
  injection Heq as -> ->.
  destruct (decide (node = 0)) as [| Hnode]; [done |].
  destruct (nth node points (0, 0)%Q) as [plat plon] eqn:Hpoint.
  injection He as <-. cbn [PipelineRun.stop_seq PipelineRun.node_idx
    PipelineRun.center_promise_min PipelineRun.pickup_promise_min
    PipelineRun.pickup_actual_min PipelineRun.pickup_lat PipelineRun.pickup_lon
    PipelineRun.ride_time_min PipelineRun.center_actual_min].
  fold promise_times. fold actual_times.
  assert (Huniq : ∀ j, route_points !! j = Some node → j = i).
  { intros j Hj. by eapply unique_index. }
  rewrite !(times_at_lookup route_points _ i node Hlook Huniq).
  cbn [from_option]. unfold id.
  apply lookup_lt_Some in Hlook as Hi.
  split_and!; [done | done | apply lookup_nth_lt; lia | apply lookup_nth_lt; lia
              | apply Hlast; by intros -> | apply Hlast; by intros -> | done | by rewrite Hpoint].
Qed.

(** X16: on a route that visits no pickup twice, a vehicle gets one event
    per pickup stop, in route order, and each event carries the times of its
    own stop: its promised and actual pickup times are the values of the two
    timelines at its position, its promised and actual arrival are their
    last values, and its ride time is the actual arrival minus the actual
    pickup, which is not negative when no sampled duration is. The actual
    timeline starts at the promised start. *)
Theorem vehicle_events_schedule (points : list point) (route_points : list nat)
    (dist_mean dist_act : matrix) (slot : Q) :
  NoDup (filter (λ y, y ≠ 0) route_points) →
  let events := PipelineRun.vehicle_events points route_points dist_mean dist_act slot in
  let promise_times :=
    Pipeline._simulate_timeline route_points dist_mean None (Some slot) in
  let actual_times :=
    Pipeline._simulate_timeline route_points dist_act (Some (nth 0 promise_times 0%Q)) None in
  PipelineRun.node_idx <$> events = filter (λ y, y ≠ 0) route_points ∧
  head actual_times = head promise_times ∧
  Forall (λ e,
    route_points !! PipelineRun.stop_seq e = Some (PipelineRun.node_idx e) ∧
    promise_times !! PipelineRun.stop_seq e = Some (PipelineRun.pickup_promise_min e) ∧
    actual_times !! PipelineRun.stop_seq e = Some (PipelineRun.pickup_actual_min e) ∧
    last promise_times = Some (PipelineRun.center_promise_min e) ∧
    last actual_times = Some (PipelineRun.center_actual_min e) ∧
    PipelineRun.ride_time_min e
      = (PipelineRun.center_actual_min e - PipelineRun.pickup_actual_min e)%Q ∧
    ((∀ a b, (0 <= cell dist_act a b)%Q) → (0 <= PipelineRun.ride_time_min e)%Q)) events.
Proof.
  intros Hnd events promise_times actual_times. split_and!.
  - unfold events, PipelineRun.vehicle_events.
    apply (event_nodes _ PipelineRun.node_idx route_points (λ i, i)).
    + intros i node ->. done.
    + intros i node Hnode. rewrite decide_False by done.
      destruct (nth node points (0, 0)%Q). by eexists.
  - destruct (timeline_values route_points dist_mean None (Some slot)) as (_ & Hhead & _).
    destruct (timeline_values route_points dist_act (Some (nth 0 promise_times 0%Q)) None)
      as (_ & Hahead & _).
    fold promise_times in Hhead. fold actual_times in Hahead.
    rewrite Hahead. by destruct promise_times.
  - eapply Forall_impl; [exact (vehicle_event_lookups points _ dist_mean dist_act slot Hnd) |].
    cbn beta zeta. fold promise_times. fold actual_times.
    intros e (Hlook & _ & Hpp & Hpa & Hcp & Hca & Hride & _).
    split_and!; [done.. |]. intros Hpos. rewrite Hride.
    destruct (timeline_values route_points dist_act (Some (nth 0 promise_times 0%Q)) None)
      as (Hlen & _ & Hnth).
    fold actual_times in Hlen, Hnth. cbn zeta in Hnth.
    set (legs := Pipeline.segments route_points dist_act) in *.
    apply lookup_lt_Some in Hpa as Hi.
    destruct (Hnth (PipelineRun.stop_seq e) ltac:(lia)) as (xa & Hxa & Hxav).
    destruct (Hnth (length legs) ltac:(lia)) as (xl & Hxl & Hxlv).
    rewrite last_lookup, Hlen in Hca. cbn [pred] in Hca.
    assert (xa = PipelineRun.pickup_actual_min e) as <- by congruence.
    assert (xl = PipelineRun.center_actual_min e) as <- by congruence.
    pose proof (prefix_sums_monotone legs (PipelineRun.stop_seq e) (length legs)
                  (segments_nonneg route_points dist_act Hpos) ltac:(lia)).
    lra.
Qed.

Lemma vehicle_events_schedule_witness :
  let m := of_rows [[0; 5; 9]; [7; 0; 4]; [6; 3; 0]]%Q in
  let a := of_rows [[0; 6; 9]; [7; 0; 5]; [8; 3; 0]]%Q in
  let points := [(0, 0); (1, 1); (2, 2)]%Q in
  NoDup (filter (λ y, y ≠ 0) [0; 2; 1; 0]) ∧
  PipelineRun.node_idx <$> PipelineRun.vehicle_events points [0; 2; 1; 0] m a 540%Q
    = [2; 1].
Proof.
  intros m a points.
  assert (Hnd : NoDup (filter (λ y, y ≠ 0) [0; 2; 1; 0])).
  { cbn. apply NoDup_cons. split; [| apply NoDup_singleton].
    intros Hin. apply list_elem_of_singleton in Hin. done. }
  split; [exact Hnd |].
  exact (proj1 (vehicle_events_schedule points [0; 2; 1; 0] m a 540%Q Hnd)).
Defined.

(** X23: when the sampled matrix equals the mean matrix, the actual timeline
    is the promised one, value for value, and every event has its actual
    pickup and arrival exactly at the promised times. *)
Theorem events_on_time (points : list point) (route_points : list nat)
    (dist_mean dist_act : matrix) (slot : Q) :
  (∀ a b, cell dist_act a b = cell dist_mean a b) →
  let promise_times :=
    Pipeline._simulate_timeline route_points dist_mean None (Some slot) in
  Pipeline._simulate_timeline route_points dist_act (Some (nth 0 promise_times 0%Q)) None
    = promise_times ∧
  Forall (λ e,
    PipelineRun.pickup_actual_min e = PipelineRun.pickup_promise_min e ∧
    PipelineRun.center_actual_min e = PipelineRun.center_promise_min e)
    (PipelineRun.vehicle_events points route_points dist_mean dist_act slot).
Proof.
  intros Hsame promise_times.
  assert (Hlegs : Pipeline.segments route_points dist_act
                  = Pipeline.segments route_points dist_mean).
  { unfold Pipeline.segments. apply list_fmap_ext. intros i [a b] _. apply Hsame. }
  assert (Htimes : Pipeline._simulate_timeline route_points dist_act
                     (Some (nth 0 promise_times 0%Q)) None = promise_times).
  { destruct (timeline_values route_points dist_mean None (Some slot)) as (_ & Hhead & _).
    fold promise_times in Hhead.
    assert (nth 0 promise_times 0%Q
            = (slot - foldl Qplus 0 (Pipeline.segments route_points dist_mean))%Q) as ->.
    { destruct promise_times; cbn in Hhead |- *; congruence. }
    unfold promise_times, Pipeline._simulate_timeline. by rewrite Hlegs. }
  split; [exact Htimes |].
  apply Forall_forall. intros e He. unfold PipelineRun.vehicle_events in He.
  fold promise_times in He. rewrite Htimes in He.
  apply list_elem_of_omap in He as ([i node] & _ & He).
  destruct (decide (node = 0)); [done |].
  destruct (nth node points (0, 0)%Q). injection He as <-. done.
Qed.

Lemma events_on_time_witness :
  let m := of_rows [[0; 5; 9]; [7; 0; 4]; [6; 3; 0]]%Q in
  let points := [(0, 0); (1, 1); (2, 2)]%Q in
  (∀ a b, cell m a b = cell m a b) ∧
  Forall (λ e,
    PipelineRun.pickup_actual_min e = PipelineRun.pickup_promise_min e ∧
    PipelineRun.center_actual_min e = PipelineRun.center_promise_min e)
    (PipelineRun.vehicle_events points [0; 2; 1; 0] m m 540%Q).
Proof.
  intros m points.
  assert (Hsame : ∀ a b, cell m a b = cell m a b) by done.
  split; [exact Hsame |].
  exact (proj2 (events_on_time points [0; 2; 1; 0] m m 540%Q Hsame)).
Defined.

(** ** Slot times *)

Lemma split_length (sep : ascii) (s : string) :
  length (str_split sep s) = S (count_occ ascii_dec (String.list_ascii_of_string s) sep).
Proof.
  induction s as [| c s IH]; [done |].
  cbn [str_split String.list_ascii_of_string count_occ].
  destruct (Ascii.eqb_spec c sep) as [-> | Hne].
  - destruct (ascii_dec sep sep) as [_ | ?]; [| done]. cbn [length]. by rewrite IH.
  - destruct (ascii_dec c sep) as [? | _]; [done |].
    destruct (str_split sep s); [done |]. exact IH.
Qed.

Lemma split_none (sep : ascii) (s : string) :
  ¬ In sep (String.list_ascii_of_string s) → str_split sep s = [s].
Proof.
  induction s as [| c s IH]; intros Hnot; [done |].
  cbn [str_split]. cbn [String.list_ascii_of_string In] in Hnot.
  destruct (Ascii.eqb_spec c sep) as [-> | Hne]; [tauto |].
  rewrite IH by tauto. done.
Qed.

Lemma split_at (sep : ascii) (h m : string) :
  ¬ In sep (String.list_ascii_of_string h) →
  str_split sep (h +:+ String sep m) = h :: str_split sep m.
Proof.
  induction h as [| c h IH]; intros Hnot.
  - change ("" +:+ String sep m) with (String sep m).
    cbn [str_split]. by rewrite Ascii.eqb_refl.
  - cbn [String.list_ascii_of_string In] in Hnot.
    change (String c h +:+ String sep m) with (String c (h +:+ String sep m)).
    cbn [str_split].
    destruct (Ascii.eqb_spec c sep) as [-> | Hne]; [tauto |].
    rewrite IH by tauto. done.
Qed.

(** X17: a slot time is read as hours times 60 plus minutes from a string
    with exactly one colon, without any check of the ranges: whatever the two
    parts parse to is accepted, and up to [2^53] minutes in magnitude the
    result is that number exactly. A string without a colon or with more than
    one, or with a part that is no integer, or with a number of minutes too
    large for a double, raises the configuration error that quotes the
    string, and nothing else is ever raised. *)
Theorem hhmm_to_min_spec (py_int : string → option Z) (nearest_double : Z → Q) :
  let hhmm_to_min := PipelineRun._hhmm_to_min py_int nearest_double in
  (∀ h m a b,
     ¬ In ":"%char (String.list_ascii_of_string h) →
     ¬ In ":"%char (String.list_ascii_of_string m) →
     py_int h = Some a → py_int m = Some b →
     ((Z.abs (a * 60 + b) <= 2 ^ 53)%Z →
      hhmm_to_min (h +:+ ":" +:+ m) = Ok (inject_Z (a * 60 + b))) ∧
     ((2 ^ 1024 - 2 ^ 970 <= Z.abs (a * 60 + b))%Z →
      hhmm_to_min (h +:+ ":" +:+ m)
      = Raise (ConfigError ("Invalid HH:MM format: " +:+ h +:+ ":" +:+ m)))) ∧
  (∀ h m,
     ¬ In ":"%char (String.list_ascii_of_string h) →
     ¬ In ":"%char (String.list_ascii_of_string m) →
     py_int h = None ∨ py_int m = None →
     hhmm_to_min (h +:+ ":" +:+ m)
     = Raise (ConfigError ("Invalid HH:MM format: " +:+ h +:+ ":" +:+ m))) ∧
  (∀ hhmm,
     count_occ ascii_dec (String.list_ascii_of_string hhmm) ":"%char ≠ 1 →
     hhmm_to_min hhmm = Raise (ConfigError ("Invalid HH:MM format: " +:+ hhmm))) ∧
  (∀ hhmm e,
     hhmm_to_min hhmm = Raise e →
     e = ConfigError ("Invalid HH:MM format: " +:+ hhmm)).
Proof.
  intros hhmm_to_min. unfold hhmm_to_min. split_and!.
  - intros h m a b Hh Hm Ha Hb. unfold PipelineRun._hhmm_to_min.
    change (h +:+ ":" +:+ m) with (h +:+ String ":" m).
    rewrite split_at, split_none by done. rewrite Ha, Hb.
    unfold PipelineRun.float_of_int. split; intros Hsize.
    + by rewrite (proj2 (Z.leb_le _ _) Hsize).
    + assert (2 ^ 53 < 2 ^ 1024 - 2 ^ 970)%Z as Hgap by (vm_compute; reflexivity).
      rewrite (proj2 (Z.leb_gt _ _)) by lia. by rewrite (proj2 (Z.ltb_ge _ _)) by lia.
  - intros h m Hh Hm Hnone. unfold PipelineRun._hhmm_to_min.
    change (h +:+ ":" +:+ m) with (h +:+ String ":" m).
    rewrite split_at, split_none by done.
    destruct (py_int h); [| done]. destruct (py_int m); [| done].
    by destruct Hnone.
  - intros hhmm Hcount. unfold PipelineRun._hhmm_to_min.
    pose proof (split_length ":" hhmm) as Hlen.
    destruct (str_split ":" hhmm) as [| h [| m [| x rest]]]; [done | done | | done].
    cbn [length] in Hlen. lia.
  - intros hhmm e. unfold PipelineRun._hhmm_to_min.
    destruct (str_split ":" hhmm) as [| h [| m [| x rest]]]; [congruence.. | |];
      [| congruence].
    destruct (py_int h); [| congruence]. destruct (py_int m); [| congruence].
    destruct (PipelineRun.float_of_int _ _); congruence.
Qed.

Lemma hhmm_to_min_spec_witness :
  let py_int := λ s : string,
    if String.eqb s "25" then Some 25%Z else if String.eqb s "99" then Some 99%Z else None in
  let nearest_double := λ z : Z, inject_Z z in
  PipelineRun._hhmm_to_min py_int nearest_double "25:99" = Ok (inject_Z (25 * 60 + 99)) ∧
  PipelineRun._hhmm_to_min py_int nearest_double "2599"
  = Raise (ConfigError "Invalid HH:MM format: 2599").
Proof.
  intros py_int nearest_double.
  destruct (hhmm_to_min_spec py_int nearest_double) as (Hok & _ & Hbad & _). split.
  - apply (Hok "25" "99" 25%Z 99%Z); [| | reflexivity | reflexivity |].
    + cbn. intros [H | [H | []]]; discriminate H.
    + cbn. intros [H | [H | []]]; discriminate H.
    + vm_compute. discriminate.
  - apply (Hbad "2599"). vm_compute. discriminate.
Defined.

(** ** Configuration dictionaries *)

Section ConfigDicts.
Import Config.

Lemma dict_get_set_eq (k : string) (v : value) (d : dict) :
  dict_get k (dict_set k v d) = Some v.
Proof.
  induction d as [| [k' v'] d IH]; cbn [dict_set dict_get].
  - by rewrite String.eqb_refl.
  - destruct (String.eqb_spec k' k) as [-> | Hne]; cbn [dict_get].
    + by rewrite String.eqb_refl.
    + by rewrite (proj2 (String.eqb_neq _ _) Hne).
Qed.

Lemma dict_get_set_ne (k k' : string) (v : value) (d : dict) :
  k ≠ k' → dict_get k' (dict_set k v d) = dict_get k' d.
Proof.
  intros Hne. induction d as [| [k1 v1] d IH]; cbn [dict_set dict_get].
  - by rewrite (proj2 (String.eqb_neq _ _) Hne).
  - destruct (String.eqb_spec k1 k) as [-> | Hne1]; cbn [dict_get].
    + by rewrite !(proj2 (String.eqb_neq _ _) Hne).
    + destruct (String.eqb k1 k'); [done | exact IH].
Qed.

Lemma dict_get_None (k : string) (d : dict) : dict_get k d = None ↔ k ∉ d.*1.
Proof.
  induction d as [| [k' v'] d IH]; cbn [dict_get fmap list_fmap fst].
  - split; [intros _; apply not_elem_of_nil | done].
  - rewrite not_elem_of_cons. destruct (String.eqb_spec k' k) as [-> | Hne].
    + split; [done | tauto].
    + rewrite IH. split; [intros ?; split; [congruence | done] | tauto].
Qed.

Lemma dict_set_new (k : string) (v : value) (d : dict) :
  k ∉ d.*1 → dict_set k v d = d ++ [(k, v)].
Proof.
  induction d as [| [k' v'] d IH]; intros Hk; [done |].
  cbn [fmap list_fmap fst] in Hk. apply not_elem_of_cons in Hk as [Hne Hk].
  cbn [dict_set]. rewrite (proj2 (String.eqb_neq _ _)) by congruence.
  by rewrite IH.
Qed.

Lemma dict_set_keys (k : string) (v : value) (d : dict) :
  k ∈ d.*1 → (dict_set k v d).*1 = d.*1.
Proof.
  induction d as [| [k' v'] d IH]; intros Hk; [by apply elem_of_nil in Hk |].
  cbn [dict_set]. destruct (String.eqb_spec k' k) as [-> | Hne]; [done |].
  cbn [fmap list_fmap fst] in Hk |- *. apply elem_of_cons in Hk as [-> | Hk]; [done |].
  f_equal. by apply IH.
Qed.

Lemma rec_item_keys (a : dict) (k : string) (v : value) :
  (rec_item a (k, v)).*1 = if decide (k ∈ a.*1) then a.*1 else a.*1 ++ [k].
Proof.
  assert (Hset : ∀ w, (dict_set k w a).*1
                      = if decide (k ∈ a.*1) then a.*1 else a.*1 ++ [k]).
  { intros w. destruct (decide (k ∈ a.*1)) as [Hin | Hnot].
    - by apply dict_set_keys.
    - rewrite dict_set_new by done. by rewrite fmap_app. }
  unfold rec_item. cbn [fst snd].
  destruct v; try apply Hset. destruct (dict_get k a) as [[] |]; apply Hset.
Qed.

Lemma rec_item_get (a : dict) (k : string) (v : value) :
  dict_get k (rec_item a (k, v))
  = match v, dict_get k a with
    | VDict vb, Some (VDict ak) => Some (VDict (merge_dicts ak vb))
    | _, _ => Some v
    end.
Proof.
  unfold rec_item. cbn [fst snd].
  destruct v; try apply dict_get_set_eq.
  destruct (dict_get k a) as [[] |]; apply dict_get_set_eq.
Qed.

Lemma rec_item_get_ne (a : dict) (k k' : string) (v : value) :
  k ≠ k' → dict_get k' (rec_item a (k, v)) = dict_get k' a.
Proof.
  intros Hne. unfold rec_item. cbn [fst snd].
  destruct v; try by apply dict_get_set_ne.
  destruct (dict_get k a) as [[] |]; by apply dict_get_set_ne.
Qed.

Lemma rec_items (a b : dict) : rec a (VDict b) = foldl rec_item a b.
Proof.
  revert a. induction b as [| [k v] b IH]; intros a; [done |].
  cbn [foldl]. rewrite <- IH. done.
Qed.

Lemma merge_get (k : string) (b a : dict) :
  NoDup b.*1 →
  dict_get k (foldl rec_item a b)
  = match dict_get k b with
    | None => dict_get k a
    | Some v =>
        match v, dict_get k a with
        | VDict vb, Some (VDict ak) => Some (VDict (merge_dicts ak vb))
        | _, _ => Some v
        end
    end.
Proof.
  revert a. induction b as [| [k1 v1] b IH]; intros a Hnd; [done |].
  cbn [fmap list_fmap fst] in Hnd. apply NoDup_cons in Hnd as [Hk1 Hnd].
  cbn [foldl dict_get]. rewrite IH by done.
  destruct (String.eqb_spec k1 k) as [-> | Hne].
  - rewrite (proj2 (dict_get_None k b) Hk1). apply rec_item_get.
  - by rewrite rec_item_get_ne.
Qed.

Lemma filter_ext_in {A : Type} (P1 P2 : A → Prop)
    `{!∀ x, Decision (P1 x), !∀ x, Decision (P2 x)} (l : list A) :
  Forall (λ x, P1 x ↔ P2 x) l → filter P1 l = filter P2 l.
Proof.
  induction 1 as [| x l Hx _ IH]; [done |]. rewrite !filter_cons, IH.
  destruct (decide (P1 x)), (decide (P2 x)); tauto.
Qed.

Lemma merge_keys (b a : dict) :
  NoDup b.*1 →
  (foldl rec_item a b).*1 = a.*1 ++ filter (λ k, k ∉ a.*1) b.*1.
Proof.
  revert a. induction b as [| [k1 v1] b IH]; intros a Hnd.
  - cbn. by rewrite app_nil_r.
  - cbn [fmap list_fmap fst] in Hnd. apply NoDup_cons in Hnd as [Hk1 Hnd].
    cbn [foldl fmap list_fmap fst]. rewrite IH, rec_item_keys, filter_cons by done.
    destruct (decide (k1 ∈ a.*1)) as [Hin | Hnot].
    + rewrite decide_False by tauto. done.
    + rewrite decide_True by done. rewrite <- app_assoc. cbn [app]. do 2 f_equal.
      apply filter_ext_in. apply Forall_forall. intros k Hk.
      rewrite elem_of_app, list_elem_of_singleton.
      split; [tauto |]. intros Hka [? | ->]; done.
Qed.

(** X18: merging an override into a base: a key of the override takes the
    override's value, except that two dictionaries under the same key are
    merged in turn; a key of the base alone keeps its value. The keys of the
    base keep their order and the new keys follow in the override's order,
    so that merging into an empty base gives the override back, and merging
    an empty override gives the base back. *)
Theorem merge_dicts_spec (base override : dict) :
  NoDup override.*1 →
  (∀ k, dict_get k (merge_dicts base override)
        = match dict_get k override with
          | None => dict_get k base
          | Some v =>
              match v, dict_get k base with
              | VDict vb, Some (VDict ak) => Some (VDict (merge_dicts ak vb))
              | _, _ => Some v
              end
          end) ∧
  (merge_dicts base override).*1
    = base.*1 ++ filter (λ k, k ∉ base.*1) override.*1 ∧
  merge_dicts [] override = override ∧
  merge_dicts base [] = base.
Proof.
  intros Hnd. unfold merge_dicts at 1 3 4 5. rewrite !rec_items. split_and!.
  - intros k. by apply merge_get.
  - by apply merge_keys.
  - clear base. change override with ([] ++ override) at 2.
    assert (Hgen : ∀ a, NoDup (a.*1 ++ override.*1) →
                        foldl rec_item a override = a ++ override).
    { induction override as [| [k v] b IH]; intros a Ha.
      - cbn. by rewrite app_nil_r.
      - cbn [fmap list_fmap fst] in Ha, Hnd. apply NoDup_cons in Hnd as [_ Hnd].
        apply NoDup_app in Ha as Ha'. destruct Ha' as (_ & Hdis & _).
        assert (Hk : k ∉ a.*1).
        { intros Hin. apply (Hdis k Hin). by left. }
        cbn [foldl].
        assert (rec_item a (k, v) = a ++ [(k, v)]) as ->.
        { unfold rec_item. cbn [fst snd]. rewrite (proj2 (dict_get_None k a) Hk).
          destruct v; by apply dict_set_new. }
        rewrite IH; [by rewrite <- app_assoc | done |].
        rewrite fmap_app. cbn [fmap list_fmap fst]. rewrite <- app_assoc. exact Ha. }
    apply Hgen. exact Hnd.
  - done.
Qed.

Lemma merge_dicts_spec_witness :
  let base := [("sim", VDict [("seed", VInt 1); ("detour_factor", VFloat (5 # 4))]);
               ("fleet", VDict [("capacity_gen", VInt 8)])] in
  let override := [("sim", VDict [("seed", VInt 7)]); ("routing", VStr "time_nn")] in
  NoDup override.*1 ∧
  (merge_dicts base override).*1 = ["sim"; "fleet"; "routing"] ∧
  dict_get "sim" (merge_dicts base override)
  = Some (VDict [("seed", VInt 7); ("detour_factor", VFloat (5 # 4))]).
Proof.
  intros base override.
  assert (Hnd : NoDup override.*1).
  { cbn. apply NoDup_cons. split; [| apply NoDup_singleton].
    intros Hin. apply list_elem_of_singleton in Hin. discriminate Hin. }
  split; [exact Hnd |].
  destruct (merge_dicts_spec base override Hnd) as (Hget & Hkeys & _). split.
  - rewrite Hkeys. reflexivity.
  - rewrite (Hget "sim"). reflexivity.
Defined.

Lemma deep_set_loop_spec (p : string) (keys : list string) (last_key : string)
    (v : value) (cur cur' : dict) :
  deep_set_loop p cur keys last_key v = Ok cur' →
  deep_get cur' (keys ++ [last_key]) = Some v ∧
  ∀ k', k' ≠ hd last_key keys → dict_get k' cur' = dict_get k' cur.
Proof.
  revert cur cur'. induction keys as [| k keys IH]; intros cur cur' Hrun.
  - cbn in Hrun. injection Hrun as <-. cbn [app deep_get hd]. split.
    + apply dict_get_set_eq.
    + intros k' Hne. by apply dict_get_set_ne.
  - cbn [deep_set_loop] in Hrun.
    assert (Hdescend : ∀ nxt,
      match deep_set_loop p nxt keys last_key v with
      | Ok nxt' => Ok (dict_set k (VDict nxt') cur)
      | Raise e => Raise e
      end = Ok cur' →
      deep_get cur' ((k :: keys) ++ [last_key]) = Some v ∧
      ∀ k', k' ≠ hd last_key (k :: keys) → dict_get k' cur' = dict_get k' cur).
    { intros nxt Hnxt.
      destruct (deep_set_loop p nxt keys last_key v) as [nxt' |] eqn:Hloop; [| done].
      injection Hnxt as <-. destruct (IH _ _ Hloop) as [Hget _]. split.
      - change ((k :: keys) ++ [last_key]) with (k :: (keys ++ [last_key])).
        cbn [deep_get]. rewrite dict_get_set_eq.
        destruct (keys ++ [last_key]) eqn:Hk; [by destruct keys | done].
      - intros k' Hne. cbn [hd] in Hne. by apply dict_get_set_ne. }
    destruct (dict_get k cur) as [[] |]; try done; by eapply Hdescend, Hrun.
Qed.

Lemma deep_set_loop_raises (p : string) (keys : list string) (last_key : string)
    (v : value) (cur : dict) (e : exn) :
  deep_set_loop p cur keys last_key v = Raise e →
  ∃ path nxt, path `prefix_of` keys ∧ deep_get cur path = Some nxt ∧
    type_name nxt ≠ "dict" ∧ nxt ≠ VNone ∧
    e = ConfigError ("Cannot deep-set '" +:+ p +:+ "': '" +:+ List.last path ""
                     +:+ "' is not a dict (got " +:+ type_name nxt +:+ ")").
Proof.
  revert cur. induction keys as [| k keys IH]; intros cur Hrun; [done |].
  cbn [deep_set_loop] in Hrun.
  assert (Hdescend : ∀ nxt,
    (nxt = [] ∨ dict_get k cur = Some (VDict nxt)) →
    match deep_set_loop p nxt keys last_key v with
    | Ok nxt' => Ok (dict_set k (VDict nxt') cur)
    | Raise e => Raise e
    end = Raise e →
    ∃ path nxt, path `prefix_of` k :: keys ∧ deep_get cur path = Some nxt ∧
      type_name nxt ≠ "dict" ∧ nxt ≠ VNone ∧
      e = ConfigError ("Cannot deep-set '" +:+ p +:+ "': '" +:+ List.last path ""
                       +:+ "' is not a dict (got " +:+ type_name nxt +:+ ")")).
  { intros nxt Hnxt Hraise.
    destruct (deep_set_loop p nxt keys last_key v) as [| e'] eqn:Hloop; [done |].
    injection Hraise as ->.
    destruct (IH _ Hloop) as (path & bad & Hpre & Hget & Hty & Hnone & ->).
    destruct Hnxt as [-> | Hnxt].
    - by destruct path as [| ? [| ? ?]].
    - exists (k :: path), bad. split_and!; [| | done | done |].
      + by apply prefix_cons.
      + cbn [deep_get]. destruct path as [| k1 path]; [done |]. by rewrite Hnxt.
      + by destruct path. }
  destruct (dict_get k cur) as [nxt |] eqn:Hk.
  - destruct nxt; try (injection Hrun as <-; exists [k]; eexists;
      split_and!; [apply prefix_cons, prefix_nil | cbn [deep_get]; exact Hk
                  | done | done | done]).
    + apply (Hdescend []); [by left | done].
    + apply (Hdescend items); [by right | done].
  - apply (Hdescend []); [by left | done].
Qed.

(** X19: after a successful [deep_set] the value is found by following the
    dotted path through the nested dictionaries, and every top-level key other
    than the first component of the path keeps its value. A path without a
    dot always succeeds and sets that key. The only failure is the
    configuration error raised when the components before the last lead to a
    value that is neither [None] nor a dictionary; it names the component and
    the type of that value. *)
Theorem deep_set_spec (cfg : dict) (dotted_path : string) (v : value) :
  let keys := str_split "." dotted_path in
  (∀ cfg', deep_set cfg dotted_path v = Ok cfg' →
     deep_get cfg' keys = Some v ∧
     ∀ k', k' ≠ hd "" keys → dict_get k' cfg' = dict_get k' cfg) ∧
  (¬ In "."%char (String.list_ascii_of_string dotted_path) →
     deep_set cfg dotted_path v = Ok (dict_set dotted_path v cfg)) ∧
  (∀ e, deep_set cfg dotted_path v = Raise e →
     ∃ path nxt, path `prefix_of` removelast keys ∧ deep_get cfg path = Some nxt ∧
       type_name nxt ≠ "dict" ∧ nxt ≠ VNone ∧
       e = ConfigError ("Cannot deep-set '" +:+ dotted_path +:+ "': '"
                        +:+ List.last path "" +:+ "' is not a dict (got "
                        +:+ type_name nxt +:+ ")")).
Proof.
  intros keys. unfold deep_set. fold keys.
  assert (Hkeys : keys = removelast keys ++ [List.last keys ""]).
  { apply app_removelast_last. intros Hnil.
    pose proof (split_length "." dotted_path) as Hlen. fold keys in Hlen.
    by rewrite Hnil in Hlen. }
  split_and!.
  - intros cfg' Hrun. apply deep_set_loop_spec in Hrun as [Hget Hother].
    rewrite <- Hkeys in Hget. split; [exact Hget |].
    intros k' Hne. apply Hother. intros ->. apply Hne.
    clear -Hkeys. by destruct keys as [| x [| y l]].
  - intros Hnodot. unfold keys. rewrite split_none by done. done.
  - intros e Hrun. by apply deep_set_loop_raises in Hrun.
Qed.

Lemma deep_set_spec_witness :
  let cfg := [("sim", VDict [("seed", VInt 1)]); ("fleet", VNone)] in
  ¬ In "."%char (String.list_ascii_of_string "seed") ∧
  deep_set cfg "seed" (VInt 5) = Ok (dict_set "seed" (VInt 5) cfg) ∧
  deep_set cfg "fleet.capacity_wc" (VInt 2)
  = Ok [("sim", VDict [("seed", VInt 1)]); ("fleet", VDict [("capacity_wc", VInt 2)])] ∧
  deep_get [("sim", VDict [("seed", VInt 1)]); ("fleet", VDict [("capacity_wc", VInt 2)])]
           (str_split "." "fleet.capacity_wc") = Some (VInt 2).
Proof.
  intros cfg.
  assert (Hnodot : ¬ In "."%char (String.list_ascii_of_string "seed")).
  { cbn. intros [H | [H | [H | [H | []]]]]; discriminate H. }
  assert (Hrun : deep_set cfg "fleet.capacity_wc" (VInt 2)
    = Ok [("sim", VDict [("seed", VInt 1)]); ("fleet", VDict [("capacity_wc", VInt 2)])])
    by reflexivity.
  split_and!; [exact Hnodot | | exact Hrun |].
  - exact (proj1 (proj2 (deep_set_spec cfg "seed" (VInt 5))) Hnodot).
  - exact (proj1 (proj1 (deep_set_spec cfg "fleet.capacity_wc" (VInt 2)) _ Hrun)).
Defined.

End ConfigDicts.

(** ** Generated requests *)

Section DemandProps.
Import Demand.
Context {Generator : Type}.
Variable default_rng : Z → result Generator.
Variable integers : Generator → Z → Z → Z * Generator.
Variable uniform : Generator → Q → Q → Q * Generator.
Variable random : Generator → Q * Generator.
Variables cos sin deg2rad : Q → Q.
Variable pi : Q.
Variable repr_float : Q → string.

Variable centers_df : list Center.
Variable mode : string.

(** [rng.integers(0, high)] answers an index below [high]. *)
Hypothesis integers_in_range : ∀ g high,
  (0 < high)%Z → (0 <= (integers g 0 high).1 < high)%Z.

Abbreviation sample_near := (_sample_point_near uniform cos sin deg2rad pi repr_float).
Abbreviation step := (request_step integers uniform random cos sin deg2rad pi repr_float).
Abbreviation build := (build_requests default_rng integers uniform random
                         cos sin deg2rad pi repr_float).
Abbreviation radius_ok := (λ dcfg : DemandConfig,
  (0 <= radius_min_km dcfg)%Q ∧ (radius_min_km dcfg <= radius_max_km dcfg)%Q ∧
  (0 < radius_max_km dcfg)%Q).
Abbreviation request_ok := (λ r : Request,
  ∃ c, centers_df !! Z.to_nat (center_id r) = Some c ∧
    (0 <= center_id r < Z.of_nat (length centers_df))%Z ∧
    gu r = SIGNGU_NM c ∧ center_name r = FCLTY_NM c ∧
    center_lat r = FCLTY_CRDNT_LA c ∧ center_lon r = FCLTY_CRDNT_LO c ∧
    (mode = "to_center" → drop_lat r = center_lat r ∧ drop_lon r = center_lon r) ∧
    (mode ≠ "to_center" → pickup_lat r = center_lat r ∧ pickup_lon r = center_lon r) ∧
    (bus_type r = "WC" ∨ bus_type r = "GEN")).

Lemma request_step_spec (c0 : Center) (dcfg : DemandConfig) (ts : string)
    (st st' : list Request * Generator) (i : nat) :
  centers_df ≠ [] →
  step centers_df c0 dcfg mode ts st i = Ok st' →
  ∃ r, st'.1 = st.1 ++ [r] ∧ timeslot r = ts ∧ request_ok r ∧ radius_ok dcfg.
Proof using integers_in_range.
  clear default_rng. intros Hne. unfold request_step. destruct st as [reqs rng].
  pose proof (integers_in_range rng (Z.of_nat (length centers_df))) as Hrange.
  destruct (integers rng 0 (Z.of_nat (length centers_df))) as [cidx rng1].
  cbn [fst] in Hrange.
  assert (Hlen : (0 < Z.of_nat (length centers_df))%Z).
  { destruct centers_df; [done | cbn [length]; lia]. }
  specialize (Hrange Hlen).
  set (c := nth (Z.to_nat cidx) centers_df c0).
  assert (Hc : centers_df !! Z.to_nat cidx = Some c).
  { unfold c. apply lookup_nth_lt. lia. }
  unfold _sample_point_near.
  destruct (decide ((radius_min_km dcfg < 0)%Q ∨ (radius_max_km dcfg <= 0)%Q
                    ∨ (radius_max_km dcfg < radius_min_km dcfg)%Q)) as [| Hrad]; [done |].
  destruct (uniform rng1 _ _) as [u rng2]. destruct (uniform rng2 _ _) as [theta rng3].
  destruct (random rng3) as [x rng4].
  assert (Hradius : radius_ok dcfg).
  { split_and!.
    - destruct (Qlt_le_dec (radius_min_km dcfg) 0); [tauto | done].
    - destruct (Qlt_le_dec (radius_max_km dcfg) (radius_min_km dcfg)); [tauto | done].
    - destruct (Qlt_le_dec 0 (radius_max_km dcfg)); [done | tauto]. }
  destruct (String.eqb_spec mode "to_center") as [Hmode | Hmode];
    intros [= <-]; eexists; cbn [fst snd]; (split; [reflexivity |]);
    (split; [reflexivity |]); (split; [| exact Hradius]);
    exists c; cbn [center_id gu center_name center_lat center_lon drop_lat drop_lon
                   pickup_lat pickup_lon bus_type fst snd];
    (split_and!; [exact Hc | lia | lia | done | done | done | done | done | done |
                  destruct (bool_decide _); [by left | by right]]).
Qed.

Lemma slot_loop_spec (c0 : Center) (dcfg : DemandConfig) (ts : string) (l : list nat)
    (st st' : list Request * Generator) :
  centers_df ≠ [] →
  for_each (step centers_df c0 dcfg mode ts) st l = Ok st' →
  ∃ new, st'.1 = st.1 ++ new ∧ timeslot <$> new = replicate (length l) ts ∧
    Forall request_ok new ∧ (l ≠ [] → radius_ok dcfg).
Proof using integers_in_range.
  intros Hne. revert st. induction l as [| i l IH]; intros st Hrun.
  - injection Hrun as <-. exists []. by rewrite app_nil_r.
  - cbn [for_each] in Hrun.
    destruct (step centers_df c0 dcfg mode ts st i) as [st1 |] eqn:Hstep; [| done].
    destruct (request_step_spec _ _ _ _ _ _ Hne Hstep) as (r & Hst1 & Hts & Hok & Hrad).
    destruct (IH _ Hrun) as (new & Hst' & Htss & Hoks & _).
    exists (r :: new). split_and!.
    + rewrite Hst', Hst1, <- app_assoc. done.
    + cbn. by rewrite Hts, Htss.
    + by constructor.
    + done.
Qed.

Lemma slots_loop_spec (c0 : Center) (dcfg : DemandConfig) (timeslots : list string)
    (st st' : list Request * Generator) :
  centers_df ≠ [] →
  for_each (λ st ts, for_each (step centers_df c0 dcfg mode ts) st
                       (seq 0 (Z.to_nat (n_requests_per_timeslot dcfg))))
           st timeslots = Ok st' →
  ∃ new, st'.1 = st.1 ++ new ∧
    timeslot <$> new
      = timeslots ≫= replicate (Z.to_nat (n_requests_per_timeslot dcfg)) ∧
    Forall request_ok new ∧
    (timeslots ≠ [] → (0 < n_requests_per_timeslot dcfg)%Z → radius_ok dcfg).
Proof using integers_in_range.
  intros Hne. revert st. induction timeslots as [| ts tss IH]; intros st Hrun.
  - injection Hrun as <-. exists []. by rewrite app_nil_r.
  - cbn [for_each] in Hrun.
    destruct (for_each (step centers_df c0 dcfg mode ts) st _) as [st1 |] eqn:Hslot;
      [| done].
    destruct (slot_loop_spec _ _ _ _ _ _ Hne Hslot) as (new1 & Hst1 & Hts1 & Hok1 & Hrad).
    destruct (IH _ Hrun) as (new & Hst' & Htss & Hoks & _).
    exists (new1 ++ new). split_and!.
    + rewrite Hst', Hst1, <- app_assoc. done.
    + rewrite fmap_app, Hts1, Htss, length_seq. done.
    + by apply Forall_app.
    + intros _ Hn. apply Hrad. destruct (Z.to_nat _) eqn:Hz; [lia | done].
Qed.

(** X20: the generated requests. When the call returns for a non-empty
    centers frame, the demand section was accepted (a positive count, a wheel
    ratio within 0 and 1), every timeslot got exactly that count of requests,
    in timeslot order, and every request names an existing center by its
    index and carries its name, district and coordinates; towards the center
    the drop point is the center, otherwise the pickup point is. The radius
    range is only checked when a point is sampled: it is known to be valid as
    soon as one request exists. *)
Theorem build_requests_shape (timeslots : list string) (dcfg : option DemandSection)
    (reqs : list Request) :
  centers_df ≠ [] →
  build centers_df timeslots dcfg mode = Ok reqs →
  ∃ d, from_cfg repr_float dcfg mode = Ok d ∧
    (0 < n_requests_per_timeslot d)%Z ∧ (0 <= wheel_ratio d <= 1)%Q ∧
    timeslot <$> reqs = timeslots ≫= replicate (Z.to_nat (n_requests_per_timeslot d)) ∧
    length reqs = length timeslots * Z.to_nat (n_requests_per_timeslot d) ∧
    Forall request_ok reqs ∧
    (timeslots ≠ [] → radius_ok d).
Proof using integers_in_range.
  intros Hne. unfold build_requests.
  destruct (negb _); [done |]. destruct centers_df as [| c0 rest] eqn:Hc; [done |].
  rewrite <- Hc in *.
  destruct (from_cfg repr_float dcfg mode) as [d |] eqn:Hcfg; [| done].
  cbn [mbind result_bind].
  destruct (default_rng (seed d)) as [rng0 |]; [| done]. cbn [mbind result_bind].
  destruct (for_each _ _ timeslots) as [[reqs' rng'] |] eqn:Hrun; [| done].
  cbn [mbind result_bind fst]. intros [= ->].
  destruct (slots_loop_spec _ _ _ _ _ Hne Hrun) as (new & Hnew & Hts & Hok & Hrad).
  cbn [fst app] in Hnew. subst new.
  assert (Hd : (0 < n_requests_per_timeslot d)%Z ∧ (0 <= wheel_ratio d <= 1)%Q).
  { unfold from_cfg in Hcfg. destruct dcfg as [s |]; [| done].
    destruct (d_n_requests_per_timeslot s) as [[n |] |]; [| done | done].
    destruct (d_wheel_ratio s) as [[w |] |]; [| done | done].
    cbn [mbind result_bind] in Hcfg.
    destruct (conv_or (d_seed s) 42%Z); [| done]. cbn [mbind result_bind] in Hcfg.
    destruct (d_radius_min_km s) as [[? |] |]; [| done | done].
    destruct (d_radius_max_km s) as [[? |] |]; [| done | done].
    cbn [mbind result_bind] in Hcfg.
    destruct (Z.leb_spec n 0); [done |].
    destruct (decide ((0 <= w)%Q ∧ (w <= 1)%Q)); [| done].
    injection Hcfg as <-. done. }
  destruct Hd as [Hn Hw]. exists d. split_and!; [done | done | apply Hw | apply Hw | done | | done |].
  - rewrite <- (length_fmap timeslot), Hts. clear.
    induction timeslots as [| ts tss IH]; [done |].
    cbn [mbind list_bind]. rewrite length_app, length_replicate. cbn [length].
    change (length (tss ≫= replicate (Z.to_nat (n_requests_per_timeslot d))))
      with (length (mbind (replicate (Z.to_nat (n_requests_per_timeslot d))) tss)) in IH.
    rewrite IH. lia.
  - intros Hslots. by apply Hrad.
Qed.



End DemandProps.

Lemma build_requests_shape_witness :
  let integers := λ (g : unit) (low high : Z), (0%Z, g) in
  let uniform := λ (g : unit) (low high : Q), (low, g) in
  let random := λ g : unit, (0%Q, g) in
  let centers := [Demand.Build_Center "Jongno-gu" "Pool" (75 # 2) 127] in
  let dcfg := Some (Demand.Build_DemandSection (Some (Ok 2%Z)) (Some (Ok (1 # 2)%Q)) None
                      (Some (Ok 0%Q)) (Some (Ok 1%Q))) in
  (∀ g high, (0 < high)%Z → (0 <= (integers g 0%Z high).1 < high)%Z) ∧
  centers ≠ [] ∧
  ∃ reqs d,
    Demand.build_requests (λ _, Ok tt) integers uniform random (λ _, 1%Q) (λ _, 0%Q)
      (λ x, x) 3%Q (λ _, "x") centers ["09:00"; "10:00"] dcfg "to_center" = Ok reqs ∧
    Demand.from_cfg (λ _, "x") dcfg "to_center" = Ok d ∧
    length reqs = 2 * Z.to_nat (Demand.n_requests_per_timeslot d).
Proof.
  intros integers uniform random centers dcfg.
  assert (Hrange : ∀ (g : unit) high,
            (0 < high)%Z → (0 <= (integers g 0%Z high).1 < high)%Z).
  { intros g high Hhigh. cbn. lia. }
  assert (Hne : centers ≠ []) by done.
  split; [exact Hrange |]. split; [exact Hne |].
  eexists. 
  destruct (build_requests_shape (λ _, Ok tt) integers uniform random (λ _, 1%Q) (λ _, 0%Q)
              (λ x, x) 3%Q (λ _, "x") centers "to_center" Hrange ["09:00"; "10:00"] dcfg _
              Hne eq_refl) as (d & Hcfg & _ & _ & _ & Hlen & _).
  exists d. split; [reflexivity |]. split; [exact Hcfg | exact Hlen].
Defined.


(** ** The stops and events of a tour *)

Lemma filter_count_length (l : list nat) :
  length (filter (λ y, y ≠ 0) l) + count_occ Nat.eq_dec l 0 = length l.
Proof.
  induction l as [| x l IH]; [done |]. rewrite filter_cons. cbn [count_occ length].
  destruct (decide (x ≠ 0)) as [Hx | Hx]; destruct (Nat.eq_dec x 0) as [Hx0 | Hx0];
    cbn [length]; lia.
Qed.

Lemma tour_pickups (n : nat) (route : list nat) :
  tour_ok n route → filter (λ y, y ≠ 0) route ≡ₚ seq 1 (n - 1).
Proof.
  intros (_ & _ & Hlen & Hzero & Hone). symmetry.
  apply submseteq_length_Permutation.
  - apply NoDup_submseteq; [apply NoDup_seq |].
    intros x Hx. apply elem_of_seq in Hx. apply list_elem_of_filter. split; [lia |].
    apply list_elem_of_In, (count_occ_In Nat.eq_dec). rewrite Hone; lia.
  - pose proof (filter_count_length route) as Hsum. rewrite length_seq. lia.
Qed.

Lemma tour_split (n : nat) (route : list nat) :
  tour_ok n route →
  ∃ mid, route = 0 :: mid ++ [0] ∧ length mid = n - 1 ∧ 1 ≤ n ∧ Forall (λ y, y ≠ 0) mid.
Proof.
  intros (Hhead & Hlast & Hlen & Hzero & _).
  destruct route as [| x route]; [done |]. injection Hhead as ->.
  destruct route as [| y route _] using rev_ind.
  { cbn in Hzero. done. }
  rewrite app_comm_cons, last_snoc in Hlast. injection Hlast as ->.
  exists route. rewrite length_cons, length_app in Hlen. cbn [length] in Hlen.
  split_and!; [done | lia | lia |].
  cbn [count_occ] in Hzero. destruct (Nat.eq_dec 0 0) as [_ | ?]; [| done].
  rewrite count_occ_app in Hzero. cbn [count_occ] in Hzero.
  destruct (Nat.eq_dec 0 0) as [_ | ?]; [| done].
  assert (Hnone : count_occ Nat.eq_dec route 0 = 0) by lia.
  apply Forall_forall. intros y Hy ->.
  apply list_elem_of_In, (count_occ_In Nat.eq_dec) in Hy. lia.
Qed.

(** X22: on a tour over [n] points the stops are labelled depot, then
    pickup for each of the [n - 1] stops in between, then center; and the
    events of the vehicle cover every pickup index from 1 to [n - 1] exactly
    once. *)
Theorem tour_stops_and_events (n : nat) (points : list point) (route_points : list nat)
    (dist_mean dist_act : matrix) (slot : Q) :
  tour_ok n route_points →
  PipelineRun.stop_types route_points
    = ["depot"] ++ replicate (n - 1) "pickup" ++ ["center"] ∧
  PipelineRun.node_idx <$> PipelineRun.vehicle_events points route_points dist_mean dist_act slot
    ≡ₚ seq 1 (n - 1).
Proof.
  intros Htour. split.
  - destruct (tour_split n route_points Htour) as (mid & -> & Hlen & Hn & Hmid).
    unfold PipelineRun.stop_types.
    set (route := 0 :: mid ++ [0]).
    assert (Hroute : length route - 1 = S (length mid)).
    { unfold route. cbn [length]. rewrite length_app. cbn [length]. lia. }
    unfold route at 2. rewrite imap_cons, imap_app. cbn [imap app].
    f_equal. f_equal.
    + rewrite <- Hlen. clear Hlen. apply list_eq. intros i.
      rewrite list_lookup_imap. destruct (mid !! i) as [y |] eqn:Hy.
      * cbn [fmap option_fmap option_map]. rewrite lookup_replicate_2 by by eapply lookup_lt_Some.
        f_equal. unfold PipelineRun.stop_type, compose.
        rewrite decide_False; [done |]. by eapply Forall_lookup_1 in Hmid.
      * cbn. symmetry. apply lookup_replicate_None. by apply lookup_ge_None.
    + unfold PipelineRun.stop_type, compose. rewrite Hroute, Nat.add_0_r.
      rewrite decide_True by done. rewrite bool_decide_eq_false_2 by lia.
      by rewrite bool_decide_eq_true_2.
  - assert (Hnd : NoDup (filter (λ y, y ≠ 0) route_points)).
    { rewrite (tour_pickups n route_points Htour). apply NoDup_seq. }
    unfold PipelineRun.vehicle_events.
    rewrite (event_nodes _ PipelineRun.node_idx route_points (λ i, i)).
    + by apply tour_pickups.
    + intros i node ->. done.
    + intros i node Hnode. rewrite decide_False by done.
      destruct (nth node points (0, 0)%Q). by eexists.
Qed.

Lemma tour_stops_and_events_witness :
  let m := of_rows [[0; 5; 9]; [7; 0; 4]; [6; 3; 0]]%Q in
  let points := [(0, 0); (1, 1); (2, 2)]%Q in
  tour_ok 3 [0; 2; 1; 0] ∧
  PipelineRun.stop_types [0; 2; 1; 0] = ["depot"; "pickup"; "pickup"; "center"].
Proof.
  intros m points.
  assert (Htour : tour_ok 3 [0; 2; 1; 0]).
  { split_and!; [done | done | done | done |].
    intros i Hi. destruct i as [| [| [| i]]]; [lia | done | done | lia]. }
  split; [exact Htour |].
  exact (proj1 (tour_stops_and_events 3 points [0; 2; 1; 0] m m 540%Q Htour)).
Defined.

(** ** Improvement on short routes *)

Lemma nn_route_length (key : nat → nat → Q) (n : nat) :
  length (Tsp.nn_loop key (length (seq 1 (n - 1))) (seq 1 (n - 1)) 0 [0] ++ [0])
  = n - 1 + 2.
Proof.
  destruct (nn_loop_perm key (length (seq 1 (n - 1))) (seq 1 (n - 1)) 0 [0])
    as (p & -> & Hp); [apply NoDup_seq | done |].
  rewrite !length_app, (Permutation_length Hp), length_seq. cbn [length]. lia.
Qed.

Lemma solver_two_opt_short (dm : matrix) (route : list nat) (max_passes : nat) :
  length route ≤ 4 → RouteSolver._two_opt dm route max_passes = route.
Proof.
  intros Hlen. unfold RouteSolver._two_opt, RouteSolver._two_opt_trace.
  destruct max_passes as [| budget]; [done |]. cbn [RouteSolver.two_opt_loop].
  unfold RouteSolver.pass. replace (length route - 3 - 1) with 0 by lia. done.
Qed.

(** X24: with at most three points there is nothing to improve: whatever
    the improvement asked for, both solvers return the nearest-neighbour
    route. The 2-opt and the tabu search of [route_solver.py] return a route
    of at most four stops as it is. *)
Theorem small_routes_unimproved (fsqrt : Q → Q) {rng : Type} (Random : Z → rng)
    (randrange : rng → nat → nat → nat * rng) (points : list point)
    (dist_mat : option matrix) (dm : matrix) (method : string) (fuel : nat)
    (improve_method : option string) (seed : Z) (iters tabu_tenure max_passes : nat)
    (route : list nat) :
  (length points ≤ 3 →
   Tsp.solve_tsp fsqrt fuel points dist_mat method true
   = Tsp.solve_tsp fsqrt fuel points dist_mat method false) ∧
  (length route ≤ 4 →
   RouteSolver._two_opt dm route max_passes = route ∧
   RouteSolver._tabu_search Random randrange dm route seed iters tabu_tenure = route) ∧
  (nrows dm ≤ 3 →
   RouteSolver.solve_tsp Random randrange points dm improve_method seed iters
   = RouteSolver.solve_tsp Random randrange points dm None seed iters).
Proof.
  split_and!.
  - intros Hn. unfold Tsp.solve_tsp.
    destruct (length points =? 0); [done |]. destruct (length points =? 1); [done |].
    destruct (negb _); [done |].
    match goal with |- match ?c with _ => _ end = _ => destruct c; [| done] end.
    rewrite nn_route_length.
    replace (4 <? length points - 1 + 2) with false; [done |].
    symmetry. apply Nat.ltb_ge. lia.
  - intros Hlen. split; [by apply solver_two_opt_short |].
    unfold RouteSolver._tabu_search.
    replace (length route <? 6) with true; [by apply solver_two_opt_short |].
    symmetry. apply Nat.ltb_lt. lia.
  - intros Hrows. unfold RouteSolver.solve_tsp.
    destruct (length points <=? 1); [done |].
    assert (Hlen : length (RouteSolver._nearest_neighbor dm) ≤ 4).
    { unfold RouteSolver._nearest_neighbor. rewrite solver_nn_loop_eq, nn_route_length. lia. }
    destruct improve_method as [m |]; [| done].
    destruct (String.eqb m "none"); [done |].
    destruct (String.eqb m "two_opt"); [by apply solver_two_opt_short |].
    destruct (String.eqb m "tabu"); [| done].
    unfold RouteSolver._tabu_search.
    replace (length (RouteSolver._nearest_neighbor dm) <? 6) with true;
      [by apply solver_two_opt_short |].
    symmetry. apply Nat.ltb_lt. lia.
Qed.

Lemma small_routes_unimproved_witness :
  let points := [(0, 0); (3, 4); (1, 1)]%Q in
  let dm := of_rows [[0; 5; 9]; [7; 0; 4]; [6; 3; 0]]%Q in
  length points ≤ 3 ∧
  Tsp.solve_tsp (λ x, x) 10 points (Some dm) "time_nn" true
  = Tsp.solve_tsp (λ x, x) 10 points (Some dm) "time_nn" false.
Proof.
  intros points dm.
  assert (Hn : length points ≤ 3) by (cbn; lia).
  split; [exact Hn |].
  exact (proj1 (small_routes_unimproved (λ x, x) Z.to_nat (λ g _ _, (1, g)) points
                  (Some dm) dm "time_nn" 10 None 0%Z 0 0 0 []) Hn).
Defined.
